(** * OneEpay client SDK (src/index.ts): a shallow embedding and its properties

    The development follows the TypeScript source: JavaScript values and
    their coercions, the base64 SHA-1 digest of Node's [crypto], the anchored
    regular expression of [isMoney], the [indicative] rule engine the two
    validators call, and the [OneEpay] class itself, whose methods run in a
    small state-and-exception monad over the client object and the list of
    HTTP requests sent so far. *)

From Stdlib Require Import ZArith List String Ascii Bool Lia.
From Stdlib Require Import DecimalString DecimalZ.
Import ListNotations.

Set Warnings "-register-all".

Local Open Scope list_scope.
Local Open Scope string_scope.

(** ** JavaScript values *)

Module Js.

(** A number is an integer, or some other number (a fraction, [NaN])
    carried by the text JavaScript prints for it.  The program never computes
    with numbers: it tests them ([integer], truthiness) and prints them.
    [NInt z] is the number of value [z] when a double holds [z] exactly
    ([is_double]), as it does every integer up to 2^53; for another [z] it
    is the number the literal [z] evaluates to, the nearest double. *)
Inductive JsNumber : Type :=
| NInt (z : Z)
| NOther (repr : string).

(** Strings are byte strings (the UTF-8 form that [crypto] hashes), and their
    length is counted in bytes; the program only tests a length against
    zero.  An object is the list of its own properties in insertion order. *)
Inductive JsVal : Type :=
| VUndefined
| VNull
| VBool (b : bool)
| VNum (n : JsNumber)
| VStr (s : string)
| VArr (elems : list JsVal)
| VObj (props : list (string * JsVal)).

(** [!!v] *)
Definition truthy (v : JsVal) : bool :=
  match v with
  | VUndefined | VNull => false
  | VBool b => b
  | VNum (NInt z) => negb (Z.eqb z 0)
  | VNum (NOther r) => negb (r =? "NaN")
  | VStr s => negb (s =? "")
  | VArr _ | VObj _ => true
  end.

(** [a || b] *)
Definition js_or (a b : JsVal) : JsVal := if truthy a then a else b.

(** [typeof v] *)
Definition typeof (v : JsVal) : string :=
  match v with
  | VUndefined => "undefined"
  | VNull | VArr _ | VObj _ => "object"
  | VBool _ => "boolean"
  | VNum _ => "number"
  | VStr _ => "string"
  end.

(** The decimal digits of an integer. *)
Definition Z_to_string (z : Z) : string := NilZero.string_of_int (Z.to_int z).

(** The double nearest to a positive integer: the integers up to 2^53 are
    doubles; above, a double keeps the 53 leading bits, rounded to nearest,
    ties to the even significand. *)
Definition nearest_double (z : Z) : Z :=
  if (z <=? 2 ^ 53)%Z then z
  else
    let e := (Z.log2 z - 52)%Z in
    let m := (z / 2 ^ e)%Z in
    let r := (z - m * 2 ^ e)%Z in
    let half := (2 ^ (e - 1))%Z in
    let m' := if ((half <? r) || ((r =? half) && Z.odd m))%Z%bool
              then (m + 1)%Z else m in
    (m' * 2 ^ e)%Z.

(** A double holds the integer exactly, and it is finite. *)
Definition is_double (z : Z) : bool :=
  ((nearest_double (Z.abs z) =? Z.abs z) && (Z.abs z <? 2 ^ 1024))%Z%bool.

(** The decimal [s * 10 ^ (n - k)] of [Number::toString] for the double
    [x]: it reads back as [x] with as few digits [s] as possible, that is,
    it is a multiple of the greatest power of ten (from [10 ^ fuel] down)
    that rounds to [x]; of two such multiples it is the nearer to [x], and
    the one with the even [s] when they are equally near. *)
Fixpoint shortest_decimal (fuel : nat) (x : Z) : Z :=
  match fuel with
  | O => x
  | S lower =>
      let p := (10 ^ Z.of_nat fuel)%Z in
      let below := (x / p * p)%Z in
      let above := (below + p)%Z in
      let reads_back c := ((0 <? c) && (nearest_double c =? x))%Z%bool in
      if reads_back below && reads_back above then
        if (x - below <? above - x)%Z then below
        else if (above - x <? x - below)%Z then above
        else if Z.even (below / p) then below else above
      else if reads_back below then below
      else if reads_back above then above
      else shortest_decimal lower x
  end.

(** A string of digits without its trailing zeros. *)
Fixpoint strip_zeros (s : string) : string :=
  match s with
  | EmptyString => EmptyString
  | String c s' =>
      match strip_zeros s' with
      | EmptyString => if Ascii.eqb c "0" then EmptyString
                       else String c EmptyString
      | t => String c t
      end
  end.

(** [d.ddd]: a dot after the first digit when more follow. *)
Definition mantissa (s : string) : string :=
  match s with
  | String d (String _ _ as rest) => String d (String "." rest)
  | _ => s
  end.

(** [d.ddde+n], the form of the numbers from 1e21. *)
Definition exponent_form (c : Z) : string :=
  let ds := Z_to_string c in
  mantissa (strip_zeros ds) ++ "e+"
    ++ Z_to_string (Z.of_nat (String.length ds) - 1).

(** [Number::toString] on a positive integer: the shortest decimal that
    reads back as its double, written in full below 1e21 and in exponent
    form from there; beyond the largest double the number is [Infinity]. *)
Definition positive_to_string (z : Z) : string :=
  let x := nearest_double z in
  if (2 ^ 1024 <=? x)%Z then "Infinity"
  else
    let c := if (x <=? 2 ^ 53)%Z then x
             else shortest_decimal (String.length (Z_to_string x)) x in
    if (c <? 10 ^ 21)%Z then Z_to_string c else exponent_form c.

(** [Number::toString], the text of a number: [2] prints as "2", [2 ** 60] as
    "1152921504606847000" and [1e21] as "1e+21". *)
Definition number_to_string (n : JsNumber) : string :=
  match n with
  | NInt z =>
      if (z =? 0)%Z then "0"
      else if (z <? 0)%Z then "-" ++ positive_to_string (- z)
      else positive_to_string z
  | NOther r => r
  end.

(** [String(v)], the coercion behind template literals and behind [+] with a
    string operand.  Arrays join their elements with commas, printing [null]
    and [undefined] as nothing; a plain object prints as [[object Object]]. *)
Fixpoint ToString (v : JsVal) : string :=
  match v with
  | VUndefined => "undefined"
  | VNull => "null"
  | VBool true => "true"
  | VBool false => "false"
  | VNum n => number_to_string n
  | VStr s => s
  | VArr elems =>
      (fix join (l : list JsVal) : string :=
         match l with
         | [] => ""
         | x :: rest =>
             let sx := match x with
                       | VUndefined | VNull => ""
                       | _ => ToString x
                       end in
             match rest with
             | [] => sx
             | _ :: _ => sx ++ "," ++ join rest
             end
         end) elems
  | VObj _ => "[object Object]"
  end.

(** [s + v] for a string [s]: with a string on the left, [+] concatenates the
    string form of the right operand. *)
Definition str_plus (s : string) (v : JsVal) : string := s ++ ToString v.

Fixpoint lookup (k : string) (props : list (string * JsVal)) : option JsVal :=
  match props with
  | [] => None
  | (k', v) :: rest => if k' =? k then Some v else lookup k rest
  end.

Definition is_digit (c : ascii) : bool :=
  let n := nat_of_ascii c in (Nat.leb 48 n && Nat.leb n 57)%bool.

(** The array index a property key denotes, if it is a canonical one
    (["0"], ["7"], ["12"], not ["01"]). *)
Fixpoint digits_value (acc : nat) (s : string) : option nat :=
  match s with
  | EmptyString => Some acc
  | String c s' =>
      if is_digit c then digits_value (10 * acc + (nat_of_ascii c - 48)) s'
      else None
  end.

Definition index_of_key (k : string) : option nat :=
  match k with
  | EmptyString => None
  | String "0" EmptyString => Some 0
  | String "0" _ => None
  | _ => digits_value 0 k
  end.

Definition nth_char (s : string) (i : nat) : JsVal :=
  match String.get i s with
  | Some c => VStr (String c EmptyString)
  | None => VUndefined
  end.

(** [v[k]] and [v.k] on a value that is neither [null] nor [undefined]:
    own properties of objects, [length] and the indices of arrays and strings;
    everything else is [undefined]. *)
Definition own (v : JsVal) (k : string) : JsVal :=
  match v with
  | VObj props => match lookup k props with Some x => x | None => VUndefined end
  | VArr elems =>
      if k =? "length" then VNum (NInt (Z.of_nat (List.length elems)))
      else match index_of_key k with
           | Some i => nth i elems VUndefined
           | None => VUndefined
           end
  | VStr s =>
      if k =? "length" then VNum (NInt (Z.of_nat (String.length s)))
      else match index_of_key k with
           | Some i => nth_char s i
           | None => VUndefined
           end
  | _ => VUndefined
  end.

(** Property access: [None] is the TypeError of reading a property of [null]
    or [undefined]. *)
Definition member (v : JsVal) (k : string) : option JsVal :=
  match v with
  | VUndefined | VNull => None
  | _ => Some (own v k)
  end.

(** [s.split(sep)] for a one-character separator. *)
Fixpoint split_on (sep : ascii) (s : string) : list string :=
  match s with
  | EmptyString => [EmptyString]
  | String c s' =>
      if Ascii.eqb c sep then EmptyString :: split_on sep s'
      else match split_on sep s' with
           | [] => [String c EmptyString]
           | w :: ws => String c w :: ws
           end
  end.

(** lodash's [_.get(data, path)] on a dotted path: [undefined] as soon as the
    walk meets [null] or [undefined]. *)
Fixpoint get_path (v : JsVal) (path : list string) : JsVal :=
  match path with
  | [] => v
  | k :: rest =>
      match member v k with
      | Some x => get_path x rest
      | None => VUndefined
      end
  end.

Definition get (data : JsVal) (field : string) : JsVal :=
  get_path data (split_on "." field).

End Js.

(** ** The digest: [crypto.createHash('sha1').update(data).digest('base64')] *)

Module Crypto.

Local Open Scope Z_scope.

Definition w32 (x : Z) : Z := Z.land x 0xFFFFFFFF.

Definition add32 (a b : Z) : Z := w32 (a + b).

Definition rotl32 (n x : Z) : Z :=
  w32 (Z.lor (Z.shiftl x n) (Z.shiftr x (32 - n))).

Definition bytes_of_string (s : string) : list Z :=
  map (fun c => Z.of_nat (nat_of_ascii c)) (list_ascii_of_string s).

(** The [n] low bytes of [x], most significant first. *)
Fixpoint be_bytes (n : nat) (x : Z) : list Z :=
  match n with
  | O => []
  | S k => Z.land (Z.shiftr x (8 * Z.of_nat k)) 255 :: be_bytes k x
  end.

(** SHA-1 padding: a [0x80] byte, zeros up to 56 modulo 64, then the length of
    the message in bits on eight bytes. *)
Definition pad (msg : list Z) : list Z :=
  let len := Z.of_nat (List.length msg) in
  (msg ++ [128] ++ repeat 0 (Z.to_nat ((55 - len) mod 64))
       ++ be_bytes 8 (8 * len))%list.

Fixpoint be_words (bs : list Z) : list Z :=
  match bs with
  | a :: b :: c :: d :: rest =>
      Z.lor (Z.shiftl a 24) (Z.lor (Z.shiftl b 16) (Z.lor (Z.shiftl c 8) d))
        :: be_words rest
  | _ => []
  end.

Fixpoint blocks (n : nat) (ws : list Z) : list (list Z) :=
  match n with
  | O => []
  | S k => firstn 16 ws :: blocks k (skipn 16 ws)
  end.

(** The message schedule, kept newest word first while it grows. *)
Fixpoint extend (n : nat) (rev_w : list Z) : list Z :=
  match n with
  | O => rev_w
  | S k =>
      let x := Z.lxor (Z.lxor (nth 2 rev_w 0) (nth 7 rev_w 0))
                      (Z.lxor (nth 13 rev_w 0) (nth 15 rev_w 0)) in
      extend k (rotl32 1 x :: rev_w)
  end.

Definition schedule (block : list Z) : list Z := rev (extend 64 (rev block)).

Definition H5 : Type := (Z * Z * Z * Z * Z)%type.

Definition round (st : H5) (tw : nat * Z) : H5 :=
  let '(a, b, c, d, e) := st in
  let '(t, w) := tw in
  let '(f, k) :=
    if Nat.ltb t 20 then
      (Z.lor (Z.land b c) (Z.land (Z.lxor b 0xFFFFFFFF) d), 0x5A827999)
    else if Nat.ltb t 40 then (Z.lxor b (Z.lxor c d), 0x6ED9EBA1)
    else if Nat.ltb t 60 then
      (Z.lor (Z.land b c) (Z.lor (Z.land b d) (Z.land c d)), 0x8F1BBCDC)
    else (Z.lxor b (Z.lxor c d), 0xCA62C1D6) in
  (add32 (add32 (add32 (add32 (rotl32 5 a) f) e) k) w, a, rotl32 30 b, c, d).

Definition compress (h : H5) (block : list Z) : H5 :=
  let '(h0, h1, h2, h3, h4) := h in
  let '(a, b, c, d, e) :=
    fold_left round (combine (seq 0 80) (schedule block)) h in
  (add32 h0 a, add32 h1 b, add32 h2 c, add32 h3 d, add32 h4 e).

Definition sha1 (msg : list Z) : list Z :=
  let ws := be_words (pad msg) in
  let '(h0, h1, h2, h3, h4) :=
    fold_left compress (blocks (List.length ws / 16) ws)
      (0x67452301, 0xEFCDAB89, 0x98BADCFE, 0x10325476, 0xC3D2E1F0) in
  (be_bytes 4 h0 ++ be_bytes 4 h1 ++ be_bytes 4 h2 ++ be_bytes 4 h3
     ++ be_bytes 4 h4)%list.

Definition alphabet : string :=
  "ABCDEFGHIJKLMNOPQRSTUVWXYZabcdefghijklmnopqrstuvwxyz0123456789+/".

Definition b64_char (i : Z) : ascii :=
  match String.get (Z.to_nat i) alphabet with
  | Some c => c
  | None => "="%char
  end.

Fixpoint base64 (bs : list Z) : string :=
  match bs with
  | [] => EmptyString
  | [a] =>
      String (b64_char (Z.shiftr a 2))
        (String (b64_char (Z.shiftl (Z.land a 3) 4)) "==")
  | [a; b] =>
      String (b64_char (Z.shiftr a 2))
        (String (b64_char (Z.lor (Z.shiftl (Z.land a 3) 4) (Z.shiftr b 4)))
           (String (b64_char (Z.shiftl (Z.land b 15) 2)) "="))
  | a :: b :: c :: rest =>
      String (b64_char (Z.shiftr a 2))
        (String (b64_char (Z.lor (Z.shiftl (Z.land a 3) 4) (Z.shiftr b 4)))
           (String (b64_char (Z.lor (Z.shiftl (Z.land b 15) 2) (Z.shiftr c 6)))
              (String (b64_char (Z.land c 63)) (base64 rest))))
  end.

(** The base64 SHA-1 digest of a string. *)
Definition digest (data : string) : string :=
  base64 (sha1 (bytes_of_string data)).

End Crypto.

(** ** Regular expressions, matched by derivatives *)

Module Regex.

Inductive re : Type :=
| Void
| Eps
| Class (p : ascii -> bool)
| Seq (r1 r2 : re)
| Alt (r1 r2 : re)
| Star (r : re).

(** [r{n}] *)
Fixpoint times (n : nat) (r : re) : re :=
  match n with
  | O => Eps
  | S k => Seq r (times k r)
  end.

Fixpoint nullable (r : re) : bool :=
  match r with
  | Void => false
  | Eps => true
  | Class _ => false
  | Seq r1 r2 => nullable r1 && nullable r2
  | Alt r1 r2 => nullable r1 || nullable r2
  | Star _ => true
  end.

Fixpoint deriv (c : ascii) (r : re) : re :=
  match r with
  | Void => Void
  | Eps => Void
  | Class p => if p c then Eps else Void
  | Seq r1 r2 =>
      if nullable r1 then Alt (Seq (deriv c r1) r2) (deriv c r2)
      else Seq (deriv c r1) r2
  | Alt r1 r2 => Alt (deriv c r1) (deriv c r2)
  | Star r1 => Seq (deriv c r1) (Star r1)
  end.

(** [/^r$/.test(s)]: without the [m] flag the anchors are the two ends of the
    input, so the whole string has to match. *)
Fixpoint test (r : re) (s : string) : bool :=
  match s with
  | EmptyString => nullable r
  | String c s' => test (deriv c r) s'
  end.

(** The strings a regular expression denotes. *)
Inductive lang : re -> string -> Prop :=
| lang_eps : lang Eps ""
| lang_class p c : p c = true -> lang (Class p) (String c "")
| lang_seq r1 r2 s1 s2 : lang r1 s1 -> lang r2 s2 -> lang (Seq r1 r2) (s1 ++ s2)
| lang_alt_l r1 r2 s : lang r1 s -> lang (Alt r1 r2) s
| lang_alt_r r1 r2 s : lang r2 s -> lang (Alt r1 r2) s
| lang_star_nil r : lang (Star r) ""
| lang_star_cons r s1 s2 :
    lang r s1 -> lang (Star r) s2 -> lang (Star r) (s1 ++ s2).

End Regex.

(** ** The [indicative] rule engine, and the custom rule [isMoney] *)

Module Indicative.

Import Js.

(** How the promise of one validation settles. *)
Inductive Settled : Type :=
| Resolved (value : string)
| Rejected (message : string).

(** A validation receives [(data, field, message, args, get)]. *)
Definition Validation : Type :=
  JsVal -> string -> string -> list string
  -> (JsVal -> string -> JsVal) -> Settled.

(** [/^[0-9]*\.[0-9]{2}$/] *)
Definition money_regex : Regex.re :=
  Regex.Seq (Regex.Star (Regex.Class is_digit))
    (Regex.Seq (Regex.Class (Ascii.eqb "."))
       (Regex.times 2 (Regex.Class is_digit))).

(** [args.join(',')], what [+ args] appends to a string. *)
Definition join_args (args : list string) : string := String.concat "," args.

(** [isMoney] of src/index.ts.  [regex.test] coerces its argument to a
    string. *)
Definition isMoney : Validation :=
  fun data field message args get =>
    let fieldValue := get data field in
    if negb (truthy fieldValue) then
      Resolved ("validation skipped" ++ join_args args)
    else if Regex.test money_regex (ToString fieldValue) then
      Resolved "validation passed"
    else Rejected message.

(** Modelled from the spec: the built-in rules of the [indicative] package,
    which the repository imports and does not contain.  Section 4.2 of the
    specification names them: [required] fails if the field is absent or
    empty; [string], [integer], [object] check the type; [in] checks
    membership in the comma-separated set; [required_when] requires the field
    only if the named field equals the value.  Absent or empty is read as
    [undefined], [null] or the empty string: section 8 has the create rules
    pass on an empty [paymentOptions] object, so an empty object is a value.
    As for the custom rule, a type or membership rule skips a value that is
    absent or empty. *)
Definition existy (v : JsVal) : bool :=
  match v with
  | VUndefined | VNull => false
  | VStr s => negb (s =? "")
  | _ => true
  end.

Definition skippable (v : JsVal) : bool := negb (existy v).

Definition settle (ok : bool) (message : string) : Settled :=
  if ok then Resolved "validation passed" else Rejected message.

Definition required : Validation :=
  fun data field message args get => settle (existy (get data field)) message.

Definition skipping (check : JsVal -> list string -> bool) : Validation :=
  fun data field message args get =>
    let fieldValue := get data field in
    if skippable fieldValue then Resolved "validation skipped"
    else settle (check fieldValue args) message.

Definition is_string (v : JsVal) : bool :=
  match v with VStr _ => true | _ => false end.

Definition is_integer (v : JsVal) : bool :=
  match v with VNum (NInt _) => true | _ => false end.

Definition is_object (v : JsVal) : bool :=
  match v with VObj _ => true | _ => false end.

Definition in_array (v : JsVal) (args : list string) : bool :=
  match v with
  | VStr s => existsb (String.eqb s) args
  | _ => false
  end.

Definition equals_text (v : JsVal) (expected : string) : bool :=
  match v with
  | VStr s => s =? expected
  | _ => false
  end.

Definition requiredWhen : Validation :=
  fun data field message args get =>
    match args with
    | withField :: expected :: _ =>
        if equals_text (get data withField) expected then
          settle (existy (get data field)) message
        else Resolved "validation skipped"
    | _ => Resolved "validation skipped"
    end.

(** Modelled from the spec: the registry of the [indicative] package, keyed by
    the camel-case names of its rules, each with its default message. *)
Definition Registry : Type := list (string * (Validation * string)).

Definition default_message : string :=
  "{{validation}} validation failed on {{field}}".

Definition builtins : Registry :=
  [ ("required", (required, default_message));
    ("string", (skipping (fun v _ => is_string v), default_message));
    ("integer", (skipping (fun v _ => is_integer v), default_message));
    ("object", (skipping (fun v _ => is_object v), default_message));
    ("in", (skipping in_array, default_message));
    ("requiredWhen", (requiredWhen, default_message)) ].

(** [indicative.extend(name, fn, message)] *)
Definition extend (name : string) (fn : Validation) (message : string)
    (reg : Registry) : Registry :=
  (name, (fn, message)) :: reg.

(** The registry after the module has loaded:
    [indicative.extend('isMoney', isMoney, 'The {{field}} field is not valid.')]. *)
Definition registry : Registry :=
  extend "isMoney" isMoney "The {{field}} field is not valid." builtins.

Fixpoint find_rule (name : string) (reg : Registry)
    : option (Validation * string) :=
  match reg with
  | [] => None
  | (n, entry) :: rest => if n =? name then Some entry else find_rule name rest
  end.

Definition upcase (c : ascii) : ascii :=
  let n := nat_of_ascii c in
  if (Nat.leb 97 n && Nat.leb n 122)%bool then ascii_of_nat (n - 32) else c.

(** [is_money] is looked up as [isMoney], [required_when] as [requiredWhen]. *)
Fixpoint camel_case (s : string) : string :=
  match s with
  | EmptyString => EmptyString
  | String "_" (String c rest) => String (upcase c) (camel_case rest)
  | String c rest => String c (camel_case rest)
  end.

(** A rule as written in a rule string: [name] or [name:arg,arg,...]. *)
Record ParsedRule : Type := { rule_name : string; rule_args : list string }.

Fixpoint cut (sep : ascii) (s : string) : string * option string :=
  match s with
  | EmptyString => (EmptyString, None)
  | String c s' =>
      if Ascii.eqb c sep then (EmptyString, Some s')
      else let '(a, b) := cut sep s' in (String c a, b)
  end.

Definition parse_rule (s : string) : ParsedRule :=
  match cut ":" s with
  | (name, None) => {| rule_name := name; rule_args := [] |}
  | (name, Some args) =>
      {| rule_name := name; rule_args := split_on "," args |}
  end.

Definition parse_rules (s : string) : list ParsedRule :=
  map parse_rule (split_on "|" s).

Fixpoint lookup_text (k : string) (l : list (string * string)) : option string :=
  match l with
  | [] => None
  | (k', v) :: rest => if k' =? k then Some v else lookup_text k rest
  end.

(** Replace every occurrence of [pat] in [s] by [rep]; [skip] counts the
    characters of an occurrence still to drop. *)
Fixpoint substitute (pat rep : string) (skip : nat) (s : string) : string :=
  match s with
  | EmptyString => EmptyString
  | String c s' =>
      match skip with
      | S k => substitute pat rep k s'
      | O =>
          if String.prefix pat s then
            rep ++ substitute pat rep (String.length pat - 1) s'
          else String c (substitute pat rep 0 s')
      end
  end.

(** Modelled from the spec: the message of a failed rule is the custom message
    registered for [field.rule], else the one for [rule], else the rule's
    default, with [{{field}}] replaced by the field's dotted path and
    [{{validation}}] by the rule's name. *)
Definition make_message (messages : list (string * string))
    (field validation default : string) : string :=
  let template :=
    match lookup_text (field ++ "." ++ validation) messages with
    | Some m => m
    | None =>
        match lookup_text validation messages with
        | Some m => m
        | None => default
        end
    end in
  substitute "{{validation}}" validation 0
    (substitute "{{field}}" field 0 template).

Record ValidationError : Type :=
  { field : string; validation : string; message : string }.

(** How [indicative.validate] settles: resolved, rejected with an array of
    errors, or failed on a rule name nobody registered. *)
Inductive Verdict : Type :=
| Valid
| Invalid (errors : list ValidationError)
| UnknownRule (name : string).

Section Validate.

Variable reg : Registry.
Variable data : JsVal.
Variable messages : list (string * string).

(** Modelled from the spec: the rules of one field run in the order listed
    and stop at the first that fails. *)
Fixpoint validate_field (fld : string) (rules : list ParsedRule) : Verdict :=
  match rules with
  | [] => Valid
  | r :: rest =>
      match find_rule (camel_case (rule_name r)) reg with
      | None => UnknownRule (rule_name r)
      | Some (fn, default) =>
          match fn data fld (make_message messages fld (rule_name r) default)
                   (rule_args r) get with
          | Resolved _ => validate_field fld rest
          | Rejected m =>
              Invalid [{| field := fld; validation := rule_name r;
                          message := m |}]
          end
      end
  end.

(** Modelled from the spec: [indicative.validate(data, rules, messages)] takes
    the fields in the order the rule set declares them and stops at the first
    failing rule, whose error it rejects with, alone in an array. *)
Fixpoint validate (rules : list (string * string)) : Verdict :=
  match rules with
  | [] => Valid
  | (fld, rs) :: rest =>
      match validate_field fld (parse_rules rs) with
      | Valid => validate rest
      | v => v
      end
  end.

End Validate.

End Indicative.

(** ** The [OneEpay] class *)

Module OneEpay.

Import Js Indicative.

(** What a [throw] carries: an [Error] or one of the three subclasses of the
    file (by name and message), the error of a failed [axios.post] (with the
    [data] of its [response], if the gateway answered), or a TypeError of the
    runtime. *)
Inductive JsError : Type :=
| Err (name message : string)
| AxiosErr (message : string) (response : option JsVal)
| TypeErr.

Definition CreateTransactionError : string -> JsError :=
  Err "CreateTransactionError".
Definition CompleteTransactionError : string -> JsError :=
  Err "CompleteTransactionError".
Definition OneEpayError : string -> JsError := Err "OneEpayError".

(** [new Error(m)]: an [undefined] message is the empty one. *)
Definition new_Error (m : JsVal) : JsError :=
  Err "Error" (match m with VUndefined => "" | _ => ToString m end).

Inductive Outcome (A : Type) : Type :=
| Returned (a : A)
| Thrown (e : JsError).
Arguments Returned {A} a.
Arguments Thrown {A} e.

(** The instance: the three constructor parameters and the two private
    fields. *)
Record Client : Type :=
  { apiURL : JsVal;
    clientId : JsVal;
    clientSecret : JsVal;
    accessToken : JsVal;
    signature : JsVal }.

Definition constructor (apiURL clientId clientSecret : JsVal)
    : Outcome Client :=
  if negb (truthy apiURL) then Thrown (OneEpayError "Missing OneEpay apiUrl.")
  else if negb (truthy clientId) then
    Thrown (OneEpayError "Missing OneEpay clientId.")
  else if negb (truthy clientSecret) then
    Thrown (OneEpayError "Missing OneEpay clientSecret.")
  else
    Returned {| apiURL := apiURL; clientId := clientId;
                clientSecret := clientSecret;
                accessToken := VUndefined; signature := VUndefined |}.

(** An HTTP POST as [axios.post(url, body, { headers })] sends it. *)
Record Request : Type :=
  { url : string; body : JsVal; headers : list (string * string) }.

(** The answer to a POST: a response with its [data], or the error
    [axios] throws, which has a [response] when the gateway answered with an
    error status and none when the transport failed. *)
Inductive HttpResult : Type :=
| Responded (data : JsVal)
| Failed (message : string) (response : option JsVal).

(** The gateway and the transport: what a request gets, given the requests
    sent before it. *)
Definition Network : Type := list Request -> Request -> HttpResult.

(** The state a method runs in: [this] and the requests sent so far. *)
Record State : Type := { self : Client; sent : list Request }.

Definition M (A : Type) : Type := State -> Outcome A * State.

Definition ret {A : Type} (a : A) : M A := fun st => (Returned a, st).

Definition throw {A : Type} (e : JsError) : M A := fun st => (Thrown e, st).

Definition bind {A B : Type} (m : M A) (k : A -> M B) : M B :=
  fun st =>
    match m st with
    | (Returned a, st') => k a st'
    | (Thrown e, st') => (Thrown e, st')
    end.

(** [try { m } catch (error) { handler(error) }] *)
Definition try_catch {A : Type} (m : M A) (handler : JsError -> M A) : M A :=
  fun st =>
    match m st with
    | (Returned a, st') => (Returned a, st')
    | (Thrown e, st') => handler e st'
    end.

Notation "x <- m ;; k" := (bind m (fun x => k))
  (at level 61, m at next level, right associativity).
Notation "m ;;; k" := (bind m (fun _ => k))
  (at level 61, right associativity).

Definition this : M Client := fun st => (Returned (self st), st).

Definition set_accessToken (v : JsVal) : M unit :=
  fun st =>
    let c := self st in
    (Returned tt,
     {| self := {| apiURL := apiURL c; clientId := clientId c;
                   clientSecret := clientSecret c;
                   accessToken := v; signature := signature c |};
        sent := sent st |}).

Definition set_signature (v : JsVal) : M unit :=
  fun st =>
    let c := self st in
    (Returned tt,
     {| self := {| apiURL := apiURL c; clientId := clientId c;
                   clientSecret := clientSecret c;
                   accessToken := accessToken c; signature := v |};
        sent := sent st |}).

(** [v.k], which throws on [null] and [undefined]. *)
Definition prop (v : JsVal) (k : string) : M JsVal :=
  match member v k with
  | Some x => ret x
  | None => throw TypeErr
  end.

Section Methods.

Variable net : Network.

(** [(await axios.post(url, body, { headers })).data] *)
Definition post (u : string) (b : JsVal) (h : list (string * string))
    : M JsVal :=
  fun st =>
    let r := {| url := u; body := b; headers := h |} in
    let st' := {| self := self st; sent := sent st ++ [r] |} in
    match net (sent st) r with
    | Responded d => (Returned d, st')
    | Failed m resp => (Thrown (AxiosErr m resp), st')
    end.

Definition handleOneEpayError {A : Type} (error : JsError) : M A :=
  match error with
  | AxiosErr _ (Some data) =>
      errors <- prop data "errors" ;;
      message <- prop data "message" ;;
      reason <- prop data "reason" ;;
      if truthy errors && truthy (own errors "length") then
        m <- prop (own errors "0") "message" ;;
        throw (new_Error m)
      else if truthy message && truthy reason then
        throw (new_Error (VStr (ToString message ++ " " ++ ToString reason)))
      else if truthy message then throw (new_Error message)
      else throw error
  | _ => throw error
  end.

Definition authenticate : M unit :=
  c <- this ;;
  let data := ToString (clientId c) ++ ":" ++ ToString (clientSecret c) in
  let authentication := Crypto.digest data in
  let apiEndpoint := ToString (apiURL c) ++ "/v1/oauth/access-token" in
  try_catch
    (response_data <-
       post apiEndpoint
         (VObj [("client_id", clientId c);
                ("permission", VStr "client_credentials")])
         [("authentication", authentication)] ;;
     token <- prop response_data "access_token" ;;
     set_accessToken token)
    handleOneEpayError.

(** [UID + totalAmount + totalQuantity + ip + this.clientId +
    this.clientSecret].  Both callers pass a [UID] that went through the rule
    [required|string], so the leftmost operand is a string and every [+]
    concatenates. *)
Definition makeSignature (UID totalAmount totalQuantity ip : JsVal)
    : M unit :=
  c <- this ;;
  let data :=
    str_plus (str_plus (str_plus (str_plus (str_plus (ToString UID)
      totalAmount) totalQuantity) ip) (clientId c)) (clientSecret c) in
  set_signature (VStr (Crypto.digest data)).

Definition createRules : list (string * string) :=
  [ ("UID", "required|string");
    ("totalAmount", "required|string|is_money");
    ("totalQuantity", "required|integer");
    ("paymentCode", "required|in:ABA,ACD,PNG,WIG,WIG_VPN");
    ("paymentOptions", "required|object");
    ("paymentOptions.accountType", "required_when:paymentCode,ACD");
    ("paymentOptions.account", "required_when:paymentCode,ACD");
    ("paymentOptions.paygoId", "required_when:paymentCode,PNG");
    ("paymentOptions.wingAccount", "required_when:paymentCode,WIG_VPN|string");
    ("paymentOptions.wingSecurityCode",
     "required_when:paymentCode,WIG_VPN|string") ].

Definition createMessages : list (string * string) :=
  [ ("required", "{{field}} field is missing.");
    ("string", "{{field}} must be a string.");
    ("integer", "{{field}} must be an integer.");
    ("is_money", "{{field}} contains invalid amount.");
    ("object", "{{field}} must be an object.");
    ("required_when", "{{field}} field is missing.");
    ("paymentCode.in",
     "{{field}} must be of value ABA, ACD, PNG, WIG, or WIG_VPN.") ].

Definition completeRules : list (string * string) :=
  [ ("UID", "required|string");
    ("totalAmount", "required|string|is_money");
    ("totalQuantity", "required|integer");
    ("txid", "required");
    ("securityCode", "required") ].

Definition completeMessages : list (string * string) :=
  [ ("required", "{{field}} field is missing.");
    ("string", "{{field}} must be a string.");
    ("integer", "{{field}} must be an integer.");
    ("is_money", "{{field}} contains invalid amount.") ].

(** [indicative.validate(options, rules, messages).catch(errors => { throw
    new E(errors[0].message) })] *)
Definition validate_or_throw (E : string -> JsError) (options : JsVal)
    (rules messages : list (string * string)) : M unit :=
  match validate registry options messages rules with
  | Valid => ret tt
  | Invalid errors =>
      match errors with
      | e :: _ => throw (E (message e))
      | [] => throw TypeErr
      end
  | UnknownRule _ => throw TypeErr
  end.

Definition validateCreateTransaction (options : JsVal) : M unit :=
  if negb (typeof options =? "object") then
    throw (CreateTransactionError "Invalid argument type.")
  else validate_or_throw CreateTransactionError options createRules
         createMessages.

Definition validateCompleteTransaction (options : JsVal) : M unit :=
  if negb (typeof options =? "object") then
    throw (CompleteTransactionError "Invalid argument type.")
  else validate_or_throw CompleteTransactionError options completeRules
         completeMessages.

Definition createTransaction (options : JsVal) : M JsVal :=
  authenticate ;;;
  c <- this ;;
  if negb (truthy (accessToken c)) then
    throw (CreateTransactionError
             "Missing authentication. Did you call authenticate first?")
  else
  validateCreateTransaction options ;;;
  try_catch
    ((* required *)
     order_id <- prop options "UID" ;;
     totalAmount <- prop options "totalAmount" ;;
     let total_amt := VStr (ToString totalAmount) in
     total_qty <- prop options "totalQuantity" ;;
     let orderName := VStr ("Order #" ++ ToString order_id ++ ".") in
     payment_code <- prop options "paymentCode" ;;
     paymentOptions <- prop options "paymentOptions" ;;
     account <- prop paymentOptions "account" ;;
     account_type <- prop paymentOptions "accountType" ;;
     point_id <- prop paymentOptions "paygoId" ;;
     wing_account <- prop paymentOptions "wingAccount" ;;
     wing_security_code <- prop paymentOptions "wingSecurityCode" ;;
     let payment_options :=
       VObj [("account", account); ("account_type", account_type);
             ("point_id", point_id); ("wing_account", wing_account);
             ("wing_security_code", wing_security_code)] in
     (* optional *)
     description <- prop options "description" ;;
     let description := js_or description orderName in
     ip <- prop options "ip" ;;
     let ip := js_or ip (VStr "Unknown IP") in
     lat <- prop options "lat" ;;
     let latitude := js_or lat (VStr "Unknown Latitude") in
     lng <- prop options "lng" ;;
     let longitude := js_or lng (VStr "Unknown Longitude") in
     deviceUDID <- prop options "deviceUDID" ;;
     let udid := js_or deviceUDID (VStr "Unknown Device UDID") in
     items <- prop options "items" ;;
     let items :=
       js_or items
         (VArr [VObj [("name", orderName); ("qty", VNum (NInt 1));
                      ("unit_price", totalAmount)]]) in
     makeSignature order_id total_amt total_qty ip ;;;
     c <- this ;;
     post (ToString (apiURL c) ++ "/v1/payments/transactions")
       (VObj [("order_id", order_id);
              ("description", description);
              ("total_amt", total_amt);
              ("total_qty", total_qty);
              ("currency_code", VStr "USD");
              ("signature", signature c);
              ("payment_code", payment_code);
              ("payment_options", payment_options);
              ("items", items);
              ("customer",
               VObj [("ip", ip); ("latitude", latitude);
                     ("longitude", longitude); ("udid", udid)])])
       [("X-Auth", "Bearer " ++ ToString (accessToken c))])
    handleOneEpayError.

Definition completeTransaction (options : JsVal) : M JsVal :=
  authenticate ;;;
  c <- this ;;
  if negb (truthy (accessToken c)) then
    throw (CompleteTransactionError
             "Missing authentication. Did you call authenticate first?")
  else
  validateCompleteTransaction options ;;;
  UID <- prop options "UID" ;;
  totalAmount <- prop options "totalAmount" ;;
  totalQuantity <- prop options "totalQuantity" ;;
  txid <- prop options "txid" ;;
  securityCode <- prop options "securityCode" ;;
  ip <- prop options "ip" ;;
  let ip := js_or ip (VStr "Unknown IP") in
  makeSignature UID totalAmount totalQuantity ip ;;;
  try_catch
    (c <- this ;;
     post (ToString (apiURL c) ++ "/v1/payments/transactions/commit")
       (VObj [("txid", txid);
              ("signature", signature c);
              ("security_code", securityCode);
              ("ip", ip)])
       [("X-Auth", "Bearer " ++ ToString (accessToken c))])
    handleOneEpayError.

End Methods.

End OneEpay.

(** ** The earlier variants of the class *)

(** The class of src/unnamed/part_000: the caller authenticates, by the
    public [authenticate]; [createTransaction] validates and submits.  Its
    [authenticate], [handleOneEpayError], [validateCreateTransaction] and
    [isMoney] are, word for word, the ones of src/index.ts and are taken from
    [OneEpay].  The class has no [signature] field: the field of [Client] is
    neither read nor written here. *)
Module ManualAuth.

Import Js Indicative OneEpay.

(** [constructor(private apiURL, private clientId, private clientSecret) {}] *)
Definition constructor (apiURL clientId clientSecret : JsVal)
    : Outcome Client :=
  Returned {| apiURL := apiURL; clientId := clientId;
              clientSecret := clientSecret;
              accessToken := VUndefined; signature := VUndefined |}.

Section Methods.

Variable net : Network.

Definition authenticate : M unit := OneEpay.authenticate net.

Definition createTransaction (options : JsVal) : M JsVal :=
  validateCreateTransaction options ;;;
  try_catch
    ((* required *)
     order_id <- prop options "UID" ;;
     totalAmount <- prop options "totalAmount" ;;
     let total_amt := VStr (ToString totalAmount) in
     total_qty <- prop options "totalQuantity" ;;
     let orderName := VStr ("Order #" ++ ToString order_id ++ ".") in
     payment_code <- prop options "paymentCode" ;;
     paymentOptions <- prop options "paymentOptions" ;;
     account <- prop paymentOptions "account" ;;
     account_type <- prop paymentOptions "accountType" ;;
     point_id <- prop paymentOptions "paygoId" ;;
     wing_account <- prop paymentOptions "wingAccount" ;;
     wing_security_code <- prop paymentOptions "wingSecurityCode" ;;
     let payment_options :=
       VObj [("account", account); ("account_type", account_type);
             ("point_id", point_id); ("wing_account", wing_account);
             ("wing_security_code", wing_security_code)] in
     (* optional *)
     description <- prop options "description" ;;
     let description := js_or description orderName in
     ip <- prop options "ip" ;;
     let ip := js_or ip (VStr "Unknown IP") in
     lat <- prop options "lat" ;;
     let latitude := js_or lat (VStr "Unknown Latitude") in
     lng <- prop options "lng" ;;
     let longitude := js_or lng (VStr "Unknown Longitude") in
     deviceUDID <- prop options "deviceUDID" ;;
     let udid := js_or deviceUDID (VStr "Unknown Device UDID") in
     items <- prop options "items" ;;
     let items :=
       js_or items
         (VArr [VObj [("name", orderName); ("qty", total_qty);
                      ("unit_price", totalAmount)]]) in
     c <- this ;;
     let data :=
       str_plus (str_plus (str_plus (str_plus (str_plus (ToString order_id)
         total_amt) total_qty) ip) (clientId c)) (clientSecret c) in
     let signature := VStr (Crypto.digest data) in
     post net (ToString (apiURL c) ++ "/v1/payments/transactions")
       (VObj [("order_id", order_id);
              ("description", description);
              ("total_amt", total_amt);
              ("total_qty", total_qty);
              ("currency_code", VStr "USD");
              ("signature", signature);
              ("payment_code", payment_code);
              ("payment_options", payment_options);
              ("items", items);
              ("customer",
               VObj [("ip", ip); ("latitude", latitude);
                     ("longitude", longitude); ("udid", udid)])])
       [("X-Auth", "Bearer " ++ ToString (accessToken c))])
    handleOneEpayError.

(** [async completeTransaction() {}] *)
Definition completeTransaction : M JsVal := ret VUndefined.

End Methods.

End ManualAuth.

(** The second class of src/index.ts, after the first: the gateway address is
    fixed, nothing is validated, and [paymentOptions] is submitted as it was
    given.  Its [authenticate] and [handleOneEpayError] are those of
    [OneEpay], without the logging. *)
Module Draft.

Import Js Indicative OneEpay.

(** [private apiURL = 'https://api-dev.oneepay.com'] and
    [constructor(private clientId, private clientSecret) {}] *)
Definition constructor (clientId clientSecret : JsVal) : Outcome Client :=
  Returned {| apiURL := VStr "https://api-dev.oneepay.com";
              clientId := clientId; clientSecret := clientSecret;
              accessToken := VUndefined; signature := VUndefined |}.

Section Methods.

Variable net : Network.

Definition authenticate : M unit := OneEpay.authenticate net.

Definition createTransaction (options : JsVal) : M JsVal :=
  try_catch
    ((* required *)
     order_id <- prop options "UID" ;;
     totalAmount <- prop options "totalAmount" ;;
     let total_amt := VStr (ToString totalAmount) in
     total_qty <- prop options "totalQuantity" ;;
     let orderName := VStr ("Order #" ++ ToString order_id ++ ".") in
     payment_code <- prop options "paymentCode" ;;
     payment_options <- prop options "paymentOptions" ;;
     (* optional *)
     description <- prop options "description" ;;
     let description := js_or description orderName in
     ip <- prop options "ip" ;;
     let ip := js_or ip (VStr "Unknown IP") in
     lat <- prop options "lat" ;;
     let latitude := js_or lat (VStr "Unknown Latitude") in
     lng <- prop options "lng" ;;
     let longitude := js_or lng (VStr "Unknown Longitude") in
     deviceUDID <- prop options "deviceUDID" ;;
     let udid := js_or deviceUDID (VStr "Unknown Device UDID") in
     items <- prop options "items" ;;
     let items :=
       js_or items
         (VArr [VObj [("name", orderName); ("qty", total_qty);
                      ("unit_price", totalAmount)]]) in
     c <- this ;;
     let data :=
       str_plus (str_plus (str_plus (str_plus (str_plus (ToString order_id)
         total_amt) total_qty) ip) (clientId c)) (clientSecret c) in
     let signature := VStr (Crypto.digest data) in
     post net (ToString (apiURL c) ++ "/v1/payments/transactions")
       (VObj [("order_id", order_id);
              ("description", description);
              ("total_amt", total_amt);
              ("total_qty", total_qty);
              ("currency_code", VStr "USD");
              ("signature", signature);
              ("payment_code", payment_code);
              ("payment_options", payment_options);
              ("items", items);
              ("customer",
               VObj [("ip", ip); ("latitude", latitude);
                     ("longitude", longitude); ("udid", udid)])])
       [("X-Auth", "Bearer " ++ ToString (accessToken c))])
    handleOneEpayError.

(** [async completeTransaction() {}] *)
Definition completeTransaction : M JsVal := ret VUndefined.

End Methods.

End Draft.

(** ** What the specification says, in the terms of the model *)

Import Js Indicative OneEpay.

Fixpoint all_digits (s : string) : bool :=
  match s with
  | EmptyString => true
  | String c s' => is_digit c && all_digits s'
  end.

(** A run of zeros. *)
Fixpoint zeros (n : nat) : string :=
  match n with
  | O => ""
  | S k => String "0" (zeros k)
  end.

(** The character [c] does not occur in [s]. *)
Definition free_of (c : ascii) (s : string) : bool :=
  forallb (fun x => negb (Ascii.eqb x c)) (list_ascii_of_string s).

(** Zero or more digits, a dot, exactly two digits. *)
Definition money_format (s : string) : Prop :=
  exists ds d1 d2,
    s = ds ++ String "." (String d1 (String d2 ""))
    /\ all_digits ds = true /\ is_digit d1 = true /\ is_digit d2 = true.

(** A validation that settles without rejecting: passed or skipped. *)
Definition accepted (r : Settled) : Prop := exists v, r = Resolved v.

(** The rules of a rule set in declaration order: the fields as declared, the
    rules of a field as listed. *)
Definition declared (rules : list (string * string))
    : list (string * ParsedRule) :=
  flat_map (fun fr => map (pair (fst fr)) (parse_rules (snd fr))) rules.

(** One declared rule run on a payload, alone. *)
Definition run_check (data : JsVal) (messages : list (string * string))
    (c : string * ParsedRule) : option Settled :=
  match find_rule (camel_case (rule_name (snd c))) registry with
  | Some (fn, default) =>
      Some (fn data (fst c)
              (make_message messages (fst c) (rule_name (snd c)) default)
              (rule_args (snd c)) get)
  | None => None
  end.

Definition passes (data : JsVal) (messages : list (string * string))
    (c : string * ParsedRule) : Prop :=
  exists v, run_check data messages c = Some (Resolved v).

Definition violates (data : JsVal) (messages : list (string * string))
    (c : string * ParsedRule) : Prop :=
  exists m, run_check data messages c = Some (Rejected m).

(** [c] is the first violated rule of a rule set: the rules declared before
    it pass. *)
Definition first_violated (rules messages : list (string * string))
    (data : JsVal) (c : string * ParsedRule) : Prop :=
  exists pre post,
    declared rules = (pre ++ c :: post)%list
    /\ Forall (passes data messages) pre
    /\ violates data messages c.

(** The declared rules run one after the other up to the first that
    rejects. *)
Fixpoint run_checks (data : JsVal) (messages : list (string * string))
    (cs : list (string * ParsedRule)) : Verdict :=
  match cs with
  | [] => Valid
  | c :: rest =>
      match run_check data messages c with
      | None => UnknownRule (rule_name (snd c))
      | Some (Resolved _) => run_checks data messages rest
      | Some (Rejected m) =>
          Invalid [{| field := fst c; validation := rule_name (snd c);
                      message := m |}]
      end
  end.

(** The text after the field's path in the message of a rule. *)
Definition message_tail (rule : string) : string :=
  if rule =? "required" then " field is missing."
  else if rule =? "required_when" then " field is missing."
  else if rule =? "string" then " must be a string."
  else if rule =? "integer" then " must be an integer."
  else if rule =? "is_money" then " contains invalid amount."
  else if rule =? "object" then " must be an object."
  else if rule =? "in" then " must be of value ABA, ACD, PNG, WIG, or WIG_VPN."
  else "".

(** The message of a violated rule: its template with [{{field}}] replaced by
    the dotted path of the field. *)
Definition violation_message (c : string * ParsedRule) : string :=
  fst c ++ message_tail (rule_name (snd c)).

Definition valid_create (options : JsVal) : Prop :=
  typeof options = "object"
  /\ validate registry options createMessages createRules = Valid.

Definition valid_complete (options : JsVal) : Prop :=
  typeof options = "object"
  /\ validate registry options completeMessages completeRules = Valid.

(** The subfields of [paymentOptions] a payment code requires. *)
Definition required_subfields (code : string) : list string :=
  if code =? "ACD" then ["accountType"; "account"]
  else if code =? "PNG" then ["paygoId"]
  else if code =? "WIG_VPN" then ["wingAccount"; "wingSecurityCode"]
  else [].

(** The authentication request of a client. *)
Definition auth_request (c : Client) : Request :=
  {| url := ToString (apiURL c) ++ "/v1/oauth/access-token";
     body := VObj [("client_id", clientId c);
                   ("permission", VStr "client_credentials")];
     headers :=
       [("authentication",
         Crypto.digest
           (ToString (clientId c) ++ ":" ++ ToString (clientSecret c)))] |}.

(** The gateway answers the authentication request of the state with a
    usable token. *)
Definition grants (net : Network) (st : State) (token : JsVal) : Prop :=
  exists d,
    net (sent st) (auth_request (self st)) = Responded d
    /\ member d "access_token" = Some token
    /\ truthy token = true.

(** The four option fields that enter the signature. *)
Definition signed_fields : list string :=
  ["UID"; "totalAmount"; "totalQuantity"; "ip"].

(** Two options differ in exactly the field [f] of the signed tuple. *)
Definition differ_only_in (f : string) (o1 o2 : JsVal) : Prop :=
  In f signed_fields
  /\ own o1 f <> own o2 f
  /\ forall g, In g signed_fields -> g <> f -> own o1 g = own o2 g.

(** The text a signed field contributes: its string form, an absent or empty
    [ip] counting as the placeholder. *)
Definition signed_text (o : JsVal) (f : string) : string :=
  if f =? "ip" then ToString (js_or (own o f) (VStr "Unknown IP"))
  else ToString (own o f).

Definition differ_only_in_text (f : string) (o1 o2 : JsVal) : Prop :=
  In f signed_fields
  /\ signed_text o1 f <> signed_text o2 f
  /\ forall g, In g signed_fields -> g <> f -> signed_text o1 g = signed_text o2 g.

(** The string [createTransaction] and [completeTransaction] hash. *)
Definition signed_data (c : Client) (o : JsVal) : string :=
  signed_text o "UID" ++ signed_text o "totalAmount"
    ++ signed_text o "totalQuantity" ++ signed_text o "ip"
    ++ ToString (clientId c) ++ ToString (clientSecret c).

(** The signature the client holds after a method has run. *)
Definition signature_after {A : Type} (m : M A) (st : State) : JsVal :=
  signature (self (snd (m st))).

(** Two different texts with the same digest. *)
Definition collision (a b : string) : Prop :=
  a <> b /\ Crypto.digest a = Crypto.digest b.

(** The quantity of the options is a JavaScript number: when it is an
    integer, one that a double holds. *)
Definition exact_quantity (o : JsVal) : Prop :=
  match own o "totalQuantity" with
  | VNum (NInt z) => is_double z = true
  | _ => True
  end.

(** The five words of the SHA-1 state a message ends in, before they are
    laid out as twenty bytes. *)
Definition sha1_state (msg : list Z) : Crypto.H5 :=
  let ws := Crypto.be_words (Crypto.pad msg) in
  fold_left Crypto.compress (Crypto.blocks (List.length ws / 16) ws)
    (0x67452301, 0xEFCDAB89, 0x98BADCFE, 0x10325476, 0xC3D2E1F0)%Z.

(** The state read as one number of 160 bits. *)
Definition state_number (h : Crypto.H5) : Z :=
  let '(h0, h1, h2, h3, h4) := h in
  (h0 + 2 ^ 32 * (h1 + 2 ^ 32 * (h2 + 2 ^ 32 * (h3 + 2 ^ 32 * h4))))%Z.

(** Five words of 32 bits. *)
Definition words32 (h : Crypto.H5) : Prop :=
  let '(h0, h1, h2, h3, h4) := h in
  (0 <= h0 < 2 ^ 32 /\ 0 <= h1 < 2 ^ 32 /\ 0 <= h2 < 2 ^ 32
   /\ 0 <= h3 < 2 ^ 32 /\ 0 <= h4 < 2 ^ 32)%Z.

(** A field of a response body counts as present when it is truthy. *)
Definition has (body : JsVal) (k : string) : bool := truthy (own body k).

(** Neither [null] nor [undefined]. *)
Definition defined (v : JsVal) : bool :=
  match v with
  | VUndefined | VNull => false
  | _ => true
  end.

(** The [errors] of a body is a list whose first entry, if any, is there, or
    it is nothing that could pass for a list: not a non-empty string, not an
    object with a length. *)
Definition errors_shape (errors : JsVal) : bool :=
  match errors with
  | VArr (first :: _) => defined first
  | VStr s => s =? ""
  | VObj _ => negb (truthy (own errors "length"))
  | _ => true
  end.

(** The shape of the body of an error response: any value but [null] and
    [undefined] (an object, a page of text), with such an [errors]. *)
Definition error_body (body : JsVal) : bool :=
  defined body && errors_shape (own body "errors").

(** An error is well formed when the body of its response, if it has one, has
    that shape. *)
Definition well_formed (error : JsError) : Prop :=
  match error with
  | AxiosErr _ (Some body) => error_body body = true
  | _ => True
  end.

(** The error the normalizer is to raise, read off the priority chain of the
    specification. *)
Definition normalized (error : JsError) : JsError :=
  match error with
  | AxiosErr _ (Some body) =>
      match own body "errors" with
      | VArr (first :: _) => new_Error (own first "message")
      | _ =>
          if has body "message" && has body "reason" then
            Err "Error"
              (ToString (own body "message") ++ " "
                 ++ ToString (own body "reason"))
          else if has body "message" then
            Err "Error" (ToString (own body "message"))
          else error
      end
  | _ => error
  end.

(** A parsed rule. *)
Definition rule (name : string) (args : list string) : ParsedRule :=
  {| rule_name := name; rule_args := args |}.

(** Every declared rule is registered, and its message is the field's path
    followed by the text of the rule. *)
Definition well_declared (messages : list (string * string))
    (c : string * ParsedRule) : bool :=
  match find_rule (camel_case (rule_name (snd c))) registry with
  | Some (_, default) =>
      make_message messages (fst c) (rule_name (snd c)) default
      =? violation_message c
  | None => false
  end.

(** A rule settles either way; it rejects with the message it was given. *)
Definition settles_with (fn : Validation) : Prop :=
  forall data fld msg args m,
    fn data fld msg args get = Rejected m -> m = msg.

(** The conditional rules of [createRules], the ones after the first five
    fields. *)
Definition conditional_checks : list (string * ParsedRule) :=
  [ ("paymentOptions.accountType", rule "required_when" ["paymentCode"; "ACD"]);
    ("paymentOptions.account", rule "required_when" ["paymentCode"; "ACD"]);
    ("paymentOptions.paygoId", rule "required_when" ["paymentCode"; "PNG"]);
    ("paymentOptions.wingAccount",
     rule "required_when" ["paymentCode"; "WIG_VPN"]);
    ("paymentOptions.wingAccount", rule "string" []);
    ("paymentOptions.wingSecurityCode",
     rule "required_when" ["paymentCode"; "WIG_VPN"]);
    ("paymentOptions.wingSecurityCode", rule "string" []) ].

(** A constructor argument that is missing or empty. *)
Definition blank (v : JsVal) : Prop :=
  v = VUndefined \/ v = VNull \/ v = VStr "".

(** The client once it has stored a token, and once it has stored a
    signature. *)
Definition with_token (c : Client) (token : JsVal) : Client :=
  {| apiURL := apiURL c; clientId := clientId c;
     clientSecret := clientSecret c;
     accessToken := token; signature := signature c |}.

Definition with_signature (c : Client) (s : JsVal) : Client :=
  {| apiURL := apiURL c; clientId := clientId c;
     clientSecret := clientSecret c;
     accessToken := accessToken c; signature := s |}.

(** The transaction request [createTransaction] submits for the options [o],
    from a client that holds its token and signature. *)
Definition create_request (c : Client) (o : JsVal) : Request :=
  let orderName := VStr ("Order #" ++ ToString (own o "UID") ++ ".") in
  let ip := js_or (own o "ip") (VStr "Unknown IP") in
  {| url := ToString (apiURL c) ++ "/v1/payments/transactions";
     body :=
       VObj [("order_id", own o "UID");
             ("description", js_or (own o "description") orderName);
             ("total_amt", VStr (ToString (own o "totalAmount")));
             ("total_qty", own o "totalQuantity");
             ("currency_code", VStr "USD");
             ("signature", signature c);
             ("payment_code", own o "paymentCode");
             ("payment_options",
              let po := own o "paymentOptions" in
              VObj [("account", own po "account");
                    ("account_type", own po "accountType");
                    ("point_id", own po "paygoId");
                    ("wing_account", own po "wingAccount");
                    ("wing_security_code", own po "wingSecurityCode")]);
             ("items",
              js_or (own o "items")
                (VArr [VObj [("name", orderName); ("qty", VNum (NInt 1));
                             ("unit_price", own o "totalAmount")]]));
             ("customer",
              VObj [("ip", ip);
                    ("latitude",
                     js_or (own o "lat") (VStr "Unknown Latitude"));
                    ("longitude",
                     js_or (own o "lng") (VStr "Unknown Longitude"));
                    ("udid",
                     js_or (own o "deviceUDID")
                       (VStr "Unknown Device UDID"))])];
     headers := [("X-Auth", "Bearer " ++ ToString (accessToken c))] |}.

(** The commit request [completeTransaction] submits. *)
Definition complete_request (c : Client) (o : JsVal) : Request :=
  {| url := ToString (apiURL c) ++ "/v1/payments/transactions/commit";
     body :=
       VObj [("txid", own o "txid");
             ("signature", signature c);
             ("security_code", own o "securityCode");
             ("ip", js_or (own o "ip") (VStr "Unknown IP"))];
     headers := [("X-Auth", "Bearer " ++ ToString (accessToken c))] |}.

(** The client as a transaction request finds it: the granted token stored,
    the signature of the options computed. *)
Definition signing_client (c : Client) (token o : JsVal) : Client :=
  with_signature (with_token c token)
    (VStr (Crypto.digest (signed_data c o))).

(** The state once the authentication request has gone out. *)
Definition after_auth_request (st : State) : State :=
  {| self := self st; sent := sent st ++ [auth_request (self st)] |}.

(** The state once the token of the answer has been stored. *)
Definition authenticated (st : State) (token : JsVal) : State :=
  {| self := with_token (self st) token;
     sent := sent st ++ [auth_request (self st)] |}.

(** ** Sample values *)

(** A client that already holds a token. *)
Definition sample_client : Client :=
  {| apiURL := VStr "https://gateway.test"; clientId := VStr "shop";
     clientSecret := VStr "secret"; accessToken := VStr "cached-token";
     signature := VUndefined |}.

Definition sample_state : State := {| self := sample_client; sent := [] |}.

(** A gateway that grants the token ["fresh-token"] and accepts every
    transaction. *)
Definition sample_net : Network :=
  fun _ r =>
    if url r =? "https://gateway.test/v1/oauth/access-token" then
      Responded (VObj [("access_token", VStr "fresh-token")])
    else Responded (VObj [("state", VStr "PENDING")]).

(** The order of section 8 of the specification. *)
Definition order_X1 : JsVal :=
  VObj [("UID", VStr "X1"); ("totalAmount", VStr "10.00");
        ("totalQuantity", VNum (NInt 2)); ("paymentCode", VStr "ABA");
        ("paymentOptions", VObj [])].

(** A PayGo order for two pieces, with its [paygoId]. *)
Definition order_P1 : JsVal :=
  VObj [("UID", VStr "P1"); ("totalAmount", VStr "10.00");
        ("totalQuantity", VNum (NInt 2)); ("paymentCode", VStr "PNG");
        ("paymentOptions", VObj [("paygoId", VStr "PG-7")])].

(** The same order for three pieces. *)
Definition order_P1_three : JsVal :=
  VObj [("UID", VStr "P1"); ("totalAmount", VStr "10.00");
        ("totalQuantity", VNum (NInt 3)); ("paymentCode", VStr "PNG");
        ("paymentOptions", VObj [("paygoId", VStr "PG-7")])].

(** The same order with a description, which is not signed. *)
Definition order_P1_described : JsVal :=
  VObj [("UID", VStr "P1"); ("totalAmount", VStr "10.00");
        ("totalQuantity", VNum (NInt 2)); ("paymentCode", VStr "PNG");
        ("paymentOptions", VObj [("paygoId", VStr "PG-7")]);
        ("description", VStr "Two coffees")].

(** The same order with the placeholder given as its [ip]. *)
Definition order_P1_ip : JsVal :=
  VObj [("UID", VStr "P1"); ("totalAmount", VStr "10.00");
        ("totalQuantity", VNum (NInt 2)); ("paymentCode", VStr "PNG");
        ("paymentOptions", VObj [("paygoId", VStr "PG-7")]);
        ("ip", VStr "Unknown IP")].

(** An order that violates two rules: the amount and the quantity. *)
Definition order_two_violations : JsVal :=
  VObj [("UID", VStr "X1"); ("totalAmount", VStr "10.0");
        ("totalQuantity", VStr "two"); ("paymentCode", VStr "ABA");
        ("paymentOptions", VObj [])].

(** A PayGo order without its [paygoId]. *)
Definition order_PNG : JsVal :=
  VObj [("UID", VStr "X1"); ("totalAmount", VStr "10.00");
        ("totalQuantity", VNum (NInt 2)); ("paymentCode", VStr "PNG");
        ("paymentOptions", VObj [("account", VStr "A-1")])].

(** The completion of a transaction. *)
Definition completion_P1 : JsVal :=
  VObj [("UID", VStr "P1"); ("totalAmount", VStr "10.00");
        ("totalQuantity", VNum (NInt 2)); ("txid", VStr "42");
        ("securityCode", VStr "0000")].

(** A gateway that answers the token request without a token. *)
Definition tokenless_net : Network := fun _ _ => Responded (VObj []).

(** A gateway that refuses the client. *)
Definition refusing_net : Network :=
  fun _ _ =>
    Failed "Request failed with status code 401"
      (Some (VObj [("message", VStr "Unauthorized");
                   ("reason", VStr "Unknown client")])).

(** A gateway that grants the token and declines every transaction. *)
Definition declining_net : Network :=
  fun _ r =>
    if url r =? "https://gateway.test/v1/oauth/access-token" then
      Responded (VObj [("access_token", VStr "fresh-token")])
    else
      Failed "Request failed with status code 422"
        (Some (VObj [("errors",
                      VArr [VObj [("message", VStr "Insufficient funds")]])])).

(** The PayGo order of a given identifier, amount and quantity. *)
Definition paygo_order (uid amt : string) (qty : Z) : JsVal :=
  VObj [("UID", VStr uid); ("totalAmount", VStr amt);
        ("totalQuantity", VNum (NInt qty)); ("paymentCode", VStr "PNG");
        ("paymentOptions", VObj [("paygoId", VStr "PG-7")])].

(** The PayGo order P1 placed from a given address. *)
Definition paygo_order_from (ip : string) : JsVal :=
  VObj [("UID", VStr "P1"); ("totalAmount", VStr "10.00");
        ("totalQuantity", VNum (NInt 2)); ("paymentCode", VStr "PNG");
        ("paymentOptions", VObj [("paygoId", VStr "PG-7")]);
        ("ip", VStr ip)].

(** The client of the second class of src/index.ts, whose gateway is
    fixed. *)
Definition draft_client (cid csec token : JsVal) : Client :=
  {| apiURL := VStr "https://api-dev.oneepay.com"; clientId := cid;
     clientSecret := csec; accessToken := token; signature := VUndefined |}.

(** ** Strings *)

Lemma append_assoc (s1 s2 s3 : string) : (s1 ++ s2) ++ s3 = s1 ++ (s2 ++ s3).
Proof.
  induction s1 as [|c s1 IH]; simpl; [reflexivity | now rewrite IH].
Qed.

Lemma length_append (s1 s2 : string) :
  String.length (s1 ++ s2) = String.length s1 + String.length s2.
Proof.
  induction s1 as [|c s1 IH]; simpl; [reflexivity | now rewrite IH].
Qed.

Lemma append_inv_head (s a b : string) : s ++ a = s ++ b -> a = b.
Proof.
  induction s as [|c s IH]; simpl; intros H; [exact H | ].
  injection H as H. auto.
Qed.

Lemma append_inv_tail (s a b : string) : a ++ s = b ++ s -> a = b.
Proof.
  revert b. induction a as [|c a IH]; intros [|d b] H; simpl in H.
  - reflexivity.
  - apply (f_equal String.length) in H. simpl in H.
    rewrite length_append in H. lia.
  - apply (f_equal String.length) in H. simpl in H.
    rewrite length_append in H. lia.
  - injection H as Hc H. subst d. f_equal. auto.
Qed.

Lemma append_eq_nil (s1 s2 : string) : s1 ++ s2 = "" -> s1 = "" /\ s2 = "".
Proof.
  destruct s1; simpl; intros H; [auto | discriminate].
Qed.

Lemma to_int_not_nil (z : Z) :
  Z.to_int z <> Decimal.Pos Decimal.Nil /\ Z.to_int z <> Decimal.Neg Decimal.Nil.
Proof.
  destruct z as [|p|p]; simpl; split; try discriminate;
    intros H; injection H as H;
    now apply DecimalPos.Unsigned.to_uint_nonnil in H.
Qed.

Lemma Z_to_string_inj (x y : Z) : Z_to_string x = Z_to_string y -> x = y.
Proof.
  unfold Z_to_string. intros H.
  destruct (to_int_not_nil x) as [Hx1 Hx2].
  destruct (to_int_not_nil y) as [Hy1 Hy2].
  assert (Hs : Some (Z.to_int x) = Some (Z.to_int y)).
  { rewrite <- (NilZero.isi (Z.to_int x)), <- (NilZero.isi (Z.to_int y));
      auto. now rewrite H. }
  injection Hs as Hs. now apply DecimalZ.to_int_inj.
Qed.

(** ** The text of a number *)

(** The text on integers whose text JavaScript documents or prints: powers of
    two and of ten, the neighbours of 2^53, the largest double. *)
Lemma number_to_string_known_answers :
  number_to_string (NInt 2) = "2"
  /\ number_to_string (NInt (-7)) = "-7"
  /\ number_to_string (NInt (2 ^ 53 + 1)) = "9007199254740992"
  /\ number_to_string (NInt (2 ^ 53 + 2)) = "9007199254740994"
  /\ number_to_string (NInt (2 ^ 60)) = "1152921504606847000"
  /\ number_to_string (NInt (2 ^ 64)) = "18446744073709552000"
  /\ number_to_string (NInt 123456789012345680000) = "123456789012345680000"
  /\ number_to_string (NInt (10 ^ 21)) = "1e+21"
  /\ number_to_string (NInt (2 ^ 70)) = "1.1805916207174113e+21"
  /\ number_to_string (NInt (10 ^ 23)) = "1e+23"
  /\ number_to_string (NInt (- 2 ^ 100)) = "-1.2676506002282294e+30"
  /\ number_to_string (NInt ((2 ^ 53 - 1) * 2 ^ 971))
     = "1.7976931348623157e+308"
  /\ number_to_string (NInt (2 ^ 1024)) = "Infinity".
Proof.
  repeat match goal with |- _ /\ _ => split end; vm_compute; reflexivity.
Qed.

Lemma small_positive_text (z : Z) :
  (0 < z <= 2 ^ 53)%Z -> positive_to_string z = Z_to_string z.
Proof.
  intros Hz. unfold positive_to_string, nearest_double.
  assert (H21 : (2 ^ 53 < 10 ^ 21)%Z) by reflexivity.
  assert (H1024 : (2 ^ 53 < 2 ^ 1024)%Z) by reflexivity.
  assert (E1 : (z <=? 2 ^ 53)%Z = true) by (apply Z.leb_le; lia).
  assert (E2 : (2 ^ 1024 <=? z)%Z = false) by (apply Z.leb_gt; lia).
  assert (E3 : (z <? 10 ^ 21)%Z = true) by (apply Z.ltb_lt; lia).
  cbv zeta. rewrite E1, E2, E1, E3. reflexivity.
Qed.

Lemma small_integer_text (z : Z) :
  (Z.abs z <= 2 ^ 53)%Z -> number_to_string (NInt z) = Z_to_string z.
Proof.
  intros Hz. unfold number_to_string.
  destruct (Z.eqb_spec z 0) as [->|Hne]; [reflexivity | ].
  destruct (Z.ltb_spec z 0) as [Hneg|Hpos].
  - rewrite small_positive_text by lia.
    destruct z as [|p|p]; try lia. reflexivity.
  - apply small_positive_text. lia.
Qed.

Lemma uint_digits (d : Decimal.uint) :
  all_digits (NilEmpty.string_of_uint d) = true.
Proof. induction d; simpl; auto. Qed.

Lemma Z_to_string_digits (z : Z) :
  (0 <= z)%Z -> all_digits (Z_to_string z) = true.
Proof.
  intros Hz. unfold Z_to_string.
  destruct z as [|p|p]; try lia; [reflexivity | ].
  cbn [Z.to_int NilZero.string_of_int]. unfold NilZero.string_of_uint.
  destruct (Pos.to_uint p); try reflexivity; apply uint_digits.
Qed.

Lemma strip_zeros_digits (s : string) :
  all_digits s = true -> all_digits (strip_zeros s) = true.
Proof.
  induction s as [|c s IH]; simpl; [reflexivity | ].
  intros H. apply andb_true_iff in H as [Hc Hs]. specialize (IH Hs).
  destruct (strip_zeros s) as [|d t].
  - destruct (Ascii.eqb c "0"); simpl; [reflexivity | now rewrite Hc].
  - simpl in *. now rewrite Hc.
Qed.

Lemma strip_zeros_pad (s : string) :
  exists n, s = strip_zeros s ++ zeros n.
Proof.
  induction s as [|c s [n IH]]; simpl.
  - exists O. reflexivity.
  - destruct (strip_zeros s) as [|d t].
    + destruct (Ascii.eqb_spec c "0") as [->|Hc].
      * exists (S n). simpl in *. now rewrite <- IH.
      * exists n. simpl in *. now rewrite <- IH.
    + exists n. simpl in *. now rewrite <- IH.
Qed.

Lemma zeros_length (n : nat) : String.length (zeros n) = n.
Proof. induction n; simpl; auto. Qed.

Lemma strip_zeros_inj (a b : string) :
  strip_zeros a = strip_zeros b -> String.length a = String.length b -> a = b.
Proof.
  intros Hs Hl.
  destruct (strip_zeros_pad a) as [n Ha], (strip_zeros_pad b) as [m Hb].
  rewrite Ha, Hb in Hl. rewrite !length_append, !zeros_length, Hs in Hl.
  rewrite Ha, Hb, Hs. f_equal. f_equal. lia.
Qed.

Lemma mantissa_inj (a b : string) : mantissa a = mantissa b -> a = b.
Proof.
  destruct a as [|c [|c' a]], b as [|d [|d' b]]; simpl; intros H;
    try reflexivity; try discriminate; try (injection H; congruence).
Qed.

Lemma mantissa_free (s : string) :
  all_digits s = true -> free_of "e" (mantissa s) = true.
Proof.
  assert (Hd : forall t, all_digits t = true -> free_of "e" t = true).
  { induction t as [|c t IH]; simpl; [reflexivity | ].
    intros H. apply andb_true_iff in H as [Hc Ht].
    unfold free_of in *. simpl. rewrite (IH Ht), andb_true_r.
    destruct (Ascii.eqb_spec c "e") as [->|]; [discriminate | reflexivity]. }
  destruct s as [|c [|c' s]]; intros H; try (now apply Hd).
  simpl in H. apply andb_true_iff in H as [Hc Hs].
  unfold mantissa, free_of. simpl.
  change (forallb (fun x => negb (Ascii.eqb x "e")) (list_ascii_of_string s))
    with (free_of "e" s).
  apply andb_true_iff in Hs as [Hc' Hs]. rewrite (Hd s Hs).
  destruct (Ascii.eqb_spec c "e") as [->|]; [discriminate | ].
  destruct (Ascii.eqb_spec c' "e") as [->|]; [discriminate | reflexivity].
Qed.

Lemma split_at_first (c : ascii) (a1 a2 b1 b2 : string) :
  free_of c a1 = true -> free_of c a2 = true ->
  a1 ++ String c b1 = a2 ++ String c b2 -> a1 = a2 /\ b1 = b2.
Proof.
  revert a2. induction a1 as [|x a1 IH]; intros [|y a2] H1 H2 E; simpl in E.
  - injection E as E. auto.
  - injection E as Ec E. subst y. unfold free_of in H2. simpl in H2.
    rewrite Ascii.eqb_refl in H2. discriminate.
  - injection E as Ec E. subst x. unfold free_of in H1. simpl in H1.
    rewrite Ascii.eqb_refl in H1. discriminate.
  - injection E as Ec E. subst y.
    unfold free_of in H1, H2. simpl in H1, H2.
    apply andb_true_iff in H1 as [_ H1], H2 as [_ H2].
    destruct (IH a2 H1 H2 E) as [-> ->]. auto.
Qed.

Lemma digits_no_exponent (a b s : string) :
  all_digits s = true -> s <> a ++ String "e" b.
Proof.
  revert s. induction a as [|x a IH]; intros [|c s] H E; simpl in E;
    try discriminate.
  - injection E as -> _. discriminate.
  - injection E as _ E. simpl in H. apply andb_true_iff in H as [_ H].
    exact (IH s H E).
Qed.

Lemma exponent_form_inj (c1 c2 : Z) :
  (0 <= c1)%Z -> (0 <= c2)%Z ->
  exponent_form c1 = exponent_form c2 -> c1 = c2.
Proof.
  intros H1 H2 E. unfold exponent_form in E. cbv zeta in E.
  apply split_at_first in E;
    try (apply mantissa_free, strip_zeros_digits, Z_to_string_digits;
         assumption).
  destruct E as [Em Ee]. apply mantissa_inj in Em.
  injection Ee as Ee. apply Z_to_string_inj in Ee.
  apply Z_to_string_inj. apply strip_zeros_inj; [exact Em | lia].
Qed.

Lemma written_inj (c1 c2 : Z) :
  (0 <= c1)%Z -> (0 <= c2)%Z ->
  (if (c1 <? 10 ^ 21)%Z then Z_to_string c1 else exponent_form c1)
  = (if (c2 <? 10 ^ 21)%Z then Z_to_string c2 else exponent_form c2) ->
  c1 = c2.
Proof.
  intros H1 H2 E.
  destruct (c1 <? 10 ^ 21)%Z, (c2 <? 10 ^ 21)%Z.
  - now apply Z_to_string_inj.
  - exfalso. unfold exponent_form in E. cbv zeta in E.
    eapply digits_no_exponent; [ | exact E]. now apply Z_to_string_digits.
  - exfalso. unfold exponent_form in E. cbv zeta in E. symmetry in E.
    eapply digits_no_exponent; [ | exact E]. now apply Z_to_string_digits.
  - now apply exponent_form_inj.
Qed.

(** The decimal chosen for a double reads back as that double. *)
Lemma shortest_decimal_reads_back (fuel : nat) (x : Z) :
  (0 < x)%Z -> nearest_double x = x ->
  (0 < shortest_decimal fuel x)%Z
  /\ nearest_double (shortest_decimal fuel x) = x.
Proof.
  intros Hx Hr. induction fuel as [|fuel IH]; [simpl; auto | ].
  cbn [shortest_decimal]. cbv zeta.
  set (p := (10 ^ Z.of_nat (S fuel))%Z).
  set (below := (x / p * p)%Z).
  set (above := (below + p)%Z).
  destruct ((0 <? below)%Z && (nearest_double below =? x)%Z) eqn:Eb;
    destruct ((0 <? above)%Z && (nearest_double above =? x)%Z) eqn:Ea;
    cbn [andb];
    try apply andb_true_iff in Eb as [Eb1 Eb2];
    try apply andb_true_iff in Ea as [Ea1 Ea2];
    try apply Z.ltb_lt in Eb1; try apply Z.ltb_lt in Ea1;
    try apply Z.eqb_eq in Eb2; try apply Z.eqb_eq in Ea2;
    repeat match goal with |- context [if ?b then _ else _] => destruct b end;
    auto.
Qed.

Lemma positive_text_shape (z : Z) :
  (0 < z)%Z -> nearest_double z = z -> (z < 2 ^ 1024)%Z ->
  exists c, (0 < c)%Z /\ nearest_double c = z
            /\ positive_to_string z
               = if (c <? 10 ^ 21)%Z then Z_to_string c else exponent_form c.
Proof.
  intros Hz Hr Hf. unfold positive_to_string. cbv zeta. rewrite Hr.
  replace (2 ^ 1024 <=? z)%Z with false by (symmetry; apply Z.leb_gt; lia).
  destruct (z <=? 2 ^ 53)%Z.
  - exists z. auto.
  - destruct (shortest_decimal_reads_back
                (String.length (Z_to_string z)) z Hz Hr) as [Hc1 Hc2].
    eexists. split; [exact Hc1 | split; [exact Hc2 | reflexivity]].
Qed.

Lemma written_unsigned (c : Z) (t : string) :
  (0 <= c)%Z ->
  (if (c <? 10 ^ 21)%Z then Z_to_string c else exponent_form c)
  <> String "-" t.
Proof.
  intros Hc E. pose proof (Z_to_string_digits c Hc) as Hd.
  destruct (c <? 10 ^ 21)%Z.
  - rewrite E in Hd. discriminate.
  - unfold exponent_form in E. cbv zeta in E.
    apply strip_zeros_digits in Hd.
    destruct (strip_zeros (Z_to_string c)) as [|d [|d' m]];
      simpl in E, Hd; try discriminate;
      injection E as -> _; discriminate.
Qed.

Lemma written_nonzero (c : Z) :
  (0 < c)%Z ->
  (if (c <? 10 ^ 21)%Z then Z_to_string c else exponent_form c) <> "0".
Proof.
  intros Hc E. destruct (c <? 10 ^ 21)%Z.
  - change "0" with (Z_to_string 0) in E. apply Z_to_string_inj in E. lia.
  - unfold exponent_form in E. cbv zeta in E. symmetry in E.
    now apply digits_no_exponent in E.
Qed.

Lemma positive_to_string_inj (x y : Z) :
  (0 < x)%Z -> (0 < y)%Z -> is_double x = true -> is_double y = true ->
  positive_to_string x = positive_to_string y -> x = y.
Proof.
  unfold is_double. intros Hx Hy Dx Dy E.
  apply andb_true_iff in Dx as [Dx Fx], Dy as [Dy Fy].
  apply Z.eqb_eq in Dx, Dy. apply Z.ltb_lt in Fx, Fy.
  rewrite Z.abs_eq in Dx, Dy, Fx, Fy by lia.
  destruct (positive_text_shape x Hx Dx Fx) as (c & Hc & Hcx & Ex).
  destruct (positive_text_shape y Hy Dy Fy) as (d & Hd & Hdy & Ey).
  rewrite Ex, Ey in E. apply written_inj in E; try lia. congruence.
Qed.

(** Two integers that doubles hold print alike only if they are equal. *)
Lemma number_to_string_inj (x y : Z) :
  is_double x = true -> is_double y = true ->
  number_to_string (NInt x) = number_to_string (NInt y) -> x = y.
Proof.
  intros Dx Dy E. unfold number_to_string in E.
  assert (Hshape : forall z, (0 < z)%Z -> is_double z = true ->
            exists c, (0 < c)%Z
              /\ positive_to_string z
                 = if (c <? 10 ^ 21)%Z then Z_to_string c
                   else exponent_form c).
  { intros z Hz Dz. unfold is_double in Dz.
    apply andb_true_iff in Dz as [Dz Fz].
    apply Z.eqb_eq in Dz. apply Z.ltb_lt in Fz.
    rewrite Z.abs_eq in Dz, Fz by lia.
    destruct (positive_text_shape z Hz Dz Fz) as (c & Hc & _ & Ec).
    eauto. }
  assert (Hopp : forall z, is_double (- z) = is_double z).
  { intros z. unfold is_double. now rewrite Z.abs_opp. }
  destruct (Z.eqb_spec x 0) as [->|Hx0], (Z.eqb_spec y 0) as [->|Hy0];
    try reflexivity.
  - exfalso. destruct (Z.ltb_spec y 0) as [Hy|Hy]; [discriminate | ].
    destruct (Hshape y ltac:(lia) Dy) as (c & Hc & Ec).
    rewrite Ec in E. symmetry in E. now apply written_nonzero in E.
  - exfalso. destruct (Z.ltb_spec x 0) as [Hx|Hx]; [discriminate | ].
    destruct (Hshape x ltac:(lia) Dx) as (c & Hc & Ec).
    rewrite Ec in E. now apply written_nonzero in E.
  - destruct (Z.ltb_spec x 0) as [Hx|Hx], (Z.ltb_spec y 0) as [Hy|Hy].
    + injection E as E.
      apply positive_to_string_inj in E; try lia; now rewrite Hopp.
    + exfalso. destruct (Hshape y ltac:(lia) Dy) as (c & Hc & Ec).
      rewrite Ec in E. symmetry in E.
      apply written_unsigned in E; [exact E | lia].
    + exfalso. destruct (Hshape x ltac:(lia) Dx) as (c & Hc & Ec).
      rewrite Ec in E. apply written_unsigned in E; [exact E | lia].
    + apply positive_to_string_inj in E; auto; lia.
Qed.

(** ** Counting digests *)

Lemma bounded_search (n : Z) (P : Z -> bool) :
  (0 <= n)%Z ->
  (exists i, (0 <= i <= n)%Z /\ P i = true)
  \/ (forall i, (0 <= i <= n)%Z -> P i = false).
Proof.
  intros Hn. revert n Hn. apply (natlike_ind (fun n =>
    (exists i, (0 <= i <= n)%Z /\ P i = true)
    \/ (forall i, (0 <= i <= n)%Z -> P i = false))).
  - destruct (P 0%Z) eqn:E.
    + left. exists 0%Z. split; [lia | exact E].
    + right. intros i Hi. replace i with 0%Z by lia. exact E.
  - intros n Hn [(i & Hi & HP)|Hnone].
    + left. exists i. split; [lia | exact HP].
    + destruct (P (Z.succ n)) eqn:E.
      * left. exists (Z.succ n). split; [lia | exact E].
      * right. intros i Hi.
        destruct (Z.eq_dec i (Z.succ n)) as [->|Hne]; [exact E | ].
        apply Hnone. lia.
Qed.

(** More pigeons than holes: [n + 1] numbers below [n] are not all
    different. *)
Lemma pigeonhole (n : Z) :
  (0 <= n)%Z ->
  forall f : Z -> Z,
    (forall i, (0 <= i <= n)%Z -> (0 <= f i < n)%Z) ->
    exists i j, (0 <= i < j)%Z /\ (j <= n)%Z /\ f i = f j.
Proof.
  intros Hn. revert n Hn. apply (natlike_ind (fun n =>
    forall f : Z -> Z,
      (forall i, (0 <= i <= n)%Z -> (0 <= f i < n)%Z) ->
      exists i j, (0 <= i < j)%Z /\ (j <= n)%Z /\ f i = f j)).
  - intros f Hf. specialize (Hf 0%Z). lia.
  - intros n Hn IH f Hf.
    set (v := f (Z.succ n)).
    destruct (bounded_search n (fun i => (f i =? v)%Z) Hn)
      as [(i & Hi & Hv)|Hnone].
    + apply Z.eqb_eq in Hv. exists i, (Z.succ n). repeat split; lia.
    + destruct (IH (fun i => if (f i <? v)%Z then f i else (f i - 1)%Z))
        as (i & j & Hij & Hj & E).
      * intros i Hi. pose proof (Hf i ltac:(lia)) as Hfi.
        pose proof (Hf (Z.succ n) ltac:(lia)) as Hfv. fold v in Hfv.
        pose proof (Hnone i Hi) as Hne. cbv beta in Hne.
        apply Z.eqb_neq in Hne.
        destruct (Z.ltb_spec (f i) v); lia.
      * exists i, j. split; [exact Hij | split; [lia | ]].
        pose proof (Hnone i ltac:(lia)) as Hi. cbv beta in Hi.
        pose proof (Hnone j ltac:(lia)) as Hj'. cbv beta in Hj'.
        apply Z.eqb_neq in Hi, Hj'. cbv beta in E.
        destruct (Z.ltb_spec (f i) v), (Z.ltb_spec (f j) v); lia.
Qed.

Lemma w32_range (x : Z) : (0 <= Crypto.w32 x < 2 ^ 32)%Z.
Proof.
  unfold Crypto.w32. change 0xFFFFFFFF%Z with (Z.ones 32).
  rewrite Z.land_ones by lia. apply Z.mod_pos_bound. reflexivity.
Qed.

Lemma compress_words32 (h : Crypto.H5) (block : list Z) :
  words32 (Crypto.compress h block).
Proof.
  unfold Crypto.compress. destruct h as [[[[h0 h1] h2] h3] h4].
  destruct (fold_left Crypto.round _ _) as [[[[a b] c] d] e].
  unfold words32, Crypto.add32. repeat split; apply w32_range.
Qed.

Lemma sha1_state_words32 (msg : list Z) : words32 (sha1_state msg).
Proof.
  unfold sha1_state. cbv zeta.
  generalize (Crypto.blocks
                (List.length (Crypto.be_words (Crypto.pad msg)) / 16)
                (Crypto.be_words (Crypto.pad msg))).
  intros bs.
  assert (H0 : words32 (0x67452301, 0xEFCDAB89, 0x98BADCFE, 0x10325476,
                        0xC3D2E1F0)%Z).
  { unfold words32. repeat split; (reflexivity || discriminate). }
  revert H0. generalize (0x67452301, 0xEFCDAB89, 0x98BADCFE, 0x10325476,
                         0xC3D2E1F0)%Z.
  induction bs as [|b bs IH]; intros h Hh; simpl; [exact Hh | ].
  apply IH. apply compress_words32.
Qed.

Lemma sha1_of_state (msg : list Z) :
  Crypto.sha1 msg
  = (let '(h0, h1, h2, h3, h4) := sha1_state msg in
     Crypto.be_bytes 4 h0 ++ Crypto.be_bytes 4 h1 ++ Crypto.be_bytes 4 h2
       ++ Crypto.be_bytes 4 h3 ++ Crypto.be_bytes 4 h4)%list.
Proof. reflexivity. Qed.

Lemma state_number_range (h : Crypto.H5) :
  words32 h -> (0 <= state_number h < 2 ^ 160)%Z.
Proof.
  destruct h as [[[[h0 h1] h2] h3] h4]. unfold words32, state_number.
  change (2 ^ 32)%Z with 4294967296%Z.
  change (2 ^ 160)%Z with 1461501637330902918203684832716283019655932542976%Z.
  lia.
Qed.

Lemma state_number_inj (h k : Crypto.H5) :
  words32 h -> words32 k -> state_number h = state_number k -> h = k.
Proof.
  destruct h as [[[[h0 h1] h2] h3] h4], k as [[[[k0 k1] k2] k3] k4].
  unfold words32, state_number. change (2 ^ 32)%Z with 4294967296%Z.
  intros Hh Hk E.
  assert (h0 = k0) by lia. assert (h1 = k1) by lia.
  assert (h2 = k2) by lia. assert (h3 = k3) by lia.
  assert (h4 = k4) by lia. congruence.
Qed.

(** Among 2^160 + 1 texts, two have the same digest. *)
Lemma digest_collides (text : Z -> string) :
  exists i j,
    (0 <= i < j)%Z /\ (j <= 2 ^ 160)%Z
    /\ Crypto.digest (text i) = Crypto.digest (text j).
Proof.
  destruct (pigeonhole (2 ^ 160) ltac:(apply Z.pow_nonneg; lia)
              (fun i => state_number
                          (sha1_state (Crypto.bytes_of_string (text i)))))
    as (i & j & Hij & Hj & E).
  - intros i _. apply state_number_range, sha1_state_words32.
  - exists i, j. split; [exact Hij | split; [exact Hj | ]].
    apply state_number_inj in E; try apply sha1_state_words32.
    unfold Crypto.digest. rewrite !sha1_of_state, E. reflexivity.
Qed.

(** ** The matcher decides the language of a regular expression *)

Lemma lang_nil_nullable (r : Regex.re) (s : string) :
  Regex.lang r s -> s = "" -> Regex.nullable r = true.
Proof.
  induction 1; intros E; simpl; auto; try discriminate.
  - apply append_eq_nil in E as [E1 E2].
    now rewrite IHlang1, IHlang2.
  - now rewrite IHlang.
  - rewrite IHlang by assumption. apply orb_true_r.
Qed.

Lemma nullable_lang_nil (r : Regex.re) :
  Regex.nullable r = true -> Regex.lang r "".
Proof.
  induction r; simpl; intros H; try discriminate.
  - constructor.
  - apply andb_true_iff in H as [H1 H2].
    change "" with ("" ++ ""). constructor; auto.
  - apply orb_true_iff in H as [H|H];
      [apply Regex.lang_alt_l | apply Regex.lang_alt_r]; auto.
  - constructor.
Qed.

Lemma deriv_sound (c : ascii) (r : Regex.re) :
  forall s, Regex.lang (Regex.deriv c r) s -> Regex.lang r (String c s).
Proof.
  induction r; simpl; intros s H.
  - inversion H.
  - inversion H.
  - destruct (p c) eqn:Hp; inversion H; subst. now constructor.
  - destruct (Regex.nullable r1) eqn:Hn.
    + inversion H as [| | | ? ? ? HL | ? ? ? HR | |]; subst.
      * inversion HL; subst.
        change (String c (s1 ++ s2)) with (String c s1 ++ s2).
        constructor; auto.
      * change (String c s) with ("" ++ String c s).
        constructor; auto using nullable_lang_nil.
    + inversion H; subst.
      change (String c (s1 ++ s2)) with (String c s1 ++ s2).
      constructor; auto.
  - inversion H; subst;
      [apply Regex.lang_alt_l | apply Regex.lang_alt_r]; auto.
  - inversion H; subst.
    change (String c (s1 ++ s2)) with (String c s1 ++ s2).
    constructor; auto.
Qed.

Lemma deriv_complete (r : Regex.re) (s' : string) :
  Regex.lang r s' ->
  forall c s, s' = String c s -> Regex.lang (Regex.deriv c r) s.
Proof.
  induction 1; intros a t E; simpl; try discriminate.
  - injection E as -> <-. rewrite H. constructor.
  - destruct s1 as [|b s1]; simpl in E.
    + subst s2. rewrite (lang_nil_nullable _ _ H eq_refl).
      apply Regex.lang_alt_r. now apply IHlang2.
    + injection E as -> <-.
      assert (HS : Regex.lang (Regex.Seq (Regex.deriv a r1) r2) (s1 ++ s2))
        by (constructor; auto).
      destruct (Regex.nullable r1); [now apply Regex.lang_alt_l | exact HS].
  - apply Regex.lang_alt_l. now apply IHlang.
  - apply Regex.lang_alt_r. now apply IHlang.
  - destruct s1 as [|b s1]; simpl in E.
    + subst s2. now apply IHlang2.
    + injection E as -> <-. constructor; auto.
Qed.

Lemma test_lang (s : string) :
  forall r, Regex.test r s = true <-> Regex.lang r s.
Proof.
  induction s as [|c s IH]; intros r; simpl.
  - split; [apply nullable_lang_nil | intros H; now apply lang_nil_nullable with ""].
  - rewrite IH. split; [apply deriv_sound | ].
    intros H. now apply deriv_complete with (String c s).
Qed.

Lemma star_digits_lang (s : string) :
  Regex.lang (Regex.Star (Regex.Class is_digit)) s <-> all_digits s = true.
Proof.
  split.
  - remember (Regex.Star (Regex.Class is_digit)) as r eqn:Er.
    induction 1; try discriminate; [reflexivity | ].
    injection Er as ->. inversion H as [|? c Hc| | | | |]; subst. simpl.
    rewrite Hc. simpl. auto.
  - induction s as [|c s IH]; simpl; intros H; [constructor | ].
    apply andb_true_iff in H as [Hc Hs].
    change (String c s) with (String c "" ++ s).
    constructor; [now constructor | auto].
Qed.

Lemma money_regex_lang (s : string) :
  Regex.lang money_regex s <-> money_format s.
Proof.
  unfold money_regex, money_format. simpl. split.
  - intros H. inversion H as [| |? ? ds rest Hds Hrest| | | |]; subst.
    inversion Hrest as [| |? ? dot cents Hdot Hcents| | | |]; subst.
    inversion Hdot as [|? c Hc| | | | |]; subst.
    inversion Hcents as [| |? ? x1 more H1 Hmore| | | |]; subst.
    inversion H1 as [|? d1 Hd1| | | | |]; subst.
    inversion Hmore as [| |? ? x2 fin H2 Hfin| | | |]; subst.
    inversion H2 as [|? d2 Hd2| | | | |]; subst.
    inversion Hfin; subst.
    apply Ascii.eqb_eq in Hc. subst c.
    exists ds, d1, d2. simpl. repeat split; auto.
    now apply star_digits_lang.
  - intros (ds & d1 & d2 & -> & Hds & H1 & H2).
    constructor; [now apply star_digits_lang | ].
    change (String "." (String d1 (String d2 "")))
      with (String "." "" ++ (String d1 "" ++ (String d2 "" ++ ""))).
    repeat constructor; auto.
Qed.

Lemma money_test (s : string) :
  Regex.test money_regex s = true <-> money_format s.
Proof.
  rewrite test_lang. apply money_regex_lang.
Qed.

(** ** The custom rule [isMoney] *)

Lemma isMoney_string (data : JsVal) (field message : string)
    (args : list string) (s : string) :
  get data field = VStr s ->
  isMoney data field message args get =
    if s =? "" then Resolved ("validation skipped" ++ join_args args)
    else if Regex.test money_regex s then Resolved "validation passed"
    else Rejected message.
Proof.
  intros H. unfold isMoney. rewrite H. simpl.
  now destruct (s =? "").
Qed.

(** C5. On a string value the rule [is_money] passes exactly when the value
    is empty (skipped) or made of zero or more digits, a dot and exactly two
    digits, and rejects with the rule's message otherwise; an absent value
    ([undefined], [null]) is skipped, never rejected.  So "12.34" passes and
    "12.3", "12", "12.345" are rejected. *)
Theorem isMoney_money_format (data : JsVal) (field message : string)
    (args : list string) :
  (forall s, get data field = VStr s ->
     (accepted (isMoney data field message args get)
        <-> s = "" \/ money_format s)
     /\ (~ (s = "" \/ money_format s) ->
         isMoney data field message args get = Rejected message))
  /\ (get data field = VUndefined \/ get data field = VNull
        \/ get data field = VStr "" ->
      isMoney data field message args get
        = Resolved ("validation skipped" ++ join_args args))
  /\ (money_format "12.34" /\ ~ money_format "12.3" /\ ~ money_format "12"
        /\ ~ money_format "12.345" /\ ~ money_format "").
Proof.
  split; [ | split].
  - intros s Hs. rewrite (isMoney_string _ _ _ _ _ Hs).
    destruct (String.eqb_spec s "") as [->|Hne].
    + split; [ | intros H; exfalso; apply H; now left].
      split; [now left | intros _; eexists; reflexivity].
    + destruct (Regex.test money_regex s) eqn:Ht.
      * apply money_test in Ht.
        split; [ | intros H; exfalso; apply H; now right].
        split; [now right | intros _; eexists; reflexivity].
      * split; [ | reflexivity].
        split.
        -- intros [v Hv]. discriminate.
        -- intros [E|Hm]; [contradiction | ].
           apply money_test in Hm. congruence.
  - unfold isMoney. intros [H|[H|H]]; rewrite H; reflexivity.
  - repeat split; try (apply money_test; reflexivity);
      intros H; apply money_test in H; discriminate.
Qed.

Lemma isMoney_money_format_witness :
  accepted (isMoney (VObj [("totalAmount", VStr "12.34")]) "totalAmount"
              "totalAmount contains invalid amount." [] get)
  /\ isMoney (VObj [("totalAmount", VStr "12.345")]) "totalAmount"
       "totalAmount contains invalid amount." [] get
     = Rejected "totalAmount contains invalid amount."
  /\ isMoney (VObj []) "totalAmount" "totalAmount contains invalid amount."
       [] get
     = Resolved "validation skipped".
Proof.
  split; [ | split].
  - apply (proj1 (proj1 (isMoney_money_format
             (VObj [("totalAmount", VStr "12.34")]) "totalAmount"
             "totalAmount contains invalid amount." []) "12.34" eq_refl)).
    right. apply money_test. reflexivity.
  - apply (proj2 (proj1 (isMoney_money_format
             (VObj [("totalAmount", VStr "12.345")]) "totalAmount"
             "totalAmount contains invalid amount." []) "12.345" eq_refl)).
    intros [H|H]; [discriminate | ].
    apply money_test in H. discriminate.
  - apply (proj1 (proj2 (isMoney_money_format (VObj []) "totalAmount"
             "totalAmount contains invalid amount." []))).
    left. reflexivity.
Defined.

(** ** The rule engine stops at the first rejected rule *)

Lemma run_checks_app (data : JsVal) (messages : list (string * string))
    (cs1 cs2 : list (string * ParsedRule)) :
  run_checks data messages (cs1 ++ cs2)%list =
    match run_checks data messages cs1 with
    | Valid => run_checks data messages cs2
    | v => v
    end.
Proof.
  induction cs1 as [|c cs1 IH]; simpl; [reflexivity | ].
  destruct (run_check data messages c) as [[v|m]|]; auto.
Qed.

Lemma validate_field_flat (data : JsVal) (messages : list (string * string))
    (fld : string) (rules : list ParsedRule) :
  validate_field registry data messages fld rules
  = run_checks data messages (map (pair fld) rules).
Proof.
  induction rules as [|r rules IH]; [reflexivity | ].
  cbn [validate_field map run_checks]. unfold run_check. cbn [fst snd].
  destruct (find_rule (camel_case (rule_name r)) registry) as [[fn d]|];
    [ | reflexivity].
  destruct (fn data fld _ (rule_args r) get); auto.
Qed.

Lemma validate_flat (data : JsVal) (messages rules : list (string * string)) :
  validate registry data messages rules
  = run_checks data messages (declared rules).
Proof.
  induction rules as [|[fld rs] rules IH]; [reflexivity | ].
  unfold declared in *. cbn [validate flat_map fst snd].
  rewrite run_checks_app, validate_field_flat, IH. reflexivity.
Qed.

Lemma run_checks_valid (data : JsVal) (messages : list (string * string))
    (cs : list (string * ParsedRule)) :
  run_checks data messages cs = Valid <-> Forall (passes data messages) cs.
Proof.
  induction cs as [|c cs IH]; simpl.
  - split; auto.
  - split.
    + intros H. destruct (run_check data messages c) as [[v|m]|] eqn:E;
        try discriminate.
      constructor; [exists v; exact E | now apply IH].
    + intros H. inversion H as [|? ? [v Hv] Hcs]; subst.
      rewrite Hv. now apply IH.
Qed.

Lemma run_checks_first_failure (data : JsVal)
    (messages : list (string * string))
    (pre post : list (string * ParsedRule)) (c : string * ParsedRule)
    (m : string) :
  Forall (passes data messages) pre ->
  run_check data messages c = Some (Rejected m) ->
  run_checks data messages (pre ++ c :: post)%list
  = Invalid [{| field := fst c; validation := rule_name (snd c);
                message := m |}].
Proof.
  intros Hpre Hc. rewrite run_checks_app.
  apply run_checks_valid in Hpre. rewrite Hpre. simpl. now rewrite Hc.
Qed.

Lemma declared_createRules :
  declared createRules =
  [ ("UID", rule "required" []); ("UID", rule "string" []);
    ("totalAmount", rule "required" []); ("totalAmount", rule "string" []);
    ("totalAmount", rule "is_money" []);
    ("totalQuantity", rule "required" []);
    ("totalQuantity", rule "integer" []);
    ("paymentCode", rule "required" []);
    ("paymentCode", rule "in" ["ABA"; "ACD"; "PNG"; "WIG"; "WIG_VPN"]);
    ("paymentOptions", rule "required" []);
    ("paymentOptions", rule "object" []);
    ("paymentOptions.accountType", rule "required_when" ["paymentCode"; "ACD"]);
    ("paymentOptions.account", rule "required_when" ["paymentCode"; "ACD"]);
    ("paymentOptions.paygoId", rule "required_when" ["paymentCode"; "PNG"]);
    ("paymentOptions.wingAccount",
     rule "required_when" ["paymentCode"; "WIG_VPN"]);
    ("paymentOptions.wingAccount", rule "string" []);
    ("paymentOptions.wingSecurityCode",
     rule "required_when" ["paymentCode"; "WIG_VPN"]);
    ("paymentOptions.wingSecurityCode", rule "string" []) ].
Proof. reflexivity. Qed.

Lemma declared_completeRules :
  declared completeRules =
  [ ("UID", rule "required" []); ("UID", rule "string" []);
    ("totalAmount", rule "required" []); ("totalAmount", rule "string" []);
    ("totalAmount", rule "is_money" []);
    ("totalQuantity", rule "required" []);
    ("totalQuantity", rule "integer" []);
    ("txid", rule "required" []); ("securityCode", rule "required" []) ].
Proof. reflexivity. Qed.

Lemma create_well_declared :
  forallb (well_declared createMessages) (declared createRules) = true.
Proof. reflexivity. Qed.

Lemma complete_well_declared :
  forallb (well_declared completeMessages) (declared completeRules) = true.
Proof. reflexivity. Qed.

Lemma settle_rejects (ok : bool) (msg m : string) :
  settle ok msg = Rejected m -> m = msg.
Proof. destruct ok; simpl; congruence. Qed.

Lemma registry_settles (name : string) (fn : Validation) (d : string) :
  find_rule name registry = Some (fn, d) -> settles_with fn.
Proof.
  unfold registry, extend, builtins. cbn [find_rule].
  repeat match goal with
         | |- context [if ?n =? name then _ else _] =>
             destruct (n =? name)
         end; intros H; try discriminate; injection H as Hf Hd; subst fn;
    intros data fld msg args m; unfold isMoney, required, skipping,
      requiredWhen;
    repeat match goal with
           | |- context [if ?b then _ else _] => destruct b
           | |- context [match ?l with [] => _ | _ :: _ => _ end] =>
               destruct l
           end; try congruence; apply settle_rejects.
Qed.

Lemma violated_message (data : JsVal) (messages : list (string * string))
    (c : string * ParsedRule) (m : string) :
  well_declared messages c = true ->
  run_check data messages c = Some (Rejected m) ->
  m = violation_message c.
Proof.
  unfold well_declared, run_check.
  destruct (find_rule (camel_case (rule_name (snd c))) registry)
    as [[fn d]|] eqn:E; [ | discriminate].
  intros Hw Hr. apply String.eqb_eq in Hw. rewrite <- Hw.
  injection Hr as Hr. now apply (registry_settles _ _ _ E) in Hr.
Qed.

(** What it takes to pass each of the rules the two rule sets use. *)

Ltac open_check :=
  unfold passes, violates, run_check;
  cbn [fst snd rule rule_name rule_args].

Ltac settle_cases :=
  split; [intros [? ?]; (discriminate || reflexivity || congruence)
         | intros ?; try discriminate; try congruence; eexists; reflexivity].

Lemma passes_required (data : JsVal) (messages : list (string * string))
    (fld : string) :
  passes data messages (fld, rule "required" [])
  <-> existy (get data fld) = true.
Proof.
  open_check.
  change (find_rule (camel_case "required") registry)
    with (Some (required, default_message)).
  unfold required, settle.
  destruct (existy (get data fld)); settle_cases.
Qed.

Lemma passes_skipping (data : JsVal) (messages : list (string * string))
    (fld name : string) (args : list string)
    (check : JsVal -> list string -> bool) (d : string) :
  find_rule (camel_case name) registry = Some (skipping check, d) ->
  passes data messages (fld, rule name args)
  <-> (existy (get data fld) = true -> check (get data fld) args = true).
Proof.
  intros E. open_check. rewrite E. unfold skipping, skippable, settle.
  destruct (existy (get data fld)); simpl.
  - destruct (check (get data fld) args).
    + split; [reflexivity | intros _; eexists; reflexivity].
    + split; [intros [? ?]; discriminate | intros H; now discriminate H].
  - split; [intros _ H; discriminate | intros _; eexists; reflexivity].
Qed.

Lemma passes_string (data : JsVal) (messages : list (string * string))
    (fld : string) :
  passes data messages (fld, rule "string" [])
  <-> (existy (get data fld) = true -> is_string (get data fld) = true).
Proof.
  now apply (passes_skipping data messages fld "string" []
               (fun v _ => is_string v) default_message).
Qed.

Lemma passes_integer (data : JsVal) (messages : list (string * string))
    (fld : string) :
  passes data messages (fld, rule "integer" [])
  <-> (existy (get data fld) = true -> is_integer (get data fld) = true).
Proof.
  now apply (passes_skipping data messages fld "integer" []
               (fun v _ => is_integer v) default_message).
Qed.

Lemma passes_object (data : JsVal) (messages : list (string * string))
    (fld : string) :
  passes data messages (fld, rule "object" [])
  <-> (existy (get data fld) = true -> is_object (get data fld) = true).
Proof.
  now apply (passes_skipping data messages fld "object" []
               (fun v _ => is_object v) default_message).
Qed.

Lemma passes_in (data : JsVal) (messages : list (string * string))
    (fld : string) (args : list string) :
  passes data messages (fld, rule "in" args)
  <-> (existy (get data fld) = true -> in_array (get data fld) args = true).
Proof.
  now apply (passes_skipping data messages fld "in" args in_array
               default_message).
Qed.

Lemma passes_required_when (data : JsVal) (messages : list (string * string))
    (fld withField expected : string) :
  passes data messages (fld, rule "required_when" [withField; expected])
  <-> (equals_text (get data withField) expected = true ->
       existy (get data fld) = true).
Proof.
  open_check.
  change (find_rule (camel_case "required_when") registry)
    with (Some (requiredWhen, default_message)).
  unfold requiredWhen, settle.
  destruct (equals_text (get data withField) expected).
  - destruct (existy (get data fld)).
    + split; [reflexivity | intros _; eexists; reflexivity].
    + split; [intros [? ?]; discriminate | intros H; now discriminate H].
  - split; [intros _ H; discriminate | intros _; eexists; reflexivity].
Qed.

Lemma passes_is_money (data : JsVal) (messages : list (string * string))
    (fld : string) :
  passes data messages (fld, rule "is_money" [])
  <-> (truthy (get data fld) = true ->
       Regex.test money_regex (ToString (get data fld)) = true).
Proof.
  open_check.
  change (find_rule (camel_case "is_money") registry)
    with (Some (isMoney, "The {{field}} field is not valid.")).
  unfold isMoney.
  destruct (truthy (get data fld)); simpl.
  - destruct (Regex.test money_regex (ToString (get data fld))).
    + split; [reflexivity | intros _; eexists; reflexivity].
    + split; [intros [? ?]; discriminate | intros H; now discriminate H].
  - split; [intros _ H; discriminate | intros _; eexists; reflexivity].
Qed.

Lemma violates_required (data : JsVal) (messages : list (string * string))
    (fld : string) :
  violates data messages (fld, rule "required" [])
  <-> existy (get data fld) = false.
Proof.
  open_check.
  change (find_rule (camel_case "required") registry)
    with (Some (required, default_message)).
  unfold required, settle.
  destruct (existy (get data fld)).
  - split; [intros [? ?]; discriminate | discriminate].
  - split; [reflexivity | intros _; eexists; reflexivity].
Qed.

Lemma violates_required_when (data : JsVal)
    (messages : list (string * string)) (fld withField expected : string) :
  violates data messages (fld, rule "required_when" [withField; expected])
  <-> equals_text (get data withField) expected = true
      /\ existy (get data fld) = false.
Proof.
  open_check.
  change (find_rule (camel_case "required_when") registry)
    with (Some (requiredWhen, default_message)).
  unfold requiredWhen, settle.
  destruct (equals_text (get data withField) expected).
  - destruct (existy (get data fld)).
    + split; [intros [? ?]; discriminate | intros [_ ?]; discriminate].
    + split; [auto | intros _; eexists; reflexivity].
  - split; [intros [? ?]; discriminate | intros [? _]; discriminate].
Qed.

(** How the two validators settle, from the verdict of the engine. *)
Lemma validateCreateTransaction_object (options : JsVal) (st : State) :
  typeof options = "object" ->
  validateCreateTransaction options st =
    match run_checks options createMessages (declared createRules) with
    | Valid => (Returned tt, st)
    | Invalid (e :: _) => (Thrown (CreateTransactionError (message e)), st)
    | _ => (Thrown TypeErr, st)
    end.
Proof.
  intros H. unfold validateCreateTransaction, validate_or_throw.
  rewrite H, validate_flat. cbn [String.eqb Ascii.eqb Bool.eqb negb].
  destruct (run_checks options createMessages (declared createRules))
    as [|[|e es]|]; reflexivity.
Qed.

Lemma validateCompleteTransaction_object (options : JsVal) (st : State) :
  typeof options = "object" ->
  validateCompleteTransaction options st =
    match run_checks options completeMessages (declared completeRules) with
    | Valid => (Returned tt, st)
    | Invalid (e :: _) => (Thrown (CompleteTransactionError (message e)), st)
    | _ => (Thrown TypeErr, st)
    end.
Proof.
  intros H. unfold validateCompleteTransaction, validate_or_throw.
  rewrite H, validate_flat. cbn [String.eqb Ascii.eqb Bool.eqb negb].
  destruct (run_checks options completeMessages (declared completeRules))
    as [|[|e es]|]; reflexivity.
Qed.

Lemma typeof_not_object (v : JsVal) :
  typeof v <> "object" -> (typeof v =? "object") = false.
Proof. intros H. now apply String.eqb_neq. Qed.

Lemma first_violation (data : JsVal) (messages rules : list (string * string))
    (pre post : list (string * ParsedRule)) (c : string * ParsedRule) :
  forallb (well_declared messages) (declared rules) = true ->
  declared rules = (pre ++ c :: post)%list ->
  Forall (passes data messages) pre ->
  violates data messages c ->
  run_checks data messages (declared rules)
  = Invalid [{| field := fst c; validation := rule_name (snd c);
                message := violation_message c |}].
Proof.
  intros Hw Hd Hpre [m Hm].
  assert (Hc : well_declared messages c = true).
  { rewrite forallb_forall in Hw. apply Hw. rewrite Hd.
    apply in_or_app. right. now left. }
  rewrite (violated_message _ _ _ _ Hc Hm) in Hm.
  rewrite Hd. now apply run_checks_first_failure.
Qed.

Lemma check_settles (data : JsVal) (messages : list (string * string))
    (c : string * ParsedRule) :
  well_declared messages c = true ->
  passes data messages c \/ violates data messages c.
Proof.
  unfold well_declared, passes, violates, run_check.
  destruct (find_rule (camel_case (rule_name (snd c))) registry)
    as [[fn d]|]; [ | discriminate].
  intros _.
  destruct (fn data (fst c)
              (make_message messages (fst c) (rule_name (snd c)) d)
              (rule_args (snd c)) get) as [v|m]; eauto.
Qed.

Lemma first_violated_exists (data : JsVal)
    (messages : list (string * string)) (cs : list (string * ParsedRule)) :
  forallb (well_declared messages) cs = true ->
  (exists c, In c cs /\ violates data messages c) ->
  exists pre c post,
    cs = (pre ++ c :: post)%list
    /\ Forall (passes data messages) pre /\ violates data messages c.
Proof.
  induction cs as [|a cs IH]; intros Hw (c & Hin & Hv); [destruct Hin | ].
  cbn [forallb] in Hw. apply andb_true_iff in Hw as [Ha Hw].
  destruct (check_settles data messages a Ha) as [Hpass|Hviol].
  - assert (Hrest : exists c, In c cs /\ violates data messages c).
    { destruct Hin as [->|Hin]; [ | eauto].
      destruct Hpass as [v Hp]. destruct Hv as [m Hm]. congruence. }
    destruct (IH Hw Hrest) as (pre & c' & post & -> & Hpre & Hc').
    exists (a :: pre), c', post. repeat split; auto.
  - exists [], a, cs. repeat split; auto.
Qed.

(** C6, as the code has it.  On a payload of type [object] that violates a
    rule there is a first violated rule in declaration order; the engine
    rejects with one error, the error of that rule, and the validator throws
    its message alone: the dotted path of the field followed by the text of
    the rule.  A payload that is not of type [object] never reaches the
    rules: the validator throws "Invalid argument type.". *)
Theorem validation_first_violation (options : JsVal) (st : State) :
  (typeof options = "object" ->
   ((exists c, In c (declared createRules)
               /\ violates options createMessages c) ->
    exists c, first_violated createRules createMessages options c)
   /\ (forall c,
         first_violated createRules createMessages options c ->
         validate registry options createMessages createRules
         = Invalid [{| field := fst c; validation := rule_name (snd c);
                       message := violation_message c |}]
         /\ validateCreateTransaction options st
            = (Thrown (CreateTransactionError (violation_message c)), st))
   /\ ((exists c, In c (declared completeRules)
                  /\ violates options completeMessages c) ->
       exists c, first_violated completeRules completeMessages options c)
   /\ (forall c,
         first_violated completeRules completeMessages options c ->
         validate registry options completeMessages completeRules
         = Invalid [{| field := fst c; validation := rule_name (snd c);
                       message := violation_message c |}]
         /\ validateCompleteTransaction options st
            = (Thrown (CompleteTransactionError (violation_message c)), st)))
  /\ (typeof options <> "object" ->
      validateCreateTransaction options st
      = (Thrown (CreateTransactionError "Invalid argument type."), st)
      /\ validateCompleteTransaction options st
         = (Thrown (CompleteTransactionError "Invalid argument type."), st)).
Proof.
  split.
  - intros Ho. split; [ | split; [ | split]].
    + intros Hex.
      destruct (first_violated_exists _ _ _ create_well_declared Hex)
        as (pre & c & post & Hd & Hpre & Hv).
      exists c, pre, post. auto.
    + intros c (pre & post & Hd & Hpre & Hv).
      pose proof (first_violation _ _ _ _ _ _ create_well_declared
                    Hd Hpre Hv) as H.
      split; [now rewrite validate_flat | ].
      rewrite (validateCreateTransaction_object _ _ Ho), H. reflexivity.
    + intros Hex.
      destruct (first_violated_exists _ _ _ complete_well_declared Hex)
        as (pre & c & post & Hd & Hpre & Hv).
      exists c, pre, post. auto.
    + intros c (pre & post & Hd & Hpre & Hv).
      pose proof (first_violation _ _ _ _ _ _ complete_well_declared
                    Hd Hpre Hv) as H.
      split; [now rewrite validate_flat | ].
      rewrite (validateCompleteTransaction_object _ _ Ho), H. reflexivity.
  - intros Hn. apply typeof_not_object in Hn.
    unfold validateCreateTransaction, validateCompleteTransaction.
    rewrite Hn. split; reflexivity.
Qed.

Lemma validation_first_violation_witness :
  validateCreateTransaction order_two_violations sample_state
  = (Thrown (CreateTransactionError "totalAmount contains invalid amount."),
     sample_state)
  /\ violates order_two_violations createMessages
       ("totalQuantity", rule "integer" []).
Proof.
  split.
  - refine (proj2 (proj1 (proj2 (proj1 (validation_first_violation
                                          order_two_violations sample_state)
                                   eq_refl))
                     ("totalAmount", rule "is_money" []) _)).
    exists (firstn 4 (declared createRules)),
           (skipn 5 (declared createRules)).
    split; [reflexivity | split].
    + repeat constructor; eexists; reflexivity.
    + eexists; reflexivity.
  - eexists; reflexivity.
Defined.

(** C6, as stated, fails on a payload that is not an object: the string "x"
    violates the first declared rule ([UID] is required), and the validator
    throws "Invalid argument type." instead of that rule's message. *)
Lemma validation_non_object_counterexample :
  first_violated createRules createMessages (VStr "x")
    ("UID", rule "required" [])
  /\ violation_message ("UID", rule "required" []) = "UID field is missing."
  /\ validateCreateTransaction (VStr "x") sample_state
     = (Thrown (CreateTransactionError "Invalid argument type."), sample_state)
  /\ validateCreateTransaction (VStr "x") sample_state
     <> (Thrown (CreateTransactionError
                   (violation_message ("UID", rule "required" []))),
         sample_state).
Proof.
  split.
  - exists [], (tl (declared createRules)).
    split; [reflexivity | split; [constructor | eexists; reflexivity]].
  - split; [reflexivity | ]. split; [reflexivity | ].
    intros H. discriminate H.
Qed.

(** ** The conditional rules of [paymentOptions] *)

Lemma forall_in_cons {A : Type} (P : A -> Prop) (a : A) (l : list A) :
  (forall x, In x (a :: l) -> P x) <-> P a /\ (forall x, In x l -> P x).
Proof.
  split.
  - intros H. split; [apply H; now left | intros x Hx; apply H; now right].
  - intros [Ha Hl] x [<-|Hx]; auto.
Qed.

Lemma forall_in_nil {A : Type} (P : A -> Prop) :
  (forall x, In x (@nil A) -> P x) <-> True.
Proof. split; [auto | intros _ x []]. Qed.

Lemma declared_create_split :
  declared createRules
  = (declared (firstn 5 createRules) ++ conditional_checks)%list.
Proof. reflexivity. Qed.

Lemma conditional_rules_pass (options : JsVal) (code : string) :
  get options "paymentCode" = VStr code ->
  Forall (passes options createMessages) conditional_checks
  <-> (forall f, In f (required_subfields code) ->
         existy (get options ("paymentOptions." ++ f)) = true)
      /\ (forall f, In f ["wingAccount"; "wingSecurityCode"] ->
            existy (get options ("paymentOptions." ++ f)) = true ->
            is_string (get options ("paymentOptions." ++ f)) = true).
Proof.
  intros Hc. unfold conditional_checks.
  repeat rewrite Forall_cons_iff.
  repeat rewrite passes_required_when. repeat rewrite passes_string.
  rewrite Hc. cbn [equals_text].
  unfold required_subfields.
  destruct (String.eqb_spec code "ACD") as [->|H1];
  [ | destruct (String.eqb_spec code "PNG") as [->|H2];
      [ | destruct (String.eqb_spec code "WIG_VPN") as [->|H3] ] ];
  cbn [String.eqb Ascii.eqb Bool.eqb];
  repeat rewrite forall_in_cons; repeat rewrite forall_in_nil;
  cbn [append];
  intuition (try discriminate; auto).
Qed.

Lemma base_rules_pass (options : JsVal) :
  validate registry options createMessages (firstn 5 createRules) = Valid ->
  Forall (passes options createMessages) (declared (firstn 5 createRules)).
Proof.
  rewrite validate_flat. apply run_checks_valid.
Qed.

(** C7.  Once the five unconditional rules pass, the payment code decides
    which subfields of [paymentOptions] are required: [accountType] and
    [account] for ACD, [paygoId] for PNG, [wingAccount] and
    [wingSecurityCode] for WIG_VPN, none for any other code (ABA, WIG); the
    two wing fields have to be strings whenever they are given.  With PNG
    and no [paygoId] the validator throws "paymentOptions.paygoId field is
    missing."; with ABA and empty [paymentOptions] it passes. *)
Theorem payment_options_by_code (options : JsVal) (code : string)
    (st : State) :
  typeof options = "object" ->
  validate registry options createMessages (firstn 5 createRules) = Valid ->
  get options "paymentCode" = VStr code ->
  (validateCreateTransaction options st = (Returned tt, st)
   <-> (forall f, In f (required_subfields code) ->
          existy (get options ("paymentOptions." ++ f)) = true)
       /\ (forall f, In f ["wingAccount"; "wingSecurityCode"] ->
             existy (get options ("paymentOptions." ++ f)) = true ->
             is_string (get options ("paymentOptions." ++ f)) = true))
  /\ (code = "PNG" ->
      existy (get options "paymentOptions.paygoId") = false ->
      validateCreateTransaction options st
      = (Thrown (CreateTransactionError
                   "paymentOptions.paygoId field is missing."), st))
  /\ (code = "ABA" ->
      get options "paymentOptions" = VObj [] ->
      validateCreateTransaction options st = (Returned tt, st)).
Proof.
  intros Ho Hbase Hc. apply base_rules_pass in Hbase.
  assert (Hiff : validateCreateTransaction options st = (Returned tt, st)
                 <-> Forall (passes options createMessages)
                       conditional_checks).
  { rewrite (validateCreateTransaction_object _ _ Ho).
    rewrite declared_create_split, run_checks_app.
    apply run_checks_valid in Hbase. rewrite Hbase.
    rewrite <- run_checks_valid.
    destruct (run_checks options createMessages conditional_checks)
      as [|[|e es]|]; split; intros H; try reflexivity; discriminate. }
  split; [ | split].
  - rewrite Hiff. now apply conditional_rules_pass.
  - intros -> Hmissing.
    rewrite (validateCreateTransaction_object _ _ Ho).
    rewrite (first_violation options createMessages createRules
               (declared (firstn 5 createRules)
                  ++ firstn 2 conditional_checks)%list
               (skipn 3 conditional_checks)
               ("paymentOptions.paygoId",
                rule "required_when" ["paymentCode"; "PNG"])
               create_well_declared).
    + reflexivity.
    + reflexivity.
    + apply Forall_app. split; [exact Hbase | ].
      repeat constructor; apply passes_required_when; rewrite Hc;
        intros H; discriminate H.
    + apply violates_required_when. rewrite Hc. split; [reflexivity | auto].
  - intros -> Hpo. apply Hiff. apply (conditional_rules_pass _ _ Hc).
    split.
    + intros f [].
    + intros f Hf.
      assert (Hg : get options "paymentOptions.wingAccount" = VUndefined
                   /\ get options "paymentOptions.wingSecurityCode"
                      = VUndefined).
      { unfold get in *. cbn [split_on Ascii.eqb Bool.eqb] in *.
        cbn [get_path] in *.
        destruct (member options "paymentOptions") as [po|];
          [ | split; reflexivity].
        subst po. split; reflexivity. }
      destruct Hg as [Hg1 Hg2].
      destruct Hf as [<-|[<-|[]]]; cbn [append];
        [rewrite Hg1 | rewrite Hg2]; intros H; discriminate H.
Qed.

Lemma payment_options_by_code_witness :
  validateCreateTransaction order_PNG sample_state
  = (Thrown (CreateTransactionError
               "paymentOptions.paygoId field is missing."), sample_state)
  /\ validateCreateTransaction order_X1 sample_state
     = (Returned tt, sample_state).
Proof.
  split.
  - apply (proj1 (proj2 (payment_options_by_code order_PNG "PNG" sample_state
                           eq_refl eq_refl eq_refl)) eq_refl eq_refl).
  - apply (proj2 (proj2 (payment_options_by_code order_X1 "ABA" sample_state
                           eq_refl eq_refl eq_refl)) eq_refl eq_refl).
Defined.

(** ** The error normalizer *)

Lemma handleOneEpayError_throws {A : Type} (error : JsError) (st : State) :
  exists e, @handleOneEpayError A error st = (Thrown e, st).
Proof.
  destruct error as [n m|m [body|]|]; try (eexists; reflexivity).
  unfold handleOneEpayError, prop, bind.
  destruct (member body "errors") as [errors|]; [ | eexists; reflexivity].
  destruct (member body "message") as [message|]; [ | eexists; reflexivity].
  destruct (member body "reason") as [reason|]; [ | eexists; reflexivity].
  cbn [ret].
  destruct (truthy errors && truthy (own errors "length")).
  - destruct (member (own errors "0") "message"); eexists; reflexivity.
  - destruct (truthy message && truthy reason); [eexists; reflexivity | ].
    destruct (truthy message); eexists; reflexivity.
Qed.

Lemma new_Error_truthy (m : JsVal) :
  truthy m = true -> new_Error m = Err "Error" (ToString m).
Proof. destruct m; simpl; intros H; try reflexivity; discriminate. Qed.

Lemma member_defined (v : JsVal) (k : string) :
  defined v = true -> member v k = Some (own v k).
Proof. destruct v; intros H; try reflexivity; discriminate. Qed.

(** C8, as the code has it.  An error without a response is thrown again as
    it is.  With a response whose body is neither [null] nor [undefined] and
    whose [errors], if it passes for a non-empty list ([errors &&
    errors.length]), is a list with a first entry that is neither [null] nor
    [undefined], the normalizer throws the error of the priority chain: the
    message of the first entry of a non-empty [errors] list; else
    "<message> <reason>" when the body has both (a field it has is a truthy
    one); else the message when it has one; else the original error.  The
    body [{errors: [{message: "a"}], message: "b", reason: "c"}] is
    normalized to the message "a". *)
Theorem error_normalizer_priority (A : Type) (error : JsError) (st : State) :
  well_formed error ->
  @handleOneEpayError A error st = (Thrown (normalized error), st)
  /\ (forall m, normalized (AxiosErr m None) = AxiosErr m None)
  /\ (forall m,
        normalized
          (AxiosErr m
             (Some (VObj [("errors", VArr [VObj [("message", VStr "a")]]);
                          ("message", VStr "b"); ("reason", VStr "c")])))
        = Err "Error" "a"
        /\ normalized
             (AxiosErr m
                (Some (VObj [("errors", VArr []); ("message", VStr "b");
                             ("reason", VStr "c")])))
           = Err "Error" "b c"
        /\ normalized (AxiosErr m (Some (VObj [("message", VStr "b")])))
           = Err "Error" "b"
        /\ normalized (AxiosErr m (Some (VObj [("reason", VStr "c")])))
           = AxiosErr m (Some (VObj [("reason", VStr "c")]))).
Proof.
  intros Hbody. split; [ | split; [reflexivity | repeat split]].
  destruct error as [n m|m [body|]|]; try reflexivity.
  apply andb_true_iff in Hbody as [Hdef Hshape].
  unfold handleOneEpayError, normalized, has, prop.
  repeat rewrite (member_defined body _ Hdef).
  cbv beta delta [bind ret] iota.
  set (message := own body "message").
  set (reason := own body "reason").
  assert (Hchain :
    (if truthy message && truthy reason
     then throw (new_Error (VStr (ToString message ++ " "
                                    ++ ToString reason)))
     else if truthy message then throw (new_Error message)
          else throw (AxiosErr m (Some body))) st
    = (@Thrown A
         (if truthy message && truthy reason
          then Err "Error" (ToString message ++ " " ++ ToString reason)
          else if truthy message then Err "Error" (ToString message)
               else AxiosErr m (Some body)), st)).
  { destruct (truthy message) eqn:Hm; [ | reflexivity].
    rewrite (new_Error_truthy _ Hm).
    destruct (truthy reason); reflexivity. }
  destruct (own body "errors") as [| |b|n|s|entries|ps];
    try exact Hchain.
  - destruct b; exact Hchain.
  - cbn [own]. rewrite andb_false_r. exact Hchain.
  - cbn [errors_shape] in Hshape. apply String.eqb_eq in Hshape. subst s.
    exact Hchain.
  - destruct entries as [|first rest]; [exact Hchain | ].
    cbn [errors_shape] in Hshape.
    change (own (VArr (first :: rest)) "0") with first.
    rewrite (member_defined first _ Hshape). reflexivity.
  - cbn [errors_shape] in Hshape. apply negb_true_iff in Hshape.
    rewrite Hshape. exact Hchain.
Qed.

Lemma error_normalizer_priority_witness :
  @handleOneEpayError JsVal
    (AxiosErr "Request failed with status code 400"
       (Some (VObj [("errors", VArr [VObj [("message", VStr "a")]]);
                    ("message", VStr "b"); ("reason", VStr "c")])))
    sample_state
  = (Thrown (Err "Error" "a"), sample_state).
Proof.
  apply (proj1 (error_normalizer_priority JsVal
                  (AxiosErr "Request failed with status code 400"
                     (Some (VObj [("errors",
                                   VArr [VObj [("message", VStr "a")]]);
                                  ("message", VStr "b");
                                  ("reason", VStr "c")])))
                  sample_state eq_refl)).
Defined.

(** C8, as stated, fails outside that shape.  A [null] body has neither an
    errors list nor a message, so the chain re-raises the original error; a
    list of errors that starts with [null] has no message to raise: the code
    throws a TypeError for both.  The string "down" and an object with a
    length are no lists, so the chain goes on to the message "b": the code
    takes them for non-empty lists, and throws an empty message for the
    first and a TypeError for the second. *)
Lemma error_normalizer_shape_counterexample :
  (@handleOneEpayError JsVal
     (AxiosErr "Request failed with status code 502" (Some VNull))
     sample_state
   = (Thrown TypeErr, sample_state)
   /\ normalized (AxiosErr "Request failed with status code 502" (Some VNull))
      = AxiosErr "Request failed with status code 502" (Some VNull))
  /\ (@handleOneEpayError JsVal
        (AxiosErr "Request failed with status code 502"
           (Some (VObj [("errors", VArr [VNull])])))
        sample_state
      = (Thrown TypeErr, sample_state)
      /\ normalized
           (AxiosErr "Request failed with status code 502"
              (Some (VObj [("errors", VArr [VNull])])))
         = Err "Error" "")
  /\ (@handleOneEpayError JsVal
        (AxiosErr "Request failed with status code 502"
           (Some (VObj [("errors", VStr "down"); ("message", VStr "b")])))
        sample_state
      = (Thrown (Err "Error" ""), sample_state)
      /\ normalized
           (AxiosErr "Request failed with status code 502"
              (Some (VObj [("errors", VStr "down"); ("message", VStr "b")])))
         = Err "Error" "b")
  /\ (@handleOneEpayError JsVal
        (AxiosErr "Request failed with status code 502"
           (Some (VObj [("errors", VObj [("length", VNum (NInt 1))]);
                        ("message", VStr "b")])))
        sample_state
      = (Thrown TypeErr, sample_state)
      /\ normalized
           (AxiosErr "Request failed with status code 502"
              (Some (VObj [("errors", VObj [("length", VNum (NInt 1))]);
                           ("message", VStr "b")])))
         = Err "Error" "b").
Proof. repeat split. Qed.

(** ** Running the methods *)

Arguments Crypto.digest : simpl never.

Lemma authenticate_run (net : Network) (st : State) :
  authenticate net st =
    match net (sent st) (auth_request (self st)) with
    | Responded d =>
        match member d "access_token" with
        | Some token => (Returned tt, authenticated st token)
        | None => (Thrown TypeErr, after_auth_request st)
        end
    | Failed m resp =>
        @handleOneEpayError unit (AxiosErr m resp) (after_auth_request st)
    end.
Proof.
  unfold authenticate, bind, this, try_catch, post, prop.
  cbn [fst snd self sent].
  change {| url := ToString (apiURL (self st)) ++ "/v1/oauth/access-token";
            body := VObj [("client_id", clientId (self st));
                          ("permission", VStr "client_credentials")];
            headers := [("authentication",
                         Crypto.digest (ToString (clientId (self st)) ++ ":"
                                   ++ ToString (clientSecret (self st))))] |}
    with (auth_request (self st)).
  destruct (net (sent st) (auth_request (self st))) as [d|m resp];
    [ | reflexivity].
  destruct (member d "access_token"); reflexivity.
Qed.

Lemma valid_create_object (o : JsVal) :
  valid_create o ->
  (exists props, o = VObj props)
  /\ (exists po, own o "paymentOptions" = VObj po).
Proof.
  intros [Ho Hv]. rewrite validate_flat in Hv.
  apply run_checks_valid in Hv. rewrite declared_createRules in Hv.
  repeat rewrite Forall_cons_iff in Hv.
  destruct Hv as (H1 & _ & _ & _ & _ & _ & _ & _ & _ & H10 & H11 & _).
  apply passes_required in H1. apply passes_required in H10.
  apply passes_object in H11; [ | exact H10].
  destruct o as [| |b|n|s|l|props]; try discriminate.
  split; [eauto | ].
    change (get (VObj props) "paymentOptions")
      with (own (VObj props) "paymentOptions") in H11.
    destruct (own (VObj props) "paymentOptions"); try discriminate. eauto.
Qed.

Lemma createTransaction_valid (net : Network) (st : State) (o token : JsVal) :
  grants net st token ->
  valid_create o ->
  createTransaction net o st =
    let c := signing_client (self st) token o in
    try_catch
      (post net (url (create_request c o)) (body (create_request c o))
         (headers (create_request c o)))
      handleOneEpayError
      {| self := c; sent := sent st ++ [auth_request (self st)] |}.
Proof.
  intros (d & Hnet & Htok & Htruthy) Hvalid.
  destruct (valid_create_object o Hvalid) as [[props ->] [po Hpo]].
  destruct Hvalid as [Ho Hv].
  unfold createTransaction.
  unfold bind at 1. rewrite authenticate_run, Hnet, Htok.
  unfold bind at 1. unfold this at 1. cbn [authenticated self with_token accessToken].
  rewrite Htruthy. cbn [negb].
  unfold bind at 1.
  unfold validateCreateTransaction, validate_or_throw.
  rewrite Hv. cbn [typeof String.eqb Ascii.eqb Bool.eqb negb ret].
  cbv beta delta [try_catch bind prop this makeSignature set_signature ret
                    member] iota.
  rewrite Hpo.
  cbv beta delta [try_catch bind prop this makeSignature set_signature ret
                    member] iota.
  unfold signing_client, create_request, signed_data, signed_text, str_plus,
    with_signature, with_token, authenticated.
  cbn [String.eqb Ascii.eqb Bool.eqb ToString apiURL clientId clientSecret
       accessToken signature url body headers self sent].
  rewrite Hpo.
  repeat rewrite append_assoc.
  reflexivity.
Qed.

Lemma valid_complete_object (o : JsVal) :
  valid_complete o -> exists props, o = VObj props.
Proof.
  intros [Ho Hv]. rewrite validate_flat in Hv.
  apply run_checks_valid in Hv. rewrite declared_completeRules in Hv.
  repeat rewrite Forall_cons_iff in Hv.
  destruct Hv as (H1 & _).
  apply passes_required in H1.
  destruct o as [| |b|n|s|l|props]; try discriminate. eauto.
Qed.

Lemma completeTransaction_valid (net : Network) (st : State)
    (o token : JsVal) :
  grants net st token ->
  valid_complete o ->
  completeTransaction net o st =
    let c := signing_client (self st) token o in
    try_catch
      (post net (url (complete_request c o)) (body (complete_request c o))
         (headers (complete_request c o)))
      handleOneEpayError
      {| self := c; sent := sent st ++ [auth_request (self st)] |}.
Proof.
  intros (d & Hnet & Htok & Htruthy) Hvalid.
  destruct (valid_complete_object o Hvalid) as [props ->].
  destruct Hvalid as [Ho Hv].
  unfold completeTransaction.
  unfold bind at 1. rewrite authenticate_run, Hnet, Htok.
  unfold bind at 1. unfold this at 1.
  cbn [authenticated self with_token accessToken].
  rewrite Htruthy. cbn [negb].
  unfold bind at 1.
  unfold validateCompleteTransaction, validate_or_throw.
  rewrite Hv. cbn [typeof String.eqb Ascii.eqb Bool.eqb negb ret].
  cbv beta delta [try_catch bind prop this makeSignature set_signature ret
                    member] iota.
  unfold signing_client, complete_request, signed_data, signed_text, str_plus,
    with_signature, with_token, authenticated.
  cbn [String.eqb Ascii.eqb Bool.eqb ToString apiURL clientId clientSecret
       accessToken signature url body headers self sent].
  repeat rewrite append_assoc.
  reflexivity.
Qed.

(** A validator either accepts the options or throws, whatever the state,
    which it leaves as it is. *)
Lemma validateCreateTransaction_cases (o : JsVal) :
  valid_create o
  \/ exists e, forall st, validateCreateTransaction o st = (Thrown e, st).
Proof.
  unfold valid_create, validateCreateTransaction, validate_or_throw.
  destruct (String.eqb_spec (typeof o) "object") as [Ho|Ho];
    [ | right; eexists; intros st; reflexivity].
  destruct (validate registry o createMessages createRules) as [|[|e es]|];
    [left; auto | right .. ]; eexists; intros st; reflexivity.
Qed.

Lemma validateCompleteTransaction_cases (o : JsVal) :
  valid_complete o
  \/ exists e, forall st, validateCompleteTransaction o st = (Thrown e, st).
Proof.
  unfold valid_complete, validateCompleteTransaction, validate_or_throw.
  destruct (String.eqb_spec (typeof o) "object") as [Ho|Ho];
    [ | right; eexists; intros st; reflexivity].
  destruct (validate registry o completeMessages completeRules)
    as [|[|e es]|];
    [left; auto | right .. ]; eexists; intros st; reflexivity.
Qed.

(** The ways a transaction method ends before it reaches the transaction
    request. *)
Lemma createTransaction_invalid (net : Network) (st : State) (o : JsVal)
    (e : JsError) :
  (forall s, validateCreateTransaction o s = (Thrown e, s)) ->
  sent (snd (createTransaction net o st))
  = (sent st ++ [auth_request (self st)])%list
  /\ forall token,
       grants net st token ->
       createTransaction net o st = (Thrown e, authenticated st token).
Proof.
  intros Hv. remember (createTransaction net o st) as run eqn:E.
  unfold createTransaction in E.
  unfold bind at 1 in E. rewrite authenticate_run in E.
  destruct (net (sent st) (auth_request (self st))) as [d|m resp] eqn:Hnet.
  - destruct (member d "access_token") as [tok|] eqn:Htok.
    + unfold bind at 1 in E. unfold this at 1 in E.
      cbn [authenticated self with_token accessToken] in E.
      destruct (truthy tok) eqn:Ht; cbn [negb] in E.
      * unfold bind at 1 in E. rewrite Hv in E. subst run.
        split; [reflexivity | ].
        intros token (d' & Hd & Hm & _).
        rewrite Hnet in Hd. injection Hd as <-.
        rewrite Htok in Hm. injection Hm as <-. reflexivity.
      * subst run. split; [reflexivity | ].
        intros token (d' & Hd & Hm & Htr).
        rewrite Hnet in Hd. injection Hd as <-.
        rewrite Htok in Hm. injection Hm as <-. congruence.
    + subst run. split; [reflexivity | ].
      intros token (d' & Hd & Hm & _).
      rewrite Hnet in Hd. injection Hd as <-. congruence.
  - destruct (@handleOneEpayError_throws unit (AxiosErr m resp)
                (after_auth_request st)) as [e' He'].
    rewrite He' in E. subst run. split; [reflexivity | ].
    intros token (d' & Hd & _). rewrite Hnet in Hd. discriminate.
Qed.

Lemma completeTransaction_invalid (net : Network) (st : State) (o : JsVal)
    (e : JsError) :
  (forall s, validateCompleteTransaction o s = (Thrown e, s)) ->
  sent (snd (completeTransaction net o st))
  = (sent st ++ [auth_request (self st)])%list
  /\ forall token,
       grants net st token ->
       completeTransaction net o st = (Thrown e, authenticated st token).
Proof.
  intros Hv. remember (completeTransaction net o st) as run eqn:E.
  unfold completeTransaction in E.
  unfold bind at 1 in E. rewrite authenticate_run in E.
  destruct (net (sent st) (auth_request (self st))) as [d|m resp] eqn:Hnet.
  - destruct (member d "access_token") as [tok|] eqn:Htok.
    + unfold bind at 1 in E. unfold this at 1 in E.
      cbn [authenticated self with_token accessToken] in E.
      destruct (truthy tok) eqn:Ht; cbn [negb] in E.
      * unfold bind at 1 in E. rewrite Hv in E. subst run.
        split; [reflexivity | ].
        intros token (d' & Hd & Hm & _).
        rewrite Hnet in Hd. injection Hd as <-.
        rewrite Htok in Hm. injection Hm as <-. reflexivity.
      * subst run. split; [reflexivity | ].
        intros token (d' & Hd & Hm & Htr).
        rewrite Hnet in Hd. injection Hd as <-.
        rewrite Htok in Hm. injection Hm as <-. congruence.
    + subst run. split; [reflexivity | ].
      intros token (d' & Hd & Hm & _).
      rewrite Hnet in Hd. injection Hd as <-. congruence.
  - destruct (@handleOneEpayError_throws unit (AxiosErr m resp)
                (after_auth_request st)) as [e' He'].
    rewrite He' in E. subst run. split; [reflexivity | ].
    intros token (d' & Hd & _). rewrite Hnet in Hd. discriminate.
Qed.

Lemma guarded_prefix {A : Type} (net : Network) (E : JsError) (k : M A)
    (st : State) :
  (exists token,
     grants net st token
     /\ bind (authenticate net)
          (fun _ => bind this (fun c =>
             if negb (truthy (accessToken c)) then throw E else k)) st
        = k (authenticated st token))
  \/ exists e s,
       bind (authenticate net)
         (fun _ => bind this (fun c =>
            if negb (truthy (accessToken c)) then throw E else k)) st
       = (Thrown e, s)
       /\ sent s = (sent st ++ [auth_request (self st)])%list.
Proof.
  remember (bind (authenticate net)
              (fun _ => bind this (fun c =>
                 if negb (truthy (accessToken c)) then throw E else k)) st)
    as run eqn:Hrun.
  unfold bind at 1 in Hrun. rewrite authenticate_run in Hrun.
  destruct (net (sent st) (auth_request (self st))) as [d|m resp] eqn:Hnet.
  - destruct (member d "access_token") as [tok|] eqn:Htok.
    + unfold bind at 1 in Hrun. unfold this at 1 in Hrun.
      cbn [authenticated self with_token accessToken] in Hrun.
      destruct (truthy tok) eqn:Ht; cbn [negb] in Hrun; subst run.
      * left. exists tok. split; [exists d; auto | reflexivity].
      * right. eexists. eexists. split; reflexivity.
    + subst run. right. eexists. eexists. split; reflexivity.
  - right.
    destruct (@handleOneEpayError_throws unit (AxiosErr m resp)
                (after_auth_request st)) as [e' He'].
    rewrite He' in Hrun. subst run. eexists. eexists. split; reflexivity.
Qed.

Lemma createTransaction_returned (net : Network) (o : JsVal) (st st' : State)
    (r : JsVal) :
  createTransaction net o st = (Returned r, st') ->
  exists token,
    grants net st token /\ valid_create o
    /\ st' = {| self := signing_client (self st) token o;
                sent := sent st
                          ++ [auth_request (self st);
                              create_request
                                (signing_client (self st) token o) o] |}.
Proof.
  intros H. pose proof H as H0. unfold createTransaction in H.
  match type of H with
  | bind _ (fun _ => bind this (fun c => if _ then throw ?E else ?k)) _ = _ =>
      destruct (guarded_prefix net E k st) as [(token & Hg & Hk)|(e & s & Hk & _)]
  end; [ | rewrite Hk in H; discriminate].
  exists token. split; [exact Hg | ].
  destruct (validateCreateTransaction_cases o) as [Hv|[e He]].
  - split; [exact Hv | ].
    rewrite (createTransaction_valid net st o token Hg Hv) in H0.
    cbv beta zeta delta [try_catch post] in H0.
    cbn [self sent url body headers] in H0.
    match type of H0 with
    | context [net ?h ?q] => destruct (net h q) as [d|m resp]
    end.
    + injection H0 as _ <-. f_equal. rewrite <- app_assoc. reflexivity.
    + match type of H0 with
      | context [@handleOneEpayError ?T ?x ?y] =>
          destruct (@handleOneEpayError_throws T x y) as [e' He']
      end.
      rewrite He' in H0. discriminate.
  - rewrite Hk in H. unfold bind at 1 in H. rewrite He in H. discriminate.
Qed.

Lemma completeTransaction_returned (net : Network) (o : JsVal)
    (st st' : State) (r : JsVal) :
  completeTransaction net o st = (Returned r, st') ->
  exists token,
    grants net st token /\ valid_complete o
    /\ st' = {| self := signing_client (self st) token o;
                sent := sent st
                          ++ [auth_request (self st);
                              complete_request
                                (signing_client (self st) token o) o] |}.
Proof.
  intros H. pose proof H as H0. unfold completeTransaction in H.
  match type of H with
  | bind _ (fun _ => bind this (fun c => if _ then throw ?E else ?k)) _ = _ =>
      destruct (guarded_prefix net E k st)
        as [(token & Hg & Hk)|(e & s & Hk & _)]
  end; [ | rewrite Hk in H; discriminate].
  exists token. split; [exact Hg | ].
  destruct (validateCompleteTransaction_cases o) as [Hv|[e He]].
  - split; [exact Hv | ].
    rewrite (completeTransaction_valid net st o token Hg Hv) in H0.
    cbv beta zeta delta [try_catch post] in H0.
    cbn [self sent url body headers] in H0.
    match type of H0 with
    | context [net ?h ?q] => destruct (net h q) as [d|m resp]
    end.
    + injection H0 as _ <-. f_equal. rewrite <- app_assoc. reflexivity.
    + match type of H0 with
      | context [@handleOneEpayError ?T ?x ?y] =>
          destruct (@handleOneEpayError_throws T x y) as [e' He']
      end.
      rewrite He' in H0. discriminate.
  - rewrite Hk in H. unfold bind at 1 in H. rewrite He in H. discriminate.
Qed.

(** A request goes out, and [this] stays as it is, whether the gateway
    accepts it or not. *)
Lemma submitted (net : Network) (q : Request) (s : State) :
  snd (try_catch (post net (url q) (body q) (headers q))
         handleOneEpayError s)
  = {| self := self s; sent := sent s ++ [q] |}.
Proof.
  destruct q as [u b h]. cbv beta zeta delta [try_catch post].
  cbn [url body headers].
  destruct (net (sent s) {| url := u; body := b; headers := h |})
    as [d|m resp]; [reflexivity | ].
  match goal with
  | |- context [@handleOneEpayError ?T ?x ?y] =>
      destruct (@handleOneEpayError_throws T x y) as [e' He']
  end.
  rewrite He'. reflexivity.
Qed.

Lemma createTransaction_valid_state (net : Network) (st : State)
    (o token : JsVal) :
  grants net st token ->
  valid_create o ->
  snd (createTransaction net o st)
  = {| self := signing_client (self st) token o;
       sent := sent st
                 ++ [auth_request (self st);
                     create_request (signing_client (self st) token o) o] |}.
Proof.
  intros Hg Hv. rewrite (createTransaction_valid net st o token Hg Hv).
  cbv zeta. rewrite submitted. cbn [self sent].
  rewrite <- app_assoc. reflexivity.
Qed.

Lemma completeTransaction_valid_state (net : Network) (st : State)
    (o token : JsVal) :
  grants net st token ->
  valid_complete o ->
  snd (completeTransaction net o st)
  = {| self := signing_client (self st) token o;
       sent := sent st
                 ++ [auth_request (self st);
                     complete_request (signing_client (self st) token o) o] |}.
Proof.
  intros Hg Hv. rewrite (completeTransaction_valid net st o token Hg Hv).
  cbv zeta. rewrite submitted. cbn [self sent].
  rewrite <- app_assoc. reflexivity.
Qed.

Lemma member_some (v : JsVal) (k : string) (x : JsVal) :
  member v k = Some x -> defined v = true /\ x = own v k.
Proof.
  unfold member. destruct v; intros H; try discriminate H;
    injection H as <-; split; reflexivity.
Qed.

(** ** How a transaction method ends *)

(** How the guarded prefix of a transaction method ends when no token is
    granted: with the state the token request left. *)
Lemma ungranted_prefix {A : Type} (net : Network) (E : JsError) (k : M A)
    (st : State) :
  (exists token,
     grants net st token
     /\ bind (authenticate net)
          (fun _ => bind this (fun c =>
             if negb (truthy (accessToken c)) then throw E else k)) st
        = k (authenticated st token))
  \/ exists e s,
       bind (authenticate net)
         (fun _ => bind this (fun c =>
            if negb (truthy (accessToken c)) then throw E else k)) st
       = (Thrown e, s)
       /\ (s = after_auth_request st
           \/ exists d, net (sent st) (auth_request (self st)) = Responded d
                        /\ defined d = true
                        /\ truthy (own d "access_token") = false
                        /\ e = E
                        /\ s = authenticated st (own d "access_token")).
Proof.
  remember (bind (authenticate net)
              (fun _ => bind this (fun c =>
                 if negb (truthy (accessToken c)) then throw E else k)) st)
    as run eqn:Hrun.
  unfold bind at 1 in Hrun. rewrite authenticate_run in Hrun.
  destruct (net (sent st) (auth_request (self st))) as [d|m resp] eqn:Hnet.
  - destruct (member d "access_token") as [tok|] eqn:Htok.
    + unfold bind at 1 in Hrun. unfold this at 1 in Hrun.
      cbn [authenticated self with_token accessToken] in Hrun.
      destruct (member_some _ _ _ Htok) as [Hd ->].
      destruct (truthy (own d "access_token")) eqn:Ht; cbn [negb] in Hrun;
        subst run.
      * left. exists (own d "access_token").
        split; [exists d; auto | reflexivity].
      * right. eexists. eexists. split; [reflexivity | ].
        right. exists d. auto.
    + subst run. right. eexists. eexists. split; [reflexivity | now left].
  - right.
    destruct (@handleOneEpayError_throws unit (AxiosErr m resp)
                (after_auth_request st)) as [e' He'].
    rewrite He' in Hrun. subst run. eexists. eexists.
    split; [reflexivity | now left].
Qed.

(** The three ways [createTransaction] ends: before a token is stored, with
    the token stored and nothing submitted, or with the transaction
    submitted. *)
Lemma createTransaction_ends (net : Network) (o : JsVal) (st : State) :
  snd (createTransaction net o st) = after_auth_request st
  \/ (exists token,
        snd (createTransaction net o st) = authenticated st token
        /\ (truthy token = false \/ ~ valid_create o))
  \/ exists token,
       grants net st token /\ valid_create o
       /\ snd (createTransaction net o st)
          = {| self := signing_client (self st) token o;
               sent := sent st
                         ++ [auth_request (self st);
                             create_request
                               (signing_client (self st) token o) o] |}.
Proof.
  remember (createTransaction net o st) as run eqn:Hrun.
  pose proof Hrun as Hrun0. unfold createTransaction in Hrun.
  match type of Hrun with
  | _ = bind _ (fun _ => bind this (fun c => if _ then throw ?E else ?k)) _ =>
      destruct (ungranted_prefix net E k st)
        as [(token & Hg & Hk)|(e & s & Hk & Hs)]
  end.
  - destruct (validateCreateTransaction_cases o) as [Hv|[e He]].
    + right. right. exists token. split; [exact Hg | split; [exact Hv | ]].
      subst run. now apply createTransaction_valid_state.
    + right. left. exists token.
      rewrite Hk in Hrun. unfold bind at 1 in Hrun. rewrite He in Hrun.
      subst run. split; [reflexivity | ].
      right. intros [Ho Hv].
      specialize (He st). unfold validateCreateTransaction in He.
      rewrite Ho in He. cbn [String.eqb Ascii.eqb Bool.eqb negb] in He.
      unfold validate_or_throw in He. rewrite Hv in He. discriminate.
  - rewrite Hk in Hrun. subst run. cbn [snd].
    destruct Hs as [->|(d & _ & _ & Ht & _ & ->)]; [now left | ].
    right. left. eexists. split; [reflexivity | now left].
Qed.

Lemma completeTransaction_ends (net : Network) (o : JsVal) (st : State) :
  snd (completeTransaction net o st) = after_auth_request st
  \/ (exists token,
        snd (completeTransaction net o st) = authenticated st token
        /\ (truthy token = false \/ ~ valid_complete o))
  \/ exists token,
       grants net st token /\ valid_complete o
       /\ snd (completeTransaction net o st)
          = {| self := signing_client (self st) token o;
               sent := sent st
                         ++ [auth_request (self st);
                             complete_request
                               (signing_client (self st) token o) o] |}.
Proof.
  remember (completeTransaction net o st) as run eqn:Hrun.
  pose proof Hrun as Hrun0. unfold completeTransaction in Hrun.
  match type of Hrun with
  | _ = bind _ (fun _ => bind this (fun c => if _ then throw ?E else ?k)) _ =>
      destruct (ungranted_prefix net E k st)
        as [(token & Hg & Hk)|(e & s & Hk & Hs)]
  end.
  - destruct (validateCompleteTransaction_cases o) as [Hv|[e He]].
    + right. right. exists token. split; [exact Hg | split; [exact Hv | ]].
      subst run. now apply completeTransaction_valid_state.
    + right. left. exists token.
      rewrite Hk in Hrun. unfold bind at 1 in Hrun. rewrite He in Hrun.
      subst run. split; [reflexivity | ].
      right. intros [Ho Hv].
      specialize (He st). unfold validateCompleteTransaction in He.
      rewrite Ho in He. cbn [String.eqb Ascii.eqb Bool.eqb negb] in He.
      unfold validate_or_throw in He. rewrite Hv in He. discriminate.
  - rewrite Hk in Hrun. subst run. cbn [snd].
    destruct Hs as [->|(d & _ & _ & Ht & _ & ->)]; [now left | ].
    right. left. eexists. split; [reflexivity | now left].
Qed.

(** What the rules of the first three fields leave through. *)
Lemma valid_create_fields (o : JsVal) :
  valid_create o ->
  exists uid amt qty,
    own o "UID" = VStr uid /\ own o "totalAmount" = VStr amt
    /\ own o "totalQuantity" = VNum (NInt qty)
    /\ uid <> "" /\ money_format amt.
Proof.
  intros Hvalid.
  destruct (valid_create_object o Hvalid) as [[props ->] _].
  destruct Hvalid as [Ho Hv]. rewrite validate_flat in Hv.
  apply run_checks_valid in Hv. rewrite declared_createRules in Hv.
  repeat rewrite Forall_cons_iff in Hv.
  destruct Hv as (H1 & H2 & H3 & H4 & H5 & H6 & H7 & _).
  apply passes_required in H1, H3, H6.
  apply passes_string in H2; [ | exact H1].
  apply passes_string in H4; [ | exact H3].
  apply passes_integer in H7; [ | exact H6].
  pose proof (proj1 (passes_is_money _ _ _) H5) as Hmoney.
  change (get (VObj props) "UID") with (own (VObj props) "UID") in *.
  change (get (VObj props) "totalAmount")
    with (own (VObj props) "totalAmount") in *.
  change (get (VObj props) "totalQuantity")
    with (own (VObj props) "totalQuantity") in *.
  destruct (own (VObj props) "UID") as [| |b|n|uid|l|p]; try discriminate.
  destruct (own (VObj props) "totalAmount") as [| |b|n|amt|l|p];
    try discriminate.
  destruct (own (VObj props) "totalQuantity") as [| |b|[qty|x]|s|l|p];
    try discriminate.
  exists uid, amt, qty.
  do 3 (split; [reflexivity | ]). split.
  - intros ->. discriminate.
  - apply money_test. apply Hmoney. exact H3.
Qed.

(** ** Orders that pass validation *)

Lemma all_digits_app (a b : string) :
  all_digits (a ++ b) = all_digits a && all_digits b.
Proof.
  induction a as [|c a IH]; simpl; [reflexivity | ].
  now rewrite IH, andb_assoc.
Qed.

Lemma money_format_digits (d amt : string) :
  all_digits d = true -> money_format amt -> money_format (d ++ amt).
Proof.
  intros Hd (ds & d1 & d2 & -> & Hds & H1 & H2).
  exists (d ++ ds), d1, d2. rewrite append_assoc.
  repeat split; auto. rewrite all_digits_app, Hd, Hds. reflexivity.
Qed.

Lemma money_format_nonempty (amt : string) : money_format amt -> amt <> "".
Proof.
  intros (ds & d1 & d2 & -> & _) E.
  apply (f_equal String.length) in E. rewrite length_append in E.
  simpl in E. lia.
Qed.

Lemma paygo_order_valid (uid amt : string) (qty : Z) :
  uid <> "" -> money_format amt -> valid_create (paygo_order uid amt qty).
Proof.
  intros Hu Hm. pose proof (money_format_nonempty amt Hm) as Ha.
  apply String.eqb_neq in Hu, Ha.
  split; [reflexivity | ].
  rewrite validate_flat. apply run_checks_valid.
  rewrite declared_createRules.
  repeat apply Forall_cons; try apply Forall_nil.
  all: first [ apply passes_required | apply passes_string
             | apply passes_integer | apply passes_object
             | apply passes_in | apply passes_is_money
             | apply passes_required_when ].
  all: cbn [paygo_order get split_on get_path member own lookup String.eqb
            Ascii.eqb Bool.eqb existy is_string is_integer is_object
            in_array equals_text existsb truthy ToString orb].
  all: try rewrite Hu; try rewrite Ha; try reflexivity; try discriminate.
  all: try (intros _; reflexivity).
  intros _. now apply money_test.
Qed.

Lemma Z_to_string_nonempty (z : Z) : Z_to_string z <> "".
Proof.
  unfold Z_to_string. destruct z as [|p|p]; cbn; try discriminate.
  unfold NilZero.string_of_uint. destruct (Pos.to_uint p); discriminate.
Qed.

Lemma paygo_order_from_valid (ip : string) :
  valid_create (paygo_order_from ip).
Proof. split; reflexivity. Qed.

(** ** The signature *)

(** The digest on the test vectors of the SHA-1 standard. *)
Lemma digest_known_answers :
  Crypto.digest "abc" = "qZk+NkcGgWq6PiVxeFDCbJzQ2J0="
  /\ Crypto.digest "" = "2jmj7l5rSw0yVb/vlWAYkK/YBwk="
  /\ Crypto.digest "abcdbcdecdefdefgefghfghighijhijkijkljklmklmnlmnomnopnopq"
     = "hJg+RBw70m66rkqh+VEp5eVGcPE="
  /\ Crypto.sha1 (Crypto.bytes_of_string "abc")
     = [0xa9; 0x99; 0x3e; 0x36; 0x47; 0x06; 0x81; 0x6a; 0xba; 0x3e;
        0x25; 0x71; 0x78; 0x50; 0xc2; 0x6c; 0x9c; 0xd0; 0xd8; 0x9d]%Z.
Proof. repeat split; vm_compute; reflexivity. Qed.

(** C1.  [makeSignature] stores the base64 encoding of the SHA-1 digest of
    UID ++ totalAmount ++ (the text of totalQuantity) ++ ip ++ clientId ++
    clientSecret, in that order and with nothing between them; the URL, the
    token, the previous signature and the requests sent so far play no part,
    and nothing else changes.  The text of the quantity is the one JavaScript
    prints for the number, whatever the number: the decimal digits of an
    integer up to 2^53, "1e+21" for 1e21.  So the order X1 of 10.00 from
    10.0.0.7 is signed "erT3zG+WIarnMvAK65IVnWb9E8g=" for 2 pieces and
    "U9ABb/CPETnNSZl3/JLrfdqcY8c=" for 1e21 pieces by the client "shop" with
    the secret "secret". *)
Theorem makeSignature_digest_of_concatenation
    (uid amt : string) (qty : JsNumber) (ip cid csec : string)
    (gateway token previous : JsVal) (reqs : list Request) :
  makeSignature (VStr uid) (VStr amt) (VNum qty) (VStr ip)
    {| self := {| apiURL := gateway; clientId := VStr cid;
                  clientSecret := VStr csec; accessToken := token;
                  signature := previous |};
       sent := reqs |}
  = (Returned tt,
     {| self := {| apiURL := gateway; clientId := VStr cid;
                   clientSecret := VStr csec; accessToken := token;
                   signature :=
                     VStr (Crypto.base64
                             (Crypto.sha1
                                (Crypto.bytes_of_string
                                   (uid ++ amt ++ number_to_string qty ++ ip
                                      ++ cid ++ csec)))) |};
        sent := reqs |})
  /\ (forall z, (Z.abs z <= 2 ^ 53)%Z ->
                number_to_string (NInt z) = Z_to_string z)
  /\ number_to_string (NInt (10 ^ 21)) = "1e+21"
  /\ signature
       (self (snd (makeSignature (VStr "X1") (VStr "10.00") (VNum (NInt 2))
                     (VStr "10.0.0.7") sample_state)))
     = VStr "erT3zG+WIarnMvAK65IVnWb9E8g="
  /\ signature
       (self (snd (makeSignature (VStr "X1") (VStr "10.00")
                     (VNum (NInt (10 ^ 21))) (VStr "10.0.0.7") sample_state)))
     = VStr "U9ABb/CPETnNSZl3/JLrfdqcY8c=".
Proof.
  split; [ | split; [ | split; [ | split]; vm_compute; reflexivity]].
  - cbv beta delta [makeSignature bind this set_signature str_plus] iota.
    cbn [self sent apiURL clientId clientSecret accessToken signature
         ToString].
    repeat rewrite append_assoc. reflexivity.
  - intros z Hz. apply small_integer_text. exact Hz.
Qed.

Lemma signature_after_create (net : Network) (st : State) (o token : JsVal) :
  grants net st token ->
  valid_create o ->
  signature_after (createTransaction net o) st
  = VStr (Crypto.digest (signed_data (self st) o)).
Proof.
  intros Hg Hv. unfold signature_after.
  now rewrite (createTransaction_valid_state net st o token Hg Hv).
Qed.

Lemma signed_data_differs (c : Client) (o1 o2 : JsVal) (f : string) :
  differ_only_in_text f o1 o2 -> signed_data c o1 <> signed_data c o2.
Proof.
  intros (Hin & Hdiff & Hsame) E. apply Hdiff. unfold signed_data in E.
  destruct Hin as [<-|[<-|[<-|[<-|[]]]]].
  - rewrite <- (Hsame "totalAmount"), <- (Hsame "totalQuantity"),
      <- (Hsame "ip") in E;
      try (simpl; tauto); try discriminate.
    now apply append_inv_tail in E.
  - rewrite <- (Hsame "UID"), <- (Hsame "totalQuantity"),
      <- (Hsame "ip") in E;
      try (simpl; tauto); try discriminate.
    apply append_inv_head in E. now apply append_inv_tail in E.
  - rewrite <- (Hsame "UID"), <- (Hsame "totalAmount"),
      <- (Hsame "ip") in E;
      try (simpl; tauto); try discriminate.
    do 2 apply append_inv_head in E. now apply append_inv_tail in E.
  - rewrite <- (Hsame "UID"), <- (Hsame "totalAmount"),
      <- (Hsame "totalQuantity") in E;
      try (simpl; tauto); try discriminate.
    do 3 apply append_inv_head in E. now apply append_inv_tail in E.
Qed.

Lemma differ_in_text (o1 o2 : JsVal) (f : string) :
  valid_create o1 -> valid_create o2 ->
  exact_quantity o1 -> exact_quantity o2 ->
  differ_only_in f o1 o2 ->
  (f = "ip" -> signed_text o1 "ip" <> signed_text o2 "ip") ->
  differ_only_in_text f o1 o2.
Proof.
  intros Hv1 Hv2 He1 He2 (Hin & Hdiff & Hsame) Hip.
  destruct (valid_create_fields o1 Hv1)
    as (u1 & a1 & q1 & Hu1 & Ha1 & Hq1 & _).
  destruct (valid_create_fields o2 Hv2)
    as (u2 & a2 & q2 & Hu2 & Ha2 & Hq2 & _).
  unfold exact_quantity in He1, He2. rewrite Hq1 in He1. rewrite Hq2 in He2.
  split; [exact Hin | split].
  - destruct Hin as [<-|[<-|[<-|[<-|[]]]]]; unfold signed_text;
      cbn [String.eqb Ascii.eqb Bool.eqb].
    + rewrite Hu1, Hu2 in *. simpl. congruence.
    + rewrite Ha1, Ha2 in *. simpl. congruence.
    + rewrite Hq1, Hq2 in *. cbn [ToString]. intros E.
      apply number_to_string_inj in E; [congruence | exact He1 | exact He2].
    + now apply Hip.
  - intros g Hg Hne. unfold signed_text.
    now rewrite (Hsame g Hg Hne).
Qed.

(** Whatever family of options is signed, two of any 2^160 + 1 of them get
    the same signature. *)
Lemma signatures_collide (net : Network) (st : State) (token : JsVal)
    (order : Z -> JsVal) :
  grants net st token ->
  (forall i, valid_create (order i)) ->
  exists i j,
    (0 <= i < j)%Z
    /\ signature_after (createTransaction net (order i)) st
       = signature_after (createTransaction net (order j)) st.
Proof.
  intros Hg Hv.
  destruct (digest_collides (fun i => signed_data (self st) (order i)))
    as (i & j & Hij & _ & E).
  exists i, j. split; [exact Hij | ].
  rewrite (signature_after_create net st (order i) token Hg (Hv i)).
  rewrite (signature_after_create net st (order j) token Hg (Hv j)).
  now rewrite E.
Qed.

Lemma paygo_order_from_text (ip : string) :
  ip <> "" -> signed_text (paygo_order_from ip) "ip" = ip.
Proof.
  intros H. apply String.eqb_neq in H.
  unfold signed_text, js_or.
  cbn [paygo_order_from own lookup String.eqb Ascii.eqb Bool.eqb truthy].
  rewrite H. reflexivity.
Qed.

(** For each of the fields UID, totalAmount and ip there are two valid
    options that differ in that field alone, by its text too, and get the
    same signature. *)
Lemma colliding_options (net : Network) (st : State) (token : JsVal)
    (f : string) :
  grants net st token ->
  In f ["UID"; "totalAmount"; "ip"] ->
  exists p1 p2,
    valid_create p1 /\ valid_create p2
    /\ exact_quantity p1 /\ exact_quantity p2
    /\ differ_only_in f p1 p2
    /\ signed_text p1 f <> signed_text p2 f
    /\ signature_after (createTransaction net p1) st
       = signature_after (createTransaction net p2) st.
Proof.
  assert (Hten : money_format "10.00").
  { exists "10", "0"%char, "0"%char.
    do 3 (split; [reflexivity | ]). reflexivity. }
  assert (Hm : forall i, (0 <= i)%Z -> money_format (Z_to_string i ++ ".00")).
  { intros i Hi. exists (Z_to_string i), "0"%char, "0"%char.
    split; [reflexivity | ].
    split; [now apply Z_to_string_digits | ].
    split; reflexivity. }
  assert (Hrest : forall (f : string) (p1 p2 : JsVal),
            In f signed_fields ->
            own p1 f <> own p2 f ->
            (forall g, In g signed_fields -> g <> f -> own p1 g = own p2 g) ->
            differ_only_in f p1 p2).
  { intros g p1 p2 H1 H2 H3. split; [exact H1 | split; assumption]. }
  intros Hg [<-|[<-|[<-|[]]]].
  - destruct (signatures_collide net st token
                (fun i => paygo_order (Z_to_string i) "10.00" 2) Hg)
      as (i & j & Hij & E).
    { intros i. apply paygo_order_valid;
        [apply Z_to_string_nonempty | exact Hten]. }
    exists (paygo_order (Z_to_string i) "10.00" 2),
           (paygo_order (Z_to_string j) "10.00" 2).
    assert (Hne : Z_to_string i <> Z_to_string j).
    { intros H. apply Z_to_string_inj in H. lia. }
    split; [apply paygo_order_valid;
            [apply Z_to_string_nonempty | exact Hten] | ].
    split; [apply paygo_order_valid;
            [apply Z_to_string_nonempty | exact Hten] | ].
    split; [reflexivity | ]. split; [reflexivity | ].
    split; [ | split; [ | exact E]].
    + apply Hrest; [simpl; tauto | cbn; congruence | ].
      intros g [<-|[<-|[<-|[<-|[]]]]] Hg'; try reflexivity;
        now contradiction Hg'.
    + cbn. exact Hne.
  - destruct (signatures_collide net st token
                (fun i => paygo_order "P1" (Z_to_string (Z.abs i) ++ ".00") 2)
                Hg)
      as (i & j & Hij & E).
    { intros i. apply paygo_order_valid; [discriminate | ].
      apply Hm. lia. }
    rewrite (Z.abs_eq i), (Z.abs_eq j) in E by lia.
    exists (paygo_order "P1" (Z_to_string i ++ ".00") 2),
           (paygo_order "P1" (Z_to_string j ++ ".00") 2).
    assert (Hne : Z_to_string i ++ ".00" <> Z_to_string j ++ ".00").
    { intros H. apply append_inv_tail, Z_to_string_inj in H. lia. }
    split; [apply paygo_order_valid; [discriminate | apply Hm; lia] | ].
    split; [apply paygo_order_valid; [discriminate | apply Hm; lia] | ].
    split; [reflexivity | ]. split; [reflexivity | ].
    split; [ | split; [ | exact E]].
    + apply Hrest; [simpl; tauto | cbn; congruence | ].
      intros g [<-|[<-|[<-|[<-|[]]]]] Hg'; try reflexivity;
        now contradiction Hg'.
    + cbn. exact Hne.
  - destruct (signatures_collide net st token
                (fun i => paygo_order_from (Z_to_string i)) Hg)
      as (i & j & Hij & E).
    { intros i. apply paygo_order_from_valid. }
    exists (paygo_order_from (Z_to_string i)),
           (paygo_order_from (Z_to_string j)).
    assert (Hne : Z_to_string i <> Z_to_string j).
    { intros H. apply Z_to_string_inj in H. lia. }
    split; [apply paygo_order_from_valid | ].
    split; [apply paygo_order_from_valid | ].
    split; [reflexivity | ]. split; [reflexivity | ].
    split; [ | split; [ | exact E]].
    + apply Hrest; [simpl; tauto | cbn; congruence | ].
      intros g [<-|[<-|[<-|[<-|[]]]]] Hg'; try reflexivity;
        now contradiction Hg'.
    + rewrite !paygo_order_from_text by apply Z_to_string_nonempty.
      exact Hne.
Qed.

(** C4, as the code has it.  For two valid options handled by the same
    client, their quantities being numbers (integers a double holds): equal
    signed tuples give equal signatures.  When the tuples differ in exactly
    one field, and, if the field is [ip], the two values do not stand for
    the same text (an absent or empty [ip] stands for "Unknown IP"), the two
    concatenations that are hashed differ, and the signatures differ unless
    SHA-1 collides on these two texts.  It does collide on some: for each of
    UID, totalAmount and ip, two valid options differ in that field alone and
    get the same signature.  The order P1 is signed
    "MHkOZSult0sfFfXYAQ8LQVgUSoQ=" for 2 pieces and
    "PkvvT1mXuWm4t030AG+MvWgYgeE=" for 3. *)
Theorem signature_of_signed_tuple (net : Network) (st : State)
    (o1 o2 token : JsVal) :
  grants net st token ->
  valid_create o1 ->
  valid_create o2 ->
  exact_quantity o1 ->
  exact_quantity o2 ->
  ((forall f, In f signed_fields -> own o1 f = own o2 f) ->
   signature_after (createTransaction net o1) st
   = signature_after (createTransaction net o2) st)
  /\ (forall f,
        differ_only_in f o1 o2 ->
        (f = "ip" -> signed_text o1 "ip" <> signed_text o2 "ip") ->
        signature_after (createTransaction net o1) st
        = VStr (Crypto.digest (signed_data (self st) o1))
        /\ signature_after (createTransaction net o2) st
           = VStr (Crypto.digest (signed_data (self st) o2))
        /\ signed_data (self st) o1 <> signed_data (self st) o2
        /\ (signature_after (createTransaction net o1) st
            <> signature_after (createTransaction net o2) st
            \/ collision (signed_data (self st) o1)
                 (signed_data (self st) o2)))
  /\ (forall f,
        In f ["UID"; "totalAmount"; "ip"] ->
        exists p1 p2,
          valid_create p1 /\ valid_create p2
          /\ exact_quantity p1 /\ exact_quantity p2
          /\ differ_only_in f p1 p2
          /\ signed_text p1 f <> signed_text p2 f
          /\ signature_after (createTransaction net p1) st
             = signature_after (createTransaction net p2) st)
  /\ signature_after (createTransaction sample_net order_P1) sample_state
     = VStr "MHkOZSult0sfFfXYAQ8LQVgUSoQ="
  /\ signature_after (createTransaction sample_net order_P1_three)
       sample_state
     = VStr "PkvvT1mXuWm4t030AG+MvWgYgeE=".
Proof.
  intros Hg Hv1 Hv2 He1 He2.
  split; [ | split; [ | split; [ | split; vm_compute; reflexivity]]].
  - rewrite (signature_after_create net st o1 token Hg Hv1).
    rewrite (signature_after_create net st o2 token Hg Hv2).
    intros Hsame. unfold signed_data, signed_text.
    rewrite (Hsame "UID"), (Hsame "totalAmount"), (Hsame "totalQuantity"),
      (Hsame "ip"); simpl; tauto.
  - intros f Hd Hip.
    rewrite (signature_after_create net st o1 token Hg Hv1).
    rewrite (signature_after_create net st o2 token Hg Hv2).
    do 2 (split; [reflexivity | ]).
    assert (Hne : signed_data (self st) o1 <> signed_data (self st) o2).
    { apply signed_data_differs with f. now apply differ_in_text. }
    split; [exact Hne | ].
    destruct (string_dec (Crypto.digest (signed_data (self st) o1))
                (Crypto.digest (signed_data (self st) o2))) as [E|E].
    + right. split; assumption.
    + left. congruence.
  - intros f Hf. now apply colliding_options with token.
Qed.

Lemma sample_grants : grants sample_net sample_state (VStr "fresh-token").
Proof.
  exists (VObj [("access_token", VStr "fresh-token")]).
  repeat split.
Defined.

Lemma order_P1_valid : valid_create order_P1.
Proof. split; reflexivity. Defined.

Lemma order_P1_ip_valid : valid_create order_P1_ip.
Proof. split; reflexivity. Defined.

Lemma signature_of_signed_tuple_witness :
  signature_after (createTransaction sample_net order_P1) sample_state
  = signature_after (createTransaction sample_net order_P1_described)
      sample_state
  /\ signed_data sample_client order_P1
     <> signed_data sample_client order_P1_three
  /\ signature_after (createTransaction sample_net order_P1) sample_state
     <> signature_after (createTransaction sample_net order_P1_three)
          sample_state.
Proof.
  split.
  - apply (proj1 (signature_of_signed_tuple sample_net sample_state
                    order_P1 order_P1_described (VStr "fresh-token")
                    sample_grants order_P1_valid (conj eq_refl eq_refl)
                    eq_refl eq_refl)).
    intros f [<-|[<-|[<-|[<-|[]]]]]; reflexivity.
  - destruct (proj1 (proj2 (signature_of_signed_tuple sample_net sample_state
                              order_P1 order_P1_three (VStr "fresh-token")
                              sample_grants order_P1_valid
                              (conj eq_refl eq_refl) eq_refl eq_refl))
                "totalQuantity")
      as (_ & _ & Htext & [Hsig|[_ Hcol]]).
    + split; [simpl; tauto | split].
      * intros H. discriminate H.
      * intros g [<-|[<-|[<-|[<-|[]]]]] Hne;
          try reflexivity; now contradiction Hne.
    + intros H. discriminate H.
    + split; assumption.
    + vm_compute in Hcol. discriminate Hcol.
Defined.

(** C4, as stated, fails.  An order without [ip] and the same order with the
    [ip] "Unknown IP" differ in exactly one field of the signed tuple, both
    are valid, and the client computes the same signature for both.  And
    whatever stands for an [ip], a digest of 160 bits cannot tell all orders
    apart: two valid orders differ in their UID alone, and get the same
    signature. *)
Lemma signatures_coincide_counterexample :
  (valid_create order_P1 /\ valid_create order_P1_ip
   /\ differ_only_in "ip" order_P1 order_P1_ip
   /\ signature_after (createTransaction sample_net order_P1) sample_state
      = signature_after (createTransaction sample_net order_P1_ip)
          sample_state)
  /\ exists p1 p2,
       valid_create p1 /\ valid_create p2
       /\ differ_only_in "UID" p1 p2
       /\ signature_after (createTransaction sample_net p1) sample_state
          = signature_after (createTransaction sample_net p2) sample_state.
Proof.
  split.
  - split; [exact order_P1_valid | ].
    split; [exact order_P1_ip_valid | ].
    split.
    + split; [simpl; tauto | split].
      * intros H. discriminate H.
      * intros g [<-|[<-|[<-|[<-|[]]]]] Hne;
          try reflexivity; now contradiction Hne.
    + vm_compute. reflexivity.
  - destruct (colliding_options sample_net sample_state (VStr "fresh-token")
                "UID" sample_grants)
      as (p1 & p2 & H1 & H2 & _ & _ & Hd & _ & E); [simpl; tauto | ].
    exists p1, p2. auto.
Qed.

(** ** The requests of a transaction *)

(** C2, as the code has it.  When the optional fields are absent, the
    submitted body has the description "Order #<UID>.", the four
    placeholders in [customer], and the single default item
    [{name: "Order #<UID>.", qty: 1, unit_price: totalAmount}]: the quantity
    of the default item is 1, not [totalQuantity]. *)
Theorem createTransaction_defaults (net : Network) (st : State)
    (o token : JsVal) :
  grants net st token ->
  valid_create o ->
  own o "description" = VUndefined ->
  own o "ip" = VUndefined ->
  own o "lat" = VUndefined ->
  own o "lng" = VUndefined ->
  own o "deviceUDID" = VUndefined ->
  own o "items" = VUndefined ->
  exists uid req,
    own o "UID" = VStr uid
    /\ sent (snd (createTransaction net o st))
       = (sent st ++ [auth_request (self st); req])%list
    /\ url req = ToString (apiURL (self st)) ++ "/v1/payments/transactions"
    /\ own (body req) "description" = VStr ("Order #" ++ uid ++ ".")
    /\ own (body req) "customer"
       = VObj [("ip", VStr "Unknown IP");
               ("latitude", VStr "Unknown Latitude");
               ("longitude", VStr "Unknown Longitude");
               ("udid", VStr "Unknown Device UDID")]
    /\ own (body req) "items"
       = VArr [VObj [("name", own (body req) "description");
                     ("qty", VNum (NInt 1));
                     ("unit_price", own o "totalAmount")]].
Proof.
  intros Hg Hv Hdesc Hip Hlat Hlng Hudid Hitems.
  destruct (valid_create_fields o Hv) as (uid & amt & qty & Hu & _).
  exists uid, (create_request (signing_client (self st) token o) o).
  split; [exact Hu | ].
  split; [now rewrite (createTransaction_valid_state net st o token Hg Hv) | ].
  unfold create_request. cbn [url body own lookup String.eqb Ascii.eqb Bool.eqb].
  rewrite Hdesc, Hip, Hlat, Hlng, Hudid, Hitems, Hu.
  unfold js_or. cbn [truthy ToString].
  repeat split.
Qed.

Lemma createTransaction_defaults_witness :
  exists req,
    sent (snd (createTransaction sample_net order_P1 sample_state))
    = [auth_request sample_client; req]
    /\ own (body req) "description" = VStr "Order #P1."
    /\ own (body req) "items"
       = VArr [VObj [("name", VStr "Order #P1."); ("qty", VNum (NInt 1));
                     ("unit_price", VStr "10.00")]].
Proof.
  destruct (createTransaction_defaults sample_net sample_state order_P1
              (VStr "fresh-token") sample_grants order_P1_valid
              eq_refl eq_refl eq_refl eq_refl eq_refl eq_refl)
    as (uid & req & Hu & Hs & _ & Hd & _ & Hi).
  injection Hu as <-.
  exists req. split; [exact Hs | ]. split; [exact Hd | ].
  rewrite Hi, Hd. reflexivity.
Defined.

(** C2, as stated, fails on its own example: for the order X1 with a total
    quantity of 2 and no items, the submitted item has the quantity 1; and
    so it is for the PayGo order P1. *)
Lemma default_item_quantity_counterexample :
  (exists auth req,
     sent (snd (createTransaction sample_net order_X1 sample_state))
     = [auth; req]
     /\ own (body req) "total_qty" = VNum (NInt 2)
     /\ own (body req) "items"
        = VArr [VObj [("name", VStr "Order #X1."); ("qty", VNum (NInt 1));
                      ("unit_price", VStr "10.00")]]
     /\ own (body req) "items"
        <> VArr [VObj [("name", VStr "Order #X1."); ("qty", VNum (NInt 2));
                       ("unit_price", VStr "10.00")]])
  /\ (exists auth req,
        sent (snd (createTransaction sample_net order_P1 sample_state))
        = [auth; req]
        /\ own (body req) "total_qty" = VNum (NInt 2)
        /\ own (body req) "items"
           = VArr [VObj [("name", VStr "Order #P1."); ("qty", VNum (NInt 1));
                         ("unit_price", VStr "10.00")]]
        /\ own (body req) "items"
           <> VArr [VObj [("name", VStr "Order #P1."); ("qty", VNum (NInt 2));
                          ("unit_price", VStr "10.00")]]).
Proof.
  split; eexists; eexists; (split; [vm_compute; reflexivity | ]);
    (split; [reflexivity | ]); (split; [reflexivity | ]);
    intros H; discriminate H.
Qed.

(** C3, as the code has it.  Whether or not the client already holds a
    token, a transaction method sends the authentication request first,
    however it ends: what it has sent is the authentication request, alone
    or followed by the one transaction request.  A method that returns has
    sent exactly these two requests, and the transaction request carries the
    token just granted. *)
Theorem transaction_after_authentication (net : Network) (o : JsVal)
    (st : State) :
  (exists rest,
     sent (snd (createTransaction net o st))
     = (sent st ++ auth_request (self st) :: rest)%list
     /\ (rest = []
         \/ exists token,
              grants net st token
              /\ rest = [create_request (signing_client (self st) token o) o])
     /\ forall r,
          fst (createTransaction net o st) = Returned r ->
          exists token,
            grants net st token
            /\ rest = [create_request (signing_client (self st) token o) o])
  /\ (exists rest,
        sent (snd (completeTransaction net o st))
        = (sent st ++ auth_request (self st) :: rest)%list
        /\ (rest = []
            \/ exists token,
                 grants net st token
                 /\ rest
                    = [complete_request (signing_client (self st) token o) o])
        /\ forall r,
             fst (completeTransaction net o st) = Returned r ->
             exists token,
               grants net st token
               /\ rest
                  = [complete_request (signing_client (self st) token o) o]).
Proof.
  split.
  - destruct (createTransaction net o st) as [out s'] eqn:E.
    pose proof (createTransaction_ends net o st) as Hends.
    rewrite E in Hends. cbn [fst snd] in *.
    assert (Hret : forall r rest,
              out = Returned r ->
              sent s' = (sent st ++ auth_request (self st) :: rest)%list ->
              exists token,
                grants net st token
                /\ rest
                   = [create_request (signing_client (self st) token o) o]).
    { intros r rest -> Hs.
      destruct (createTransaction_returned net o st s' r E)
        as (token & Hg & _ & ->).
      exists token. split; [exact Hg | ].
      cbn [sent] in Hs. apply app_inv_head in Hs.
      injection Hs as <-. reflexivity. }
    destruct Hends as [H|[(token & H & _)|(token & Hg & Hv & H)]].
    + exists []. split; [now rewrite H | ]. split; [now left | ].
      intros r Hr. apply (Hret r [] Hr). now rewrite H.
    + exists []. split; [now rewrite H | ]. split; [now left | ].
      intros r Hr. apply (Hret r [] Hr). now rewrite H.
    + exists [create_request (signing_client (self st) token o) o].
      split; [now rewrite H | ].
      split; [right; exists token; auto | ].
      intros r Hr. exists token. auto.
  - destruct (completeTransaction net o st) as [out s'] eqn:E.
    pose proof (completeTransaction_ends net o st) as Hends.
    rewrite E in Hends. cbn [fst snd] in *.
    assert (Hret : forall r rest,
              out = Returned r ->
              sent s' = (sent st ++ auth_request (self st) :: rest)%list ->
              exists token,
                grants net st token
                /\ rest
                   = [complete_request (signing_client (self st) token o) o]).
    { intros r rest -> Hs.
      destruct (completeTransaction_returned net o st s' r E)
        as (token & Hg & _ & ->).
      exists token. split; [exact Hg | ].
      cbn [sent] in Hs. apply app_inv_head in Hs.
      injection Hs as <-. reflexivity. }
    destruct Hends as [H|[(token & H & _)|(token & Hg & Hv & H)]].
    + exists []. split; [now rewrite H | ]. split; [now left | ].
      intros r Hr. apply (Hret r [] Hr). now rewrite H.
    + exists []. split; [now rewrite H | ]. split; [now left | ].
      intros r Hr. apply (Hret r [] Hr). now rewrite H.
    + exists [complete_request (signing_client (self st) token o) o].
      split; [now rewrite H | ].
      split; [right; exists token; auto | ].
      intros r Hr. exists token. auto.
Qed.

Lemma transaction_after_authentication_witness :
  (exists token,
     grants sample_net sample_state token
     /\ sent (snd (createTransaction sample_net order_P1 sample_state))
        = [auth_request sample_client;
           create_request (signing_client sample_client token order_P1)
             order_P1])
  /\ sent (snd (createTransaction sample_net order_two_violations
                  sample_state))
     = [auth_request sample_client].
Proof.
  split.
  - destruct (proj1 (transaction_after_authentication sample_net order_P1
                       sample_state))
      as (rest & Hs & _ & Hr).
    destruct (Hr (VObj [("state", VStr "PENDING")])) as (token & Hg & ->).
    + vm_compute. reflexivity.
    + exists token. split; [exact Hg | exact Hs].
  - destruct (proj1 (transaction_after_authentication sample_net
                       order_two_violations sample_state))
      as (rest & Hs & [->|(token & _ & ->)] & _).
    + exact Hs.
    + exfalso. apply (f_equal (@List.length Request)) in Hs.
      vm_compute in Hs. discriminate Hs.
Defined.

(** C3, as stated, fails: a client that holds a token and creates, or
    completes, a transaction on the happy path sends two requests, the first
    of them to the token endpoint. *)
Lemma cached_token_counterexample :
  truthy (accessToken (self sample_state)) = true
  /\ fst (createTransaction sample_net order_P1 sample_state)
     = Returned (VObj [("state", VStr "PENDING")])
  /\ map url (sent (snd (createTransaction sample_net order_P1 sample_state)))
     = ["https://gateway.test/v1/oauth/access-token";
        "https://gateway.test/v1/payments/transactions"]
  /\ fst (completeTransaction sample_net completion_P1 sample_state)
     = Returned (VObj [("state", VStr "PENDING")])
  /\ map url
       (sent (snd (completeTransaction sample_net completion_P1 sample_state)))
     = ["https://gateway.test/v1/oauth/access-token";
        "https://gateway.test/v1/payments/transactions/commit"].
Proof.
  repeat split; vm_compute; reflexivity.
Qed.

(** C10.  When the options fail validation, the method has sent the
    authentication request and nothing else; and when the gateway grants a
    token, the validation error is thrown from a state that holds the new
    token in place of the old one. *)
Theorem validation_failure_after_authentication (net : Network) (st : State)
    (o : JsVal) (m : string) :
  ((forall s,
      validateCreateTransaction o s
      = (Thrown (CreateTransactionError m), s)) ->
   sent (snd (createTransaction net o st))
   = (sent st ++ [auth_request (self st)])%list
   /\ forall token,
        grants net st token ->
        createTransaction net o st
        = (Thrown (CreateTransactionError m),
           {| self := with_token (self st) token;
              sent := sent st ++ [auth_request (self st)] |}))
  /\ ((forall s,
         validateCompleteTransaction o s
         = (Thrown (CompleteTransactionError m), s)) ->
      sent (snd (completeTransaction net o st))
      = (sent st ++ [auth_request (self st)])%list
      /\ forall token,
           grants net st token ->
           completeTransaction net o st
           = (Thrown (CompleteTransactionError m),
              {| self := with_token (self st) token;
                 sent := sent st ++ [auth_request (self st)] |})).
Proof.
  split; intros Hv.
  - exact (createTransaction_invalid net st o _ Hv).
  - exact (completeTransaction_invalid net st o _ Hv).
Qed.

Lemma validation_failure_after_authentication_witness :
  createTransaction sample_net order_two_violations sample_state
  = (Thrown (CreateTransactionError "totalAmount contains invalid amount."),
     {| self := with_token sample_client (VStr "fresh-token");
        sent := [auth_request sample_client] |})
  /\ accessToken sample_client <> VStr "fresh-token".
Proof.
  split.
  - apply (proj2 (proj1 (validation_failure_after_authentication sample_net
                           sample_state order_two_violations
                           "totalAmount contains invalid amount.")
                    (fun s => eq_refl))
             (VStr "fresh-token") sample_grants).
  - intros H. discriminate H.
Defined.

(** ** The constructor *)

(** C9.  The constructor, a function of its three arguments alone, throws a
    [OneEpayError] when one of them is missing or empty, and returns the
    client, with no token and no signature yet, when the three are non-empty
    strings. *)
Theorem constructor_requires_configuration :
  (forall a i s,
     blank a \/ blank i \/ blank s ->
     exists m, constructor a i s = Thrown (OneEpayError m))
  /\ (forall a i s : string,
        a <> "" -> i <> "" -> s <> "" ->
        constructor (VStr a) (VStr i) (VStr s)
        = Returned {| apiURL := VStr a; clientId := VStr i;
                      clientSecret := VStr s;
                      accessToken := VUndefined; signature := VUndefined |}).
Proof.
  split.
  - intros a i s H. unfold constructor.
    assert (Hb : forall v, blank v -> truthy v = false).
    { intros v [->|[->| ->]]; reflexivity. }
    destruct (truthy a) eqn:Ha; cbn [negb]; [ | eauto].
    destruct (truthy i) eqn:Hi; cbn [negb]; [ | eauto].
    destruct (truthy s) eqn:Hs; cbn [negb]; [ | eauto].
    destruct H as [H|[H|H]]; apply Hb in H; congruence.
  - intros a i s Ha Hi Hs. unfold constructor. cbn [truthy].
    apply String.eqb_neq in Ha, Hi, Hs. rewrite Ha, Hi, Hs. reflexivity.
Qed.

Lemma constructor_requires_configuration_witness :
  (exists m,
     constructor (VStr "https://gateway.test") VUndefined (VStr "secret")
     = Thrown (OneEpayError m))
  /\ constructor (VStr "https://gateway.test") (VStr "shop") (VStr "secret")
     = Returned {| apiURL := VStr "https://gateway.test";
                   clientId := VStr "shop"; clientSecret := VStr "secret";
                   accessToken := VUndefined; signature := VUndefined |}.
Proof.
  split.
  - apply (proj1 constructor_requires_configuration).
    right. left. left. reflexivity.
  - apply (proj2 constructor_requires_configuration);
      intros H; discriminate H.
Defined.

(** * Further properties of the code *)

(** ** More on the error normalizer *)

(** The error the normalizer throws does not depend on the state or on the
    type of the value the surrounding method would have returned. *)
Lemma handleOneEpayError_outcome (error : JsError) :
  exists e,
    forall (A : Type) (st : State),
      @handleOneEpayError A error st = (Thrown e, st).
Proof.
  destruct error as [n m|m [body|]|];
    try (eexists; intros A st; reflexivity).
  unfold handleOneEpayError, prop, bind.
  destruct (member body "errors") as [errors|];
    [ | eexists; intros A st; reflexivity].
  destruct (member body "message") as [message|];
    [ | eexists; intros A st; reflexivity].
  destruct (member body "reason") as [reason|];
    [ | eexists; intros A st; reflexivity].
  cbn [ret].
  destruct (truthy errors && truthy (own errors "length")).
  - destruct (member (own errors "0") "message");
      eexists; intros A st; reflexivity.
  - destruct (truthy message && truthy reason);
      [eexists; intros A st; reflexivity | ].
    destruct (truthy message); eexists; intros A st; reflexivity.
Qed.

(** The normalizer always throws and leaves the state alone, whatever the
    error and even outside the shapes it expects; and the error it throws,
    handed to the normalizer again, is thrown unchanged. *)
Theorem normalizer_throws_once_and_for_all (error : JsError) :
  exists e,
    (forall (A : Type) (st : State),
       @handleOneEpayError A error st = (Thrown e, st))
    /\ (forall (A : Type) (st : State),
          @handleOneEpayError A e st = (Thrown e, st)).
Proof.
  destruct (handleOneEpayError_outcome error) as [e He].
  exists e. split; [exact He | ].
  intros A st.
  destruct error as [n m|m [body|]|];
    try (specialize (He unit st); cbn in He; injection He as <-; reflexivity).
  pose proof (He unit st) as H.
  unfold handleOneEpayError, prop, bind in H.
  destruct (member body "errors") as [errors|];
    [ | injection H as <-; reflexivity].
  destruct (member body "message") as [message|];
    [ | injection H as <-; reflexivity].
  destruct (member body "reason") as [reason|];
    [ | injection H as <-; reflexivity].
  cbn [ret] in H.
  destruct (truthy errors && truthy (own errors "length")).
  - destruct (member (own errors "0") "message");
      injection H as <-; reflexivity.
  - destruct (truthy message && truthy reason);
      [injection H as <-; reflexivity | ].
    destruct (truthy message); injection H as <-; [reflexivity | ].
    apply He.
Qed.

Lemma normalizer_chain (A : Type) (error : JsError) (st : State) :
  well_formed error ->
  @handleOneEpayError A error st = (Thrown (normalized error), st).
Proof.
  intros Hbody.
  destruct error as [n m|m [body|]|]; try reflexivity.
  apply andb_true_iff in Hbody as [Hdef Hshape].
  unfold handleOneEpayError, normalized, has, prop.
  repeat rewrite (member_defined body _ Hdef).
  cbv beta delta [bind ret] iota.
  set (message := own body "message").
  set (reason := own body "reason").
  assert (Hchain :
    (if truthy message && truthy reason
     then throw (new_Error (VStr (ToString message ++ " "
                                    ++ ToString reason)))
     else if truthy message then throw (new_Error message)
          else throw (AxiosErr m (Some body))) st
    = (@Thrown A
         (if truthy message && truthy reason
          then Err "Error" (ToString message ++ " " ++ ToString reason)
          else if truthy message then Err "Error" (ToString message)
               else AxiosErr m (Some body)), st)).
  { destruct (truthy message) eqn:Hm; [ | reflexivity].
    rewrite (new_Error_truthy _ Hm).
    destruct (truthy reason); reflexivity. }
  destruct (own body "errors") as [| |b|n|s|entries|ps];
    try exact Hchain.
  - destruct b; exact Hchain.
  - cbn [own]. rewrite andb_false_r. exact Hchain.
  - cbn [errors_shape] in Hshape. apply String.eqb_eq in Hshape. subst s.
    exact Hchain.
  - destruct entries as [|first rest]; [exact Hchain | ].
    cbn [errors_shape] in Hshape.
    change (own (VArr (first :: rest)) "0") with first.
    rewrite (member_defined first _ Hshape). reflexivity.
  - cbn [errors_shape] in Hshape. apply negb_true_iff in Hshape.
    rewrite Hshape. exact Hchain.
Qed.

(** ** More sample facts *)

Lemma completion_P1_valid : valid_complete completion_P1.
Proof. split; reflexivity. Defined.

Lemma declining_grants :
  grants declining_net sample_state (VStr "fresh-token").
Proof.
  exists (VObj [("access_token", VStr "fresh-token")]).
  repeat split.
Defined.

(** ** The requests a transaction method sends *)

(** However a transaction method ends, it has sent either the token request
    alone, or the token request followed by one transaction request; and the
    second only once a token was granted and the options passed validation.
    No request is ever sent twice. *)
Theorem transaction_request_needs_token_and_validation (net : Network)
    (o : JsVal) (st : State) :
  (sent (snd (createTransaction net o st))
   = (sent st ++ [auth_request (self st)])%list
   \/ exists token,
        grants net st token /\ valid_create o
        /\ sent (snd (createTransaction net o st))
           = (sent st
                ++ [auth_request (self st);
                    create_request (signing_client (self st) token o) o])%list)
  /\ (sent (snd (completeTransaction net o st))
      = (sent st ++ [auth_request (self st)])%list
      \/ exists token,
           grants net st token /\ valid_complete o
           /\ sent (snd (completeTransaction net o st))
              = (sent st
                   ++ [auth_request (self st);
                       complete_request
                         (signing_client (self st) token o) o])%list).
Proof.
  split.
  - destruct (createTransaction_ends net o st)
      as [H|[(token & H & _)|(token & Hg & Hv & H)]]; rewrite H.
    + now left.
    + now left.
    + right. exists token. auto.
  - destruct (completeTransaction_ends net o st)
      as [H|[(token & H & _)|(token & Hg & Hv & H)]]; rewrite H.
    + now left.
    + now left.
    + right. exists token. auto.
Qed.

(** No method changes the address of the gateway, the client identifier or
    the secret; [authenticate] does not change the signature either. *)
Theorem credentials_never_change (net : Network) (o : JsVal) (st : State) :
  let same (c : Client) :=
    apiURL c = apiURL (self st) /\ clientId c = clientId (self st)
    /\ clientSecret c = clientSecret (self st) in
  same (self (snd (authenticate net st)))
  /\ signature (self (snd (authenticate net st))) = signature (self st)
  /\ same (self (snd (createTransaction net o st)))
  /\ same (self (snd (completeTransaction net o st))).
Proof.
  cbv zeta. split; [ | split; [ | split]].
  - rewrite authenticate_run.
    destruct (net (sent st) (auth_request (self st))) as [d|m resp].
    + destruct (member d "access_token"); repeat split.
    + destruct (@handleOneEpayError_throws unit (AxiosErr m resp)
                  (after_auth_request st)) as [e He].
      rewrite He. repeat split.
  - rewrite authenticate_run.
    destruct (net (sent st) (auth_request (self st))) as [d|m resp].
    + destruct (member d "access_token"); reflexivity.
    + destruct (@handleOneEpayError_throws unit (AxiosErr m resp)
                  (after_auth_request st)) as [e He].
      rewrite He. reflexivity.
  - destruct (createTransaction_ends net o st)
      as [H|[(token & H & _)|(token & Hg & Hv & H)]]; rewrite H;
      repeat split.
  - destruct (completeTransaction_ends net o st)
      as [H|[(token & H & _)|(token & Hg & Hv & H)]]; rewrite H;
      repeat split.
Qed.

(** When the gateway answers the token request without a usable
    [access_token] (absent, [null], empty), both methods throw "Missing
    authentication. Did you call authenticate first?" whatever the options,
    valid or not; the token the client held has been replaced by the
    unusable one and nothing but the token request was sent. *)
Theorem unusable_token_is_stored (net : Network) (o : JsVal) (st : State)
    (d : JsVal) :
  net (sent st) (auth_request (self st)) = Responded d ->
  defined d = true ->
  truthy (own d "access_token") = false ->
  createTransaction net o st
  = (Thrown (CreateTransactionError
               "Missing authentication. Did you call authenticate first?"),
     {| self := with_token (self st) (own d "access_token");
        sent := sent st ++ [auth_request (self st)] |})
  /\ completeTransaction net o st
     = (Thrown (CompleteTransactionError
                  "Missing authentication. Did you call authenticate first?"),
        {| self := with_token (self st) (own d "access_token");
           sent := sent st ++ [auth_request (self st)] |}).
Proof.
  intros Hnet Hd Ht. split.
  - unfold createTransaction. unfold bind at 1.
    rewrite authenticate_run, Hnet, (member_defined d _ Hd).
    unfold bind at 1. unfold this at 1.
    cbn [authenticated self with_token accessToken].
    rewrite Ht. reflexivity.
  - unfold completeTransaction. unfold bind at 1.
    rewrite authenticate_run, Hnet, (member_defined d _ Hd).
    unfold bind at 1. unfold this at 1.
    cbn [authenticated self with_token accessToken].
    rewrite Ht. reflexivity.
Qed.

Lemma unusable_token_is_stored_witness :
  createTransaction tokenless_net order_P1 sample_state
  = (Thrown (CreateTransactionError
               "Missing authentication. Did you call authenticate first?"),
     {| self := with_token sample_client VUndefined;
        sent := [auth_request sample_client] |}).
Proof.
  exact (proj1 (unusable_token_is_stored tokenless_net order_P1 sample_state
                  (VObj []) eq_refl eq_refl eq_refl)).
Defined.

(** When the token request fails, [authenticate] and both transaction
    methods throw the normalized error; the client keeps the token and the
    signature it had, and no transaction request follows. *)
Theorem failed_authentication_is_normalized (net : Network) (o : JsVal)
    (st : State) (m : string) (resp : option JsVal) :
  net (sent st) (auth_request (self st)) = Failed m resp ->
  well_formed (AxiosErr m resp) ->
  authenticate net st
  = (Thrown (normalized (AxiosErr m resp)),
     {| self := self st; sent := sent st ++ [auth_request (self st)] |})
  /\ createTransaction net o st
     = (Thrown (normalized (AxiosErr m resp)),
        {| self := self st; sent := sent st ++ [auth_request (self st)] |})
  /\ completeTransaction net o st
     = (Thrown (normalized (AxiosErr m resp)),
        {| self := self st; sent := sent st ++ [auth_request (self st)] |}).
Proof.
  intros Hnet Hw.
  assert (Ha : authenticate net st
               = (Thrown (normalized (AxiosErr m resp)),
                  after_auth_request st)).
  { rewrite authenticate_run, Hnet. now apply normalizer_chain. }
  split; [exact Ha | split].
  - unfold createTransaction. unfold bind at 1. now rewrite Ha.
  - unfold completeTransaction. unfold bind at 1. now rewrite Ha.
Qed.

Lemma failed_authentication_is_normalized_witness :
  createTransaction refusing_net order_P1 sample_state
  = (Thrown (Err "Error" "Unauthorized Unknown client"),
     {| self := sample_client; sent := [auth_request sample_client] |}).
Proof.
  exact (proj1 (proj2 (failed_authentication_is_normalized refusing_net
                         order_P1 sample_state
                         "Request failed with status code 401"
                         (Some (VObj [("message", VStr "Unauthorized");
                                      ("reason", VStr "Unknown client")]))
                         eq_refl eq_refl))).
Defined.

(** With a granted token and valid options, [createTransaction] returns
    the data of the gateway's answer as it is, or throws the normalized form
    of its error; either way the client holds the new token and the new
    signature, and two requests have been sent. *)
Theorem createTransaction_outcome (net : Network) (o token : JsVal)
    (st : State) :
  grants net st token ->
  valid_create o ->
  let c := signing_client (self st) token o in
  let st' := {| self := c;
                sent := sent st
                          ++ [auth_request (self st); create_request c o] |} in
  (forall d,
     net (sent st ++ [auth_request (self st)])%list (create_request c o)
     = Responded d ->
     createTransaction net o st = (Returned d, st'))
  /\ (forall m resp,
        net (sent st ++ [auth_request (self st)])%list (create_request c o)
        = Failed m resp ->
        well_formed (AxiosErr m resp) ->
        createTransaction net o st
        = (Thrown (normalized (AxiosErr m resp)), st')).
Proof.
  intros Hg Hv c st'. subst c st'.
  rewrite (createTransaction_valid net st o token Hg Hv).
  cbv zeta. split.
  - intros d Hd. cbv beta delta [try_catch post] iota zeta.
    cbn [self sent]. 
    change {| url := url (create_request (signing_client (self st) token o) o);
              body := body (create_request (signing_client (self st) token o) o);
              headers :=
                headers (create_request (signing_client (self st) token o) o) |}
      with (create_request (signing_client (self st) token o) o).
    rewrite Hd. rewrite <- app_assoc. reflexivity.
  - intros m resp Hf Hw. cbv beta delta [try_catch post] iota zeta.
    cbn [self sent].
    change {| url := url (create_request (signing_client (self st) token o) o);
              body := body (create_request (signing_client (self st) token o) o);
              headers :=
                headers (create_request (signing_client (self st) token o) o) |}
      with (create_request (signing_client (self st) token o) o).
    rewrite Hf. rewrite (normalizer_chain _ _ _ Hw).
    rewrite <- app_assoc. reflexivity.
Qed.

Lemma createTransaction_outcome_witness :
  fst (createTransaction sample_net order_P1 sample_state)
  = Returned (VObj [("state", VStr "PENDING")])
  /\ fst (createTransaction declining_net order_P1 sample_state)
     = Thrown (Err "Error" "Insufficient funds").
Proof.
  split.
  - rewrite (proj1 (createTransaction_outcome sample_net order_P1
                      (VStr "fresh-token") sample_state sample_grants
                      order_P1_valid)
               (VObj [("state", VStr "PENDING")]) eq_refl).
    reflexivity.
  - rewrite (proj2 (createTransaction_outcome declining_net order_P1
                      (VStr "fresh-token") sample_state declining_grants
                      order_P1_valid)
               "Request failed with status code 422"
               (Some (VObj [("errors",
                             VArr [VObj [("message",
                                          VStr "Insufficient funds")]])]))
               eq_refl eq_refl).
    reflexivity.
Defined.

(** The same for [completeTransaction]: the data of the answer as it is,
    or the normalized error. *)
Theorem completeTransaction_outcome (net : Network) (o token : JsVal)
    (st : State) :
  grants net st token ->
  valid_complete o ->
  let c := signing_client (self st) token o in
  let st' := {| self := c;
                sent := sent st
                          ++ [auth_request (self st);
                              complete_request c o] |} in
  (forall d,
     net (sent st ++ [auth_request (self st)])%list (complete_request c o)
     = Responded d ->
     completeTransaction net o st = (Returned d, st'))
  /\ (forall m resp,
        net (sent st ++ [auth_request (self st)])%list (complete_request c o)
        = Failed m resp ->
        well_formed (AxiosErr m resp) ->
        completeTransaction net o st
        = (Thrown (normalized (AxiosErr m resp)), st')).
Proof.
  intros Hg Hv c st'. subst c st'.
  rewrite (completeTransaction_valid net st o token Hg Hv).
  cbv zeta. split.
  - intros d Hd. cbv beta delta [try_catch post] iota zeta.
    cbn [self sent].
    change {| url := url (complete_request (signing_client (self st) token o) o);
              body := body (complete_request (signing_client (self st) token o) o);
              headers :=
                headers (complete_request (signing_client (self st) token o) o) |}
      with (complete_request (signing_client (self st) token o) o).
    rewrite Hd. rewrite <- app_assoc. reflexivity.
  - intros m resp Hf Hw. cbv beta delta [try_catch post] iota zeta.
    cbn [self sent].
    change {| url := url (complete_request (signing_client (self st) token o) o);
              body := body (complete_request (signing_client (self st) token o) o);
              headers :=
                headers (complete_request (signing_client (self st) token o) o) |}
      with (complete_request (signing_client (self st) token o) o).
    rewrite Hf. rewrite (normalizer_chain _ _ _ Hw).
    rewrite <- app_assoc. reflexivity.
Qed.

Lemma completeTransaction_outcome_witness :
  fst (completeTransaction sample_net completion_P1 sample_state)
  = Returned (VObj [("state", VStr "PENDING")])
  /\ fst (completeTransaction declining_net completion_P1 sample_state)
     = Thrown (Err "Error" "Insufficient funds").
Proof.
  split.
  - rewrite (proj1 (completeTransaction_outcome sample_net completion_P1
                      (VStr "fresh-token") sample_state sample_grants
                      completion_P1_valid)
               (VObj [("state", VStr "PENDING")]) eq_refl).
    reflexivity.
  - rewrite (proj2 (completeTransaction_outcome declining_net completion_P1
                      (VStr "fresh-token") sample_state declining_grants
                      completion_P1_valid)
               "Request failed with status code 422"
               (Some (VObj [("errors",
                             VArr [VObj [("message",
                                          VStr "Insufficient funds")]])]))
               eq_refl eq_refl).
    reflexivity.
Defined.

(** ** What the requests carry *)

(** The signature submitted by [createTransaction] can be recomputed from
    the request itself: it is the digest of the body's [order_id],
    [total_amt], [total_qty] and [customer.ip], followed by the client
    identifier and the secret; and the request carries the token just
    granted, not the one held before. *)
Theorem signature_covers_submitted_fields (net : Network) (o token : JsVal)
    (st : State) :
  grants net st token ->
  valid_create o ->
  exists req,
    sent (snd (createTransaction net o st))
    = (sent st ++ [auth_request (self st); req])%list
    /\ headers req = [("X-Auth", "Bearer " ++ ToString token)]
    /\ own (body req) "signature"
       = VStr (Crypto.digest
                 (ToString (own (body req) "order_id")
                    ++ ToString (own (body req) "total_amt")
                    ++ ToString (own (body req) "total_qty")
                    ++ ToString (own (own (body req) "customer") "ip")
                    ++ ToString (clientId (self st))
                    ++ ToString (clientSecret (self st)))).
Proof.
  intros Hg Hv.
  exists (create_request (signing_client (self st) token o) o).
  split; [now rewrite (createTransaction_valid_state net st o token Hg Hv) | ].
  split; reflexivity.
Qed.

Lemma signature_covers_submitted_fields_witness :
  exists req,
    sent (snd (createTransaction sample_net order_P1 sample_state))
    = ([] ++ [auth_request sample_client; req])%list
    /\ headers req = [("X-Auth", "Bearer fresh-token")].
Proof.
  destruct (signature_covers_submitted_fields sample_net order_P1
              (VStr "fresh-token") sample_state sample_grants order_P1_valid)
    as (req & Hs & Hh & _).
  exists req. split; assumption.
Defined.

(** The commit request of [completeTransaction]: its address, the token
    just granted, and a body of exactly four fields.  The order identifier,
    the amount and the quantity are not sent, they only enter the signature;
    the [ip] that is signed is the one that is sent, the placeholder
    included. *)
Theorem commit_request_fields (net : Network) (o token : JsVal) (st : State) :
  grants net st token ->
  valid_complete o ->
  exists req,
    sent (snd (completeTransaction net o st))
    = (sent st ++ [auth_request (self st); req])%list
    /\ url req
       = ToString (apiURL (self st)) ++ "/v1/payments/transactions/commit"
    /\ headers req = [("X-Auth", "Bearer " ++ ToString token)]
    /\ body req
       = VObj [("txid", own o "txid");
               ("signature",
                VStr (Crypto.digest
                        (ToString (own o "UID")
                           ++ ToString (own o "totalAmount")
                           ++ ToString (own o "totalQuantity")
                           ++ ToString (own (body req) "ip")
                           ++ ToString (clientId (self st))
                           ++ ToString (clientSecret (self st)))));
               ("security_code", own o "securityCode");
               ("ip", js_or (own o "ip") (VStr "Unknown IP"))].
Proof.
  intros Hg Hv.
  exists (complete_request (signing_client (self st) token o) o).
  split; [now rewrite (completeTransaction_valid_state net st o token Hg Hv) | ].
  repeat split.
Qed.

Lemma commit_request_fields_witness :
  exists req,
    sent (snd (completeTransaction sample_net completion_P1 sample_state))
    = ([] ++ [auth_request sample_client; req])%list
    /\ url req = "https://gateway.test/v1/payments/transactions/commit"
    /\ own (body req) "ip" = VStr "Unknown IP".
Proof.
  destruct (commit_request_fields sample_net completion_P1
              (VStr "fresh-token") sample_state sample_grants
              completion_P1_valid)
    as (req & Hs & Hu & _ & Hb).
  exists req. split; [exact Hs | split; [exact Hu | ]].
  rewrite Hb. reflexivity.
Defined.

(** ** The signature does not separate its fields *)

Lemma append_grows (a b : string) : b <> "" -> a ++ b <> a.
Proof.
  intros Hb E. apply (f_equal String.length) in E.
  rewrite length_append in E. destruct b; [contradiction | simpl in E; lia].
Qed.

Lemma prepend_grows (a b : string) : a <> "" -> a ++ b <> b.
Proof.
  intros Ha E. apply (f_equal String.length) in E.
  rewrite length_append in E. destruct a; [contradiction | simpl in E; lia].
Qed.

(** The signed fields are concatenated without a separator, so digits can
    move from the end of the identifier to the front of the amount: two
    valid orders with different identifiers and different amounts get the
    same signature. *)
Theorem signature_blind_to_field_boundary (net : Network) (st : State)
    (token : JsVal) (uid digits amt : string) (qty : Z) :
  grants net st token ->
  uid <> "" ->
  all_digits digits = true ->
  digits <> "" ->
  money_format amt ->
  let o1 := paygo_order (uid ++ digits) amt qty in
  let o2 := paygo_order uid (digits ++ amt) qty in
  valid_create o1 /\ valid_create o2
  /\ own o1 "UID" <> own o2 "UID"
  /\ own o1 "totalAmount" <> own o2 "totalAmount"
  /\ signature_after (createTransaction net o1) st
     = signature_after (createTransaction net o2) st.
Proof.
  intros Hg Hu Hd Hne Hm o1 o2.
  assert (Hv1 : valid_create o1).
  { apply paygo_order_valid; [ | exact Hm].
    intros E. apply append_eq_nil in E as [E _]. contradiction. }
  assert (Hv2 : valid_create o2).
  { apply paygo_order_valid; [exact Hu | now apply money_format_digits]. }
  split; [exact Hv1 | split; [exact Hv2 | ]].
  split; [ | split].
  - cbn. intros E. injection E as E. now apply append_grows in E.
  - cbn. intros E. injection E as E. symmetry in E.
    now apply prepend_grows in E.
  - rewrite (signature_after_create net st o1 token Hg Hv1).
    rewrite (signature_after_create net st o2 token Hg Hv2).
    unfold signed_data, signed_text, o1, o2, paygo_order.
    cbn [own lookup String.eqb Ascii.eqb Bool.eqb ToString].
    repeat rewrite append_assoc. reflexivity.
Qed.

Lemma signature_blind_to_field_boundary_witness :
  valid_create (paygo_order "P11" "0.00" 2)
  /\ valid_create (paygo_order "P1" "10.00" 2)
  /\ signature_after (createTransaction sample_net (paygo_order "P11" "0.00" 2))
       sample_state
     = signature_after
         (createTransaction sample_net (paygo_order "P1" "10.00" 2))
         sample_state.
Proof.
  destruct (signature_blind_to_field_boundary sample_net sample_state
              (VStr "fresh-token") "P1" "1" "0.00" 2 sample_grants)
    as (H1 & H2 & _ & _ & H3).
  - intros H; discriminate H.
  - reflexivity.
  - intros H; discriminate H.
  - exists "0", "0"%char, "0"%char. repeat split.
  - exact (conj H1 (conj H2 H3)).
Defined.

(** ** The shape of a signature *)

Lemma sha1_length (msg : list Z) : List.length (Crypto.sha1 msg) = 20.
Proof.
  unfold Crypto.sha1.
  destruct (fold_left Crypto.compress _ _) as [[[[h0 h1] h2] h3] h4].
  reflexivity.
Qed.

Lemma base64_of_twenty (l : list Z) :
  List.length l = 20 ->
  String.length (Crypto.base64 l) = 28
  /\ String.get 27 (Crypto.base64 l) = Some "="%char.
Proof.
  intros H.
  do 21 (destruct l as [|? l]; try discriminate H).
  split; reflexivity.
Qed.

(** Whatever is signed, the signature is a string of 28 characters that
    ends with the padding character [=]. *)
Theorem signature_has_28_characters (UID totalAmount totalQuantity ip : JsVal)
    (st : State) :
  exists s,
    signature (self (snd (makeSignature UID totalAmount totalQuantity ip st)))
    = VStr s
    /\ String.length s = 28
    /\ String.get 27 s = Some "="%char.
Proof.
  eexists. split; [reflexivity | ].
  apply base64_of_twenty. apply sha1_length.
Qed.

(** ** The amounts [isMoney] lets through *)

Lemma money_format_characters (s : string) :
  money_format s ->
  3 <= String.length s
  /\ forall c, In c (list_ascii_of_string s) ->
               is_digit c = true \/ c = "."%char.
Proof.
  intros (ds & d1 & d2 & -> & Hds & H1 & H2). split.
  - rewrite length_append. simpl. lia.
  - induction ds as [|a ds IH]; simpl.
    + intros c [<-|[<-|[<-|[]]]]; auto.
    + simpl in Hds. apply andb_true_iff in Hds as [Ha Hds].
      intros c [<-|Hc]; auto.
Qed.

(** A non-empty string [isMoney] accepts has at least three characters,
    each a digit or the dot: no sign, no space, no thousands separator, no
    exponent. *)
Theorem isMoney_digits_and_dot_only (data : JsVal) (field message : string)
    (args : list string) (s : string) :
  get data field = VStr s ->
  s <> "" ->
  accepted (isMoney data field message args get) ->
  3 <= String.length s
  /\ forall c, In c (list_ascii_of_string s) ->
               is_digit c = true \/ c = "."%char.
Proof.
  intros Hs Hne Hacc. apply money_format_characters.
  rewrite (isMoney_string _ _ _ _ _ Hs) in Hacc.
  apply String.eqb_neq in Hne. rewrite Hne in Hacc.
  destruct (Regex.test money_regex s) eqn:Ht;
    [now apply money_test | destruct Hacc; discriminate].
Qed.

Lemma isMoney_digits_and_dot_only_witness :
  3 <= String.length "12.34"
  /\ forall c, In c (list_ascii_of_string "12.34") ->
               is_digit c = true \/ c = "."%char.
Proof.
  apply (isMoney_digits_and_dot_only
           (VObj [("totalAmount", VStr "12.34")]) "totalAmount"
           "totalAmount contains invalid amount." [] "12.34" eq_refl).
  - intros H; discriminate H.
  - eexists; reflexivity.
Defined.

(** ** The constructor names what is missing *)

(** The constructor tests its arguments in the order [apiURL], [clientId],
    [clientSecret] and names the first that is falsy (absent, empty, 0,
    [false]); it returns exactly when the three are truthy. *)
Theorem constructor_names_first_missing (a i s : JsVal) :
  (constructor a i s = Thrown (OneEpayError "Missing OneEpay apiUrl.")
   <-> truthy a = false)
  /\ (constructor a i s = Thrown (OneEpayError "Missing OneEpay clientId.")
      <-> truthy a = true /\ truthy i = false)
  /\ (constructor a i s
      = Thrown (OneEpayError "Missing OneEpay clientSecret.")
      <-> truthy a = true /\ truthy i = true /\ truthy s = false)
  /\ ((exists c, constructor a i s = Returned c)
      <-> truthy a = true /\ truthy i = true /\ truthy s = true).
Proof.
  unfold constructor.
  destruct (truthy a), (truthy i), (truthy s); cbn [negb];
    (split; [ | split; [ | split]]); (split; intros H);
    try discriminate H;
    try match type of H with
        | ex _ => destruct H as [c Hc]; discriminate Hc
        end;
    try (now intuition discriminate);
    try reflexivity; try (eexists; reflexivity); auto.
Qed.

(** ** The earlier variants *)

(** The request the main class would submit from the same client, had it
    kept its token. *)
Lemma manual_createTransaction_valid (net : Network) (st : State)
    (o : JsVal) :
  valid_create o ->
  ManualAuth.createTransaction net o st =
    let c := with_signature (self st)
               (VStr (Crypto.digest (signed_data (self st) o))) in
    let q := create_request c o in
    let items :=
      js_or (own o "items")
        (VArr [VObj [("name",
                      VStr ("Order #" ++ ToString (own o "UID") ++ "."));
                     ("qty", own o "totalQuantity");
                     ("unit_price", own o "totalAmount")]]) in
    try_catch
      (post net (url q)
         (VObj [("order_id", own (body q) "order_id");
                ("description", own (body q) "description");
                ("total_amt", own (body q) "total_amt");
                ("total_qty", own (body q) "total_qty");
                ("currency_code", own (body q) "currency_code");
                ("signature", own (body q) "signature");
                ("payment_code", own (body q) "payment_code");
                ("payment_options", own (body q) "payment_options");
                ("items", items);
                ("customer", own (body q) "customer")])
         (headers q))
      handleOneEpayError st.
Proof.
  intros Hvalid.
  destruct (valid_create_object o Hvalid) as [[props ->] [po Hpo]].
  destruct Hvalid as [Ho Hv].
  unfold ManualAuth.createTransaction.
  unfold bind at 1.
  unfold validateCreateTransaction, validate_or_throw.
  rewrite Hv. cbn [typeof String.eqb Ascii.eqb Bool.eqb negb ret].
  cbv beta delta [try_catch bind prop this ret member] iota.
  rewrite Hpo.
  cbv beta delta [try_catch bind prop this ret member] iota.
  unfold create_request, signed_data, signed_text, str_plus,
    with_signature.
  cbn [String.eqb Ascii.eqb Bool.eqb ToString apiURL clientId clientSecret
       accessToken signature url body headers self sent].
  rewrite Hpo.
  repeat rewrite append_assoc.
  reflexivity.
Qed.

Lemma submitted_request (net : Network) (u : string) (b : JsVal)
    (h : list (string * string)) (s : State) :
  snd (try_catch (post net u b h) handleOneEpayError s)
  = {| self := self s;
       sent := sent s ++ [{| url := u; body := b; headers := h |}] |}.
Proof.
  exact (submitted net {| url := u; body := b; headers := h |} s).
Qed.

(** In the class of src/unnamed/part_000, options that fail validation are
    refused before anything is sent: the error is thrown from the state as it
    was, with no token request and no transaction request. *)
Theorem manual_validates_before_any_request (net : Network) (o : JsVal)
    (st : State) (e : JsError) :
  (forall s, validateCreateTransaction o s = (Thrown e, s)) ->
  ManualAuth.createTransaction net o st = (Thrown e, st).
Proof.
  intros Hv. unfold ManualAuth.createTransaction.
  unfold bind at 1. now rewrite Hv.
Qed.

Lemma manual_validates_before_any_request_witness :
  ManualAuth.createTransaction sample_net order_two_violations sample_state
  = (Thrown (CreateTransactionError "totalAmount contains invalid amount."),
     sample_state).
Proof.
  apply (manual_validates_before_any_request sample_net
           order_two_violations sample_state
           (CreateTransactionError "totalAmount contains invalid amount.")).
  intros s. reflexivity.
Defined.

(** In the class of src/unnamed/part_000, valid options produce exactly
    one request and no token request; the client is left as it was.  The
    request is, field by field, the one the class of src/index.ts builds
    from the same client, signature included, except for [items], whose
    default item has the quantity [totalQuantity]; it carries whatever token
    the client holds. *)
Theorem manual_request_matches_main (net : Network) (o : JsVal)
    (st : State) :
  valid_create o ->
  let q :=
    create_request
      (with_signature (self st)
         (VStr (Crypto.digest (signed_data (self st) o)))) o in
  exists req,
    snd (ManualAuth.createTransaction net o st)
    = {| self := self st; sent := sent st ++ [req] |}
    /\ url req = url q
    /\ headers req
       = [("X-Auth", "Bearer " ++ ToString (accessToken (self st)))]
    /\ (forall k, k <> "items" -> own (body req) k = own (body q) k)
    /\ own (body req) "items"
       = js_or (own o "items")
           (VArr [VObj [("name",
                         VStr ("Order #" ++ ToString (own o "UID") ++ "."));
                        ("qty", own o "totalQuantity");
                        ("unit_price", own o "totalAmount")]]).
Proof.
  intros Hv q.
  rewrite (manual_createTransaction_valid net st o Hv). cbv zeta.
  rewrite submitted_request.
  eexists. split; [reflexivity | ].
  cbn [url body headers].
  split; [reflexivity | ]. split; [reflexivity | ].
  split; [ | reflexivity].
  intros k Hk. subst q. unfold create_request.
  cbn [body own lookup].
  repeat match goal with
         | |- context [if ?key =? k then _ else _] =>
             destruct (String.eqb_spec key k) as [<-|?];
               [first [reflexivity | now contradiction Hk] | ]
         end.
  reflexivity.
Qed.

Lemma manual_request_matches_main_witness :
  exists req,
    sent (snd (ManualAuth.createTransaction sample_net order_P1 sample_state))
    = [req]
    /\ headers req = [("X-Auth", "Bearer cached-token")]
    /\ own (body req) "items"
       = VArr [VObj [("name", VStr "Order #P1."); ("qty", VNum (NInt 2));
                     ("unit_price", VStr "10.00")]].
Proof.
  destruct (manual_request_matches_main sample_net order_P1 sample_state
              order_P1_valid)
    as (req & Hs & _ & Hh & _ & Hi).
  exists req. rewrite Hs. repeat split; assumption.
Defined.

(** The second class of src/index.ts validates nothing: any options but
    [null] and [undefined] produce exactly one request to the fixed gateway,
    with [paymentOptions] forwarded as given and the fields that are missing
    signed as "undefined"; [null] or [undefined] options throw a TypeError
    before any request. *)
Theorem draft_submits_without_validation (net : Network) (o : JsVal)
    (cid csec token : JsVal) (reqs : list Request) :
  let c := draft_client cid csec token in
  let st := {| self := c; sent := reqs |} in
  (defined o = true ->
   exists req,
     snd (Draft.createTransaction net o st)
     = {| self := c; sent := reqs ++ [req] |}
     /\ url req = "https://api-dev.oneepay.com/v1/payments/transactions"
     /\ own (body req) "order_id" = own o "UID"
     /\ own (body req) "payment_options" = own o "paymentOptions"
     /\ own (body req) "signature"
        = VStr (Crypto.digest (signed_data c o)))
  /\ (defined o = false ->
      Draft.createTransaction net o st = (Thrown TypeErr, st)).
Proof.
  intros c st. split.
  - intros Hd. unfold Draft.createTransaction.
    cbv beta delta [try_catch bind prop this ret post] iota.
    repeat rewrite (member_defined o _ Hd).
    cbv beta iota zeta. cbn [self sent st].
    match goal with
    | |- context [net reqs ?q] =>
        exists q;
        assert (Hs : forall x : Outcome JsVal * State,
                   (x = match net reqs q with
                        | Responded d =>
                            (Returned d, {| self := c; sent := reqs ++ [q] |})
                        | Failed m resp =>
                            @handleOneEpayError JsVal (AxiosErr m resp)
                              {| self := c; sent := reqs ++ [q] |}
                        end) ->
                   snd x = {| self := c; sent := reqs ++ [q] |})
    end.
    { intros x ->. destruct (net reqs _) as [d|m resp]; [reflexivity | ].
      match goal with
      | |- context [@handleOneEpayError ?T ?x ?y] =>
          destruct (@handleOneEpayError_throws T x y) as [e' He']
      end.
      rewrite He'. reflexivity. }
    split.
    + apply Hs. destruct (net reqs _) as [d|m resp]; reflexivity.
    + cbn [url body own lookup String.eqb Ascii.eqb Bool.eqb].
      split; [reflexivity | ]. split; [reflexivity | ].
      split; [reflexivity | ].
      unfold signed_data, signed_text, str_plus, c, draft_client.
      cbn [String.eqb Ascii.eqb Bool.eqb ToString self clientId
           clientSecret].
      repeat rewrite append_assoc. reflexivity.
  - intros Hd. destruct o; try discriminate Hd; reflexivity.
Qed.

Lemma draft_submits_without_validation_witness :
  (exists req,
     snd (Draft.createTransaction sample_net (VObj [])
            {| self := draft_client (VStr "shop") (VStr "secret") VUndefined;
               sent := [] |})
     = {| self := draft_client (VStr "shop") (VStr "secret") VUndefined;
          sent := [] ++ [req] |}
     /\ own (body req) "order_id" = VUndefined)
  /\ Draft.createTransaction sample_net VNull
       {| self := draft_client (VStr "shop") (VStr "secret") VUndefined;
          sent := [] |}
     = (Thrown TypeErr,
        {| self := draft_client (VStr "shop") (VStr "secret") VUndefined;
           sent := [] |}).
Proof.
  split.
  - destruct (proj1 (draft_submits_without_validation sample_net (VObj [])
                       (VStr "shop") (VStr "secret") VUndefined [])
                eq_refl)
      as (req & Hs & _ & Ho & _).
    exists req. split; [exact Hs | exact Ho].
  - apply (proj2 (draft_submits_without_validation sample_net VNull
                    (VStr "shop") (VStr "secret") VUndefined [])).
    reflexivity.
Defined.

(** ** The whole transaction request *)

(** The whole body of the transaction request, for any valid options: an
    optional field is submitted as given when it is truthy and replaced by
    its default when it is absent, [null] or empty; [paymentOptions] is
    reduced to its five known subfields, renamed. *)
Theorem createTransaction_request_body (net : Network) (o token : JsVal)
    (st : State) :
  grants net st token ->
  valid_create o ->
  let given (f : string) (default : JsVal) :=
    if truthy (own o f) then own o f else default in
  let order := VStr ("Order #" ++ ToString (own o "UID") ++ ".") in
  let po := own o "paymentOptions" in
  exists req,
    sent (snd (createTransaction net o st))
    = (sent st ++ [auth_request (self st); req])%list
    /\ url req = ToString (apiURL (self st)) ++ "/v1/payments/transactions"
    /\ body req
       = VObj [("order_id", own o "UID");
               ("description", given "description" order);
               ("total_amt", VStr (ToString (own o "totalAmount")));
               ("total_qty", own o "totalQuantity");
               ("currency_code", VStr "USD");
               ("signature",
                VStr (Crypto.digest (signed_data (self st) o)));
               ("payment_code", own o "paymentCode");
               ("payment_options",
                VObj [("account", own po "account");
                      ("account_type", own po "accountType");
                      ("point_id", own po "paygoId");
                      ("wing_account", own po "wingAccount");
                      ("wing_security_code", own po "wingSecurityCode")]);
               ("items",
                given "items"
                  (VArr [VObj [("name", order); ("qty", VNum (NInt 1));
                               ("unit_price", own o "totalAmount")]]));
               ("customer",
                VObj [("ip", given "ip" (VStr "Unknown IP"));
                      ("latitude", given "lat" (VStr "Unknown Latitude"));
                      ("longitude", given "lng" (VStr "Unknown Longitude"));
                      ("udid",
                       given "deviceUDID"
                         (VStr "Unknown Device UDID"))])].
Proof.
  intros Hg Hv given order po.
  exists (create_request (signing_client (self st) token o) o).
  split; [now rewrite (createTransaction_valid_state net st o token Hg Hv) | ].
  split; reflexivity.
Qed.

Lemma createTransaction_request_body_witness :
  exists req,
    sent (snd (createTransaction sample_net order_P1_ip sample_state))
    = ([] ++ [auth_request sample_client; req])%list
    /\ own (own (body req) "customer") "ip" = VStr "Unknown IP"
    /\ own (own (body req) "payment_options") "point_id" = VStr "PG-7".
Proof.
  destruct (createTransaction_request_body sample_net order_P1_ip
              (VStr "fresh-token") sample_state sample_grants
              order_P1_ip_valid)
    as (req & Hs & _ & Hb).
  exists req. split; [exact Hs | ]. rewrite Hb. split; reflexivity.
Defined.

(** ** A transaction created, then completed *)

(** A transaction created and then completed: four requests in all, the
    token request repeated word for word before each of the two, and, when
    the two options agree on the signed fields, the same signature on
    both. *)
Theorem create_then_complete (net : Network) (o o' : JsVal)
    (st st1 st2 : State) (r r' : JsVal) :
  createTransaction net o st = (Returned r, st1) ->
  completeTransaction net o' st1 = (Returned r', st2) ->
  exists create commit,
    sent st2
    = (sent st
         ++ [auth_request (self st); create;
             auth_request (self st); commit])%list
    /\ url create
       = ToString (apiURL (self st)) ++ "/v1/payments/transactions"
    /\ url commit
       = ToString (apiURL (self st)) ++ "/v1/payments/transactions/commit"
    /\ ((forall f, In f signed_fields -> own o f = own o' f) ->
        own (body commit) "signature" = own (body create) "signature").
Proof.
  intros H1 H2.
  destruct (createTransaction_returned net o st st1 r H1)
    as (t1 & _ & _ & ->).
  destruct (completeTransaction_returned net o' _ st2 r' H2)
    as (t2 & _ & _ & ->).
  eexists. eexists. cbn [self sent]. split.
  - rewrite <- app_assoc. reflexivity.
  - split; [reflexivity | ]. split; [reflexivity | ].
    intros Hsame. cbn [body create_request complete_request own lookup
                       String.eqb Ascii.eqb Bool.eqb signing_client
                       with_signature with_token signature].
    unfold signed_data, signed_text.
    rewrite (Hsame "UID"), (Hsame "totalAmount"), (Hsame "totalQuantity"),
      (Hsame "ip"); simpl; tauto.
Qed.

Lemma create_then_complete_witness :
  exists create commit,
    sent (snd (completeTransaction sample_net completion_P1
                 (snd (createTransaction sample_net order_P1 sample_state))))
    = ([] ++ [auth_request sample_client; create;
              auth_request sample_client; commit])%list
    /\ own (body commit) "signature" = own (body create) "signature".
Proof.
  destruct (create_then_complete sample_net order_P1 completion_P1
              sample_state
              (snd (createTransaction sample_net order_P1 sample_state))
              (snd (completeTransaction sample_net completion_P1
                      (snd (createTransaction sample_net order_P1
                              sample_state))))
              (VObj [("state", VStr "PENDING")])
              (VObj [("state", VStr "PENDING")]))
    as (create & commit & Hs & _ & _ & Hsig).
  - vm_compute. reflexivity.
  - vm_compute. reflexivity.
  - exists create, commit. split; [exact Hs | ].
    apply Hsig. intros f [<-|[<-|[<-|[<-|[]]]]]; reflexivity.
Defined.
